(** * HareDB: the encrypted key-value engine and its persistence worker

    A shallow embedding of [HareDB.ts] (the engine with the [meta] table and
    the worker offload), of [dbworker.ts], of the two engines before it
    (the older, synchronous one, and the one between, where they differ
    from the present engine) and of the hook and the routes of the HTTP
    server in [index.ts], followed by the properties of the engine's
    contract. The claims C1 to C10 are the last part of the file.

    Conventions.
    - A JavaScript string is a sequence of 16-bit code units, and need not
      be well-formed UTF-16. It is modelled by the bytes of its generalized
      UTF-8 (Rocq's [string]): every code point as UTF-8 writes it, and an
      unpaired surrogate as the three bytes ED A0..BF 80..BF that the
      pattern of UTF-8 gives it. Two JavaScript strings are equal exactly
      when these bytes are; a string without an unpaired surrogate
      ([well_formed]) is modelled by its UTF-8. [Buffer.from(s)] writes
      U+FFFD for an unpaired surrogate and [buf.toString()] reads U+FFFD
      for bytes that are not UTF-8 ([Utf8.encode], [Utf8.decode]).
    - A [Buffer] is a [list byte].
    - [sodium-native] is an external library: its constants and its two
      secretbox primitives are fields of the record [Platform]; what is
      assumed of them is stated as a hypothesis where it is used
      ([secretbox_opens], [refuses]).
    - A method of the class is a function from the object [this] to a
      completion (a value, a thrown error, or the death of the process)
      and the updated object.
    - The worker runs on its own; a list of messages stands for what it
      has received, in the order it was posted.
    - A path names a file that SQLite can open or create; the SQLiteError
      for a path it cannot open is outside the model, so that a statement
      on a constructor is on one that got past [new Database]. SQLite
      takes the empty path and [:memory:] for a private database that no
      second connection sees: a statement about two connections to one
      path is about a path that names a file ([names_file]). *)

From Stdlib Require Import Strings.String Strings.Ascii Strings.Byte.
From stdpp Require Import base option list strings gmap fin_maps.

Local Open Scope string_scope.
Local Open Scope nat_scope.
Local Open Scope list_scope.

#[global] Instance byte_eq_dec : EqDecision byte := Byte.byte_eq_dec.

(** ** Buffers and their JSON text *)

Module Json.

(** Decimal text of a number below 1000, as [JSON.stringify] prints an
    element of a byte array. *)
Definition digit (n : nat) : ascii := ascii_of_nat (48 + n).

Definition decimal (n : nat) : string :=
  if n <? 10 then String (digit n) ""
  else if n <? 100 then String (digit (n / 10)) (String (digit (n mod 10)) "")
  else String (digit (n / 100))
         (String (digit ((n / 10) mod 10)) (String (digit (n mod 10)) "")).

Fixpoint elements (bs : list byte) : string :=
  match bs with
  | [] => ""
  | [b] => decimal (Byte.to_nat b)
  | b :: bs' => decimal (Byte.to_nat b) +:+ String "," (elements bs')
  end.

(** [JSON.stringify(Array.from(buffer))] *)
Definition stringify (bs : list byte) : string :=
  String "[" (elements bs +:+ "]").

Definition digit_value (c : ascii) : option nat :=
  let n := nat_of_ascii c in
  if (48 <=? n) && (n <=? 57) then Some (n - 48) else None.

(** Reads the elements after the opening bracket; [cur] is the number
    being read, [acc] the bytes read so far, last first. *)
Fixpoint read_elements (s : string) (cur : option nat) (acc : list byte)
  : option (list byte) :=
  match s with
  | "" => None
  | String c s' =>
      match digit_value c with
      | Some d =>
          read_elements s' (Some (10 * default 0 cur + d)) acc
      | None =>
          if Ascii.eqb c "," then
            match cur ≫= Byte.of_nat with
            | Some b => read_elements s' None (b :: acc)
            | None => None
            end
          else if Ascii.eqb c "]" then
            match s', cur with
            | "", None => match acc with [] => Some [] | _ => None end
            | "", Some n => b ← Byte.of_nat n; Some (rev (b :: acc))
            | _, _ => None
            end
          else None
      end
  end.

(** The byte array a text denotes when the text is exactly what
    [stringify] prints for that array; [None] for all other text. *)
Definition parse_canonical (s : string) : option (list byte) :=
  match s with
  | String "[" s' =>
      match read_elements s' None [] with
      | Some bs => if String.eqb (stringify bs) s then Some bs else None
      | None => None
      end
  | _ => None
  end.

End Json.

(** ** What the engine takes from outside the repository *)

(** [sodium-native], [JSON.parse] on text the engine did not print, and the
    process environment. *)
Record Platform := {
  crypto_secretbox_KEYBYTES : nat;
  crypto_secretbox_MACBYTES : nat;
  crypto_secretbox_NONCEBYTES : nat;
  (** [crypto_secretbox_easy(ciphertext, message, nonce, key)]: the bytes
      written to [ciphertext], from [message], [nonce] and [key]. *)
  crypto_secretbox_easy : list byte → list byte → list byte → list byte;
  (** [crypto_secretbox_open_easy(message, ciphertext, nonce, key)]: from
      [ciphertext], [nonce] and [key], the bytes written to [message] when
      it returns [true], [None] when it returns [false]. *)
  crypto_secretbox_open_easy :
    list byte → list byte → list byte → option (list byte);
  (** The byte [sodium_malloc] fills fresh memory with. *)
  sodium_malloc_fill : byte;
  (** The [secure] property of the buffer [sodium_malloc] returns. *)
  sodium_malloc_secure : bool;
  (** [Buffer.from(JSON.parse(text))] on text that is not a canonical byte
      array; [None] when either call throws. *)
  Buffer_from_JSON_parse_other : string → option (list byte);
  (** [Bun.env.npm_package_version] *)
  npm_package_version : option string;
  (** [`${Math.round(Date.now() / 1000)}`] *)
  now : string;
}.

(** ** The object and its state *)

Inductive ProtectionState := NoAccess | ReadOnly | ReadWrite.

(** The buffer behind [this.sk]: its content and what [sodium_mprotect_*]
    last set. *)
Record SecureBuffer := {
  sb_bytes : list byte;
  sb_state : ProtectionState;
}.

(** A message of [worker.postMessage], by its [action]. *)
Inductive Message :=
  | STARTUP (path : string)
  | SET (key value : string)
  | DEL (key : string)
  | SHUTDOWN.

(** What a property read or a method hands back. [JObject name] is the
    member [name] of [Object.prototype]. *)
Inductive JsValue :=
  | JUndefined
  | JNull
  | JString (s : string)
  | JObject (name : string).

(** The errors of the four [throw new Error(...)] and, as one case, an
    exception the runtime raises itself (RangeError, SyntaxError,
    TypeError). *)
Inductive Error :=
  | FatalSecurityError  (* 'Failed to secure memory for secret key. ...' *)
  | ConfigurationError  (* 'Configuration error, an encryption key was ...' *)
  | WrongKeyError       (* 'Decryption error, the provided encryption key
                           is not correct.' *)
  | DecryptionError     (* 'Unable to decrypt a value, has the encryption
                           key changed?' *)
  | RuntimeError.

(** [this]. [kv] holds the own properties of the object [this.kv];
    [worker] holds the messages posted so far, oldest first, and is [None]
    while [this.worker] is undefined; [sk] is [None] while [this.sk] is
    undefined; [secure] is [false] also while [this._secure] is
    undefined. *)
Record HareDB := {
  kv : gmap string string;
  worker : option (list Message);
  sk : option SecureBuffer;
  secure : bool;
}.

(** The two tables of the SQLite file, each with a text primary key. *)
Record Database := {
  meta : gmap string string;
  key_value : gmap string string;
}.

(** The files by path. *)
Abbreviation Disk := (gmap string Database).

(** ** Completions and the state monad of the methods *)

(** [Crash] is the process dying on an access to protected memory. *)
Inductive Completion (A : Type) :=
  | Normal (a : A)
  | Throw (e : Error)
  | Crash.
Arguments Normal {A} a.
Arguments Throw {A} e.
Arguments Crash {A}.

Definition M (St A : Type) : Type := St → Completion A * St.

Definition ret {St A} (a : A) : M St A := λ st, (Normal a, st).

Definition bind {St A B} (m : M St A) (f : A → M St B) : M St B :=
  λ st,
    match m st with
    | (Normal a, st') => f a st'
    | (Throw e, st') => (Throw e, st')
    | (Crash, st') => (Crash, st')
    end.

Definition throw {St A} (e : Error) : M St A := λ st, (Throw e, st).

Definition crash {St A} : M St A := λ st, (Crash, st).

Definition gets {St A} (f : St → A) : M St A := λ st, (Normal (f st), st).

Definition modify {St} (f : St → St) : M St unit := λ st, (Normal tt, f st).

(** [try { m } catch (error) { handler }] *)
Definition try_catch {St A} (m : M St A) (handler : M St A) : M St A :=
  λ st,
    match m st with
    | (Throw _, st') => handler st'
    | r => r
    end.

Declare Scope js_scope.
Delimit Scope js_scope with js.
Notation "x ← m ; k" := (bind m (λ x, k))
  (at level 20, m at level 100, k at level 200, only parsing) : js_scope.
Notation "m ;; k" := (bind m (λ _, k))
  (at level 100, k at level 200, right associativity) : js_scope.

Local Open Scope js_scope.

(** ** Strings and UTF-8 *)

Module Utf8.

Definition between (lo hi : nat) (b : byte) : bool :=
  (lo <=? Byte.to_nat b) && (Byte.to_nat b <=? hi).

(** A continuation byte, 80..BF. *)
Definition continuation (b : byte) : bool := between 128 191 b.

(** The number of bytes of the sequence that the byte [b1] starts: 1 for
    00..7F, 2 for C2..DF, 3 for E0..EF, 4 for F0..F4; 0 for a byte that
    starts none. *)
Definition width (b1 : byte) : nat :=
  if between 0 127 b1 then 1
  else if between 194 223 b1 then 2
  else if between 224 239 b1 then 3
  else if between 240 244 b1 then 4
  else 0.

(** The second byte of a sequence of three or four bytes after [b1]: after
    E0 not below A0 and after F0 not below 90 (no overlong form), after ED
    not above 9F (no surrogate), after F4 not above 8F (no code point
    beyond U+10FFFF). *)
Definition second (b1 b2 : byte) : bool :=
  if Byte.eqb b1 xe0 then between 160 191 b2
  else if Byte.eqb b1 xed then between 128 159 b2
  else if Byte.eqb b1 xf0 then between 144 191 b2
  else if Byte.eqb b1 xf4 then between 128 143 b2
  else continuation b2.

(** The bytes are UTF-8: the encoding of a sequence of Unicode scalar
    values. *)
Fixpoint valid (bs : list byte) : bool :=
  match bs with
  | [] => true
  | b1 :: t1 =>
      match width b1 with
      | 1 => valid t1
      | 2 =>
          match t1 with
          | b2 :: t2 => continuation b2 && valid t2
          | _ => false
          end
      | 3 =>
          match t1 with
          | b2 :: b3 :: t3 => second b1 b2 && continuation b3 && valid t3
          | _ => false
          end
      | 4 =>
          match t1 with
          | b2 :: b3 :: b4 :: t4 =>
              second b1 b2 && continuation b3 && continuation b4 && valid t4
          | _ => false
          end
      | _ => false
      end
  end.

(** U+FFFD, the replacement character. *)
Definition replacement : list byte := [xef; xbf; xbd].

(** The bytes ED A0..BF 80..BF of an unpaired surrogate. *)
Definition surrogate (b1 b2 b3 : byte) : bool :=
  Byte.eqb b1 xed && between 160 191 b2 && continuation b3.

(** The UTF-8 a string is written in: the string itself, with U+FFFD for
    every unpaired surrogate. *)
Fixpoint encode (bs : list byte) : list byte :=
  match bs with
  | [] => []
  | b1 :: t1 =>
      match t1 with
      | b2 :: b3 :: t3 =>
          if surrogate b1 b2 b3 then replacement ++ encode t3
          else b1 :: encode t1
      | _ => b1 :: encode t1
      end
  end.

(** The string that bytes are read as: a sequence that is UTF-8 as it
    stands; U+FFFD for a byte that starts no sequence and for the bytes of
    a sequence up to the first byte that does not continue it, where
    reading starts again. *)
Fixpoint decode (bs : list byte) : list byte :=
  match bs with
  | [] => []
  | b1 :: t1 =>
      match width b1 with
      | 1 => b1 :: decode t1
      | 2 =>
          match t1 with
          | b2 :: t2 =>
              if continuation b2 then b1 :: b2 :: decode t2
              else replacement ++ decode t1
          | [] => replacement
          end
      | 3 =>
          match t1 with
          | b2 :: t2 =>
              if second b1 b2 then
                match t2 with
                | b3 :: t3 =>
                    if continuation b3 then b1 :: b2 :: b3 :: decode t3
                    else replacement ++ decode t2
                | [] => replacement
                end
              else replacement ++ decode t1
          | [] => replacement
          end
      | 4 =>
          match t1 with
          | b2 :: t2 =>
              if second b1 b2 then
                match t2 with
                | b3 :: t3 =>
                    if continuation b3 then
                      match t3 with
                      | b4 :: t4 =>
                          if continuation b4
                          then b1 :: b2 :: b3 :: b4 :: decode t4
                          else replacement ++ decode t3
                      | [] => replacement
                      end
                    else replacement ++ decode t2
                | [] => replacement
                end
              else replacement ++ decode t1
          | [] => replacement
          end
      | _ => replacement ++ decode t1
      end
  end.

End Utf8.

(** ** Buffers *)

(** [Buffer.from(text)] *)
Definition Buffer_from (text : string) : list byte :=
  Utf8.encode (list_byte_of_string text).

(** [buffer.toString()] *)
Definition Buffer_toString (buffer : list byte) : string :=
  string_of_list_byte (Utf8.decode buffer).

(** [Buffer.alloc(size)] *)
Definition Buffer_alloc (size : nat) : list byte := replicate size x00.

(** [target.set(source)] of a typed array: the prefix of [target] is
    overwritten; [None] is the RangeError for a source that does not fit. *)
Definition TypedArray_set (target source : list byte) : option (list byte) :=
  if decide (length source ≤ length target)
  then Some (source ++ drop (length source) target)
  else None.

(** ** The object [this.kv]

    [this.kv = {}] is an ordinary object: the [in] operator and a property
    read also see the members of [Object.prototype], and an assignment to
    [__proto__] runs the inherited setter, which ignores a string. *)

Definition Object_prototype : list string :=
  [ "constructor"; "__defineGetter__"; "__defineSetter__"; "hasOwnProperty";
    "__lookupGetter__"; "__lookupSetter__"; "isPrototypeOf";
    "propertyIsEnumerable"; "toString"; "valueOf"; "__proto__";
    "toLocaleString" ].

Definition inherited (key : string) : bool :=
  bool_decide (key ∈ Object_prototype).

(** [key in object] *)
Definition has_property (key : string) (object : gmap string string) : bool :=
  bool_decide (is_Some (object !! key)) || inherited key.

(** [object[key]] *)
Definition read_property (key : string) (object : gmap string string) : JsValue :=
  match object !! key with
  | Some value => JString value
  | None => if inherited key then JObject key else JUndefined
  end.

(** [object[key] = value] for a string [value] *)
Definition assign_property (key value : string) (object : gmap string string)
  : gmap string string :=
  if decide (key = "__proto__") then object else <[key := value]> object.

(** [delete object[key]] *)
Definition delete_property (key : string) (object : gmap string string)
  : gmap string string :=
  delete key object.

(** The truth value of [value] in a condition. *)
Definition truthy (value : JsValue) : bool :=
  match value with
  | JUndefined | JNull => false
  | JString s => negb (String.eqb s "")
  | JObject _ => true
  end.

(** ** The secret-key buffer *)

Definition with_sk (f : SecureBuffer → SecureBuffer) (this : HareDB) : HareDB :=
  {| kv := kv this; worker := worker this; sk := f <$> sk this;
     secure := secure this |}.

(** [sodium_mprotect_*(this.sk)]; a TypeError while [this.sk] is
    undefined. *)
Definition sodium_mprotect (state : ProtectionState) : M HareDB unit :=
  λ this,
    match sk this with
    | Some _ =>
        (Normal tt,
         with_sk (λ buffer, {| sb_bytes := sb_bytes buffer; sb_state := state |}) this)
    | None => (Throw RuntimeError, this)
    end.

Definition sodium_mprotect_noaccess : M HareDB unit := sodium_mprotect NoAccess.
Definition sodium_mprotect_readonly : M HareDB unit := sodium_mprotect ReadOnly.
Definition sodium_mprotect_readwrite : M HareDB unit := sodium_mprotect ReadWrite.

(** A native call reading [this.sk]: the process dies when the memory is
    not readable. *)
Definition read_sk : M HareDB (list byte) :=
  λ this,
    match sk this with
    | Some buffer =>
        match sb_state buffer with
        | NoAccess => (Crash, this)
        | ReadOnly | ReadWrite => (Normal (sb_bytes buffer), this)
        end
    | None => (Throw RuntimeError, this)
    end.

(** A write of [bytes] over [this.sk]: the process dies when the memory is
    not writable. *)
Definition write_sk (bytes : list byte) : M HareDB unit :=
  λ this,
    match sk this with
    | Some buffer =>
        match sb_state buffer with
        | ReadWrite =>
            (Normal tt,
             with_sk (λ _, {| sb_bytes := bytes; sb_state := ReadWrite |}) this)
        | NoAccess | ReadOnly => (Crash, this)
        end
    | None => (Throw RuntimeError, this)
    end.

(** [sodium_munlock(this.sk)]: the memory is zeroed, then unlocked. *)
Definition sodium_munlock_sk : M HareDB unit :=
  bytes ← read_sk;
  write_sk (Buffer_alloc (length bytes)).

(** [this.worker.postMessage(message)]; a TypeError while [this.worker] is
    undefined. *)
Definition postMessage (message : Message) : M HareDB unit :=
  λ this,
    match worker this with
    | Some posted =>
        (Normal tt,
         {| kv := kv this; worker := Some (posted ++ [message]); sk := sk this;
            secure := secure this |})
    | None => (Throw RuntimeError, this)
    end.

Definition with_kv (f : gmap string string → gmap string string) (this : HareDB)
  : HareDB :=
  {| kv := f (kv this); worker := worker this; sk := sk this;
     secure := secure this |}.

(** [this.kv = object], [this.sk = buffer], [this.secure = value] and
    [this.worker = new Worker(...)], a worker with nothing posted yet. *)
Definition assign_kv (object : gmap string string) (this : HareDB) : HareDB :=
  with_kv (λ _, object) this.

Definition assign_sk (buffer : SecureBuffer) (this : HareDB) : HareDB :=
  {| kv := kv this; worker := worker this; sk := Some buffer;
     secure := secure this |}.

Definition assign_secure (value : bool) (this : HareDB) : HareDB :=
  {| kv := kv this; worker := worker this; sk := sk this; secure := value |}.

Definition new_Worker (this : HareDB) : HareDB :=
  {| kv := kv this; worker := Some []; sk := sk this; secure := secure this |}.

(** [sodium_malloc(size)]: fresh memory, readable and writable. *)
Definition sodium_malloc (fill : byte) (size : nat) : SecureBuffer :=
  {| sb_bytes := replicate size fill; sb_state := ReadWrite |}.

(** ** The engine: [class HareDB] *)

Section Engine.

Context (P : Platform).

(** [Buffer.from(JSON.parse(value))]; [None] when either call throws. *)
Definition Buffer_from_JSON_parse (value : string) : option (list byte) :=
  match Json.parse_canonical value with
  | Some bytes => Some bytes
  | None => Buffer_from_JSON_parse_other P value
  end.

(** [private encrypt(value: string): string] *)
Definition encrypt (value : string) : M HareDB string :=
  let unencryptedBuffer := Buffer_from value in
  let nonce := Buffer_alloc (crypto_secretbox_NONCEBYTES P) in
  sodium_mprotect_readonly;;
  key ← read_sk;
  let encryptedBuffer := crypto_secretbox_easy P unencryptedBuffer nonce key in
  sodium_mprotect_noaccess;;
  ret (Json.stringify encryptedBuffer).

(** [private decrypt(value: string): string]. [Buffer.alloc] raises a
    RangeError for a negative size. *)
Definition decrypt (value : string) : M HareDB string :=
  match Buffer_from_JSON_parse value with
  | None => throw RuntimeError
  | Some encrypted =>
      if decide (length encrypted < crypto_secretbox_MACBYTES P)
      then throw RuntimeError
      else
        sodium_mprotect_readonly;;
        key ← read_sk;
        let success :=
          crypto_secretbox_open_easy P encrypted
            (Buffer_alloc (crypto_secretbox_NONCEBYTES P)) key in
        sodium_mprotect_noaccess;;
        match success with
        | Some decrypted => ret (Buffer_toString decrypted)
        | None => throw DecryptionError
        end
  end.

(** [this.decrypt(value)] for what a property read returned: text other
    than a string is no JSON. *)
Definition decrypt_value (value : JsValue) : M HareDB JsValue :=
  match value with
  | JString text => plain ← decrypt text; ret (JString plain)
  | _ => throw RuntimeError
  end.

(** [public set(key: string, value: string): boolean] *)
Definition set (key value : string) : M HareDB bool :=
  secure_mode ← gets secure;
  key ← (if secure_mode : bool then encrypt key else ret key);
  value ← (if secure_mode : bool then encrypt value else ret value);
  exists_ ← gets (λ this, has_property key (kv this));
  modify (with_kv (assign_property key value));;
  postMessage (SET key value);;
  ret exists_.

(** [public get(key: string): string | null] *)
Definition get (key : string) : M HareDB JsValue :=
  secure_mode ← gets secure;
  key ← (if secure_mode : bool then encrypt key else ret key);
  value ← gets (λ this, read_property key (kv this));
  if truthy value && secure_mode then decrypt_value value
  else if truthy value then ret value
  else ret JNull.

(** [public del(key: string): boolean] *)
Definition del (key : string) : M HareDB bool :=
  secure_mode ← gets secure;
  key ← (if secure_mode : bool then encrypt key else ret key);
  exists_ ← gets (λ this, has_property key (kv this));
  (if exists_ : bool then
     modify (with_kv (delete_property key));;
     postMessage (DEL key)
   else ret tt);;
  ret exists_.

(** [public close(): void] *)
Definition close : M HareDB unit :=
  worker_ ← gets worker;
  (if worker_ is Some _ then postMessage SHUTDOWN else ret tt);;
  secure_mode ← gets secure;
  if secure_mode : bool then
    sodium_mprotect_readwrite;;
    sodium_munlock_sk
  else ret tt.

(** *** The constructor *)

(** The object under construction and the files. *)
Record World := {
  this : HareDB;
  disk : Disk;
}.

Definition on_this {A} (m : M HareDB A) : M World A :=
  λ w,
    let '(c, this') := m (this w) in
    (c, {| this := this'; disk := disk w |}).

(** The file at [path] as a connection sees it; a missing file reads as
    one with both tables empty. *)
Definition open_database (files : Disk) (path : string) : Database :=
  default {| meta := ∅; key_value := ∅ |} (files !! path).

(** A statement that writes, on the connection to [path]. *)
Definition run (path : string) (statement : Database → Database) : M World unit :=
  modify (λ w,
    {| this := this w;
       disk := <[path := statement (open_database (disk w) path)]> (disk w) |}).

(** A statement that reads, on the connection to [path]. *)
Definition query {A} (path : string) (statement : Database → A) : M World A :=
  gets (λ w, statement (open_database (disk w) path)).

(** [INSERT OR IGNORE INTO table (key, value) VALUES (key, value)] *)
Definition insert_or_ignore (key value : string) (table : gmap string string)
  : gmap string string :=
  match table !! key with
  | Some _ => table
  | None => <[key := value]> table
  end.

Definition on_meta (f : gmap string string → gmap string string) (d : Database)
  : Database :=
  {| meta := f (meta d); key_value := key_value d |}.

Definition on_key_value (f : gmap string string → gmap string string)
    (d : Database) : Database :=
  {| meta := meta d; key_value := f (key_value d) |}.

(** [`${this.secure}`] *)
Definition bool_text (b : bool) : string := if b then "true" else "false".

(** [constructor(dbPath: string, secretKey?: string)]. The handler for
    the process's ['exit'] event is not part of the model. *)
Definition constructor (dbPath : string) (secretKey : option string)
  : M World unit :=
  (match secretKey with
   | Some (String _ _ as secretKey) =>
       let unsafeSk := Buffer_from secretKey in
       on_this (modify (assign_sk
         (sodium_malloc (sodium_malloc_fill P) (crypto_secretbox_KEYBYTES P))));;
       allocated ← on_this read_sk;
       (match TypedArray_set allocated unsafeSk with
        | Some bytes => on_this (write_sk bytes)
        | None => throw RuntimeError
        end);;
       on_this sodium_mprotect_noaccess;;
       (if sodium_malloc_secure P then ret tt
        else on_this close;; throw FatalSecurityError);;
       on_this (modify (assign_secure true))
   | _ => on_this (modify (assign_secure false))
   end);;
  on_this (modify (assign_kv ∅));;
  secure_mode ← on_this (gets secure);
  run dbPath (λ d, d);;
  run dbPath (on_meta (λ table,
    insert_or_ignore "create_time" (now P)
      (insert_or_ignore "secure" (bool_text secure_mode)
        (insert_or_ignore "version" (default "0.0.0" (npm_package_version P))
          (insert_or_ignore "create_language" "ts_bun" table)))));;
  recorded ← query dbPath (λ d, meta d !! "secure");
  (match recorded with
   | Some value =>
       if Bool.eqb secure_mode (String.eqb value "true") then ret tt
       else throw ConfigurationError
   | None => throw RuntimeError
   end);;
  (if secure_mode : bool then
     test ← on_this (encrypt "ENCRYPTED TEXT");
     run dbPath (on_meta (insert_or_ignore "secure_test_string" test));;
     try_catch
       (stored ← query dbPath (λ d, meta d !! "secure_test_string");
        match stored with
        | Some value => on_this (decrypt value);; ret tt
        | None => throw RuntimeError
        end)
       (throw WrongKeyError)
   else ret tt);;
  rows ← query dbPath (λ d, map_to_list (key_value d));
  on_this (modify (with_kv (λ object,
    foldl (λ object row, assign_property row.1 row.2 object) object rows)));;
  on_this (modify new_Worker);;
  on_this (postMessage (STARTUP dbPath)).

(** [this] before the constructor has assigned anything. *)
Definition undefined_this : HareDB :=
  {| kv := ∅; worker := None; sk := None; secure := false |}.

(** [new HareDB(dbPath, secretKey)] on the files [files]: how the
    constructor completed, the object as it was then, and the files. *)
Definition new_HareDB (files : Disk) (dbPath : string) (secretKey : option string)
  : Completion unit * World :=
  constructor dbPath secretKey {| this := undefined_this; disk := files |}.

End Engine.

(** [process.exit(code)]: the process ends there; the one completion of
    a process that has ended is [Crash]. *)
Definition process_exit {St A} : M St A := crash.

(** ** The older engine, without the worker

    Its methods and its constructor, to set the present ones against:
    that engine kept its own connection [this.db], wrote to the file
    inside the call and always ran with a secret key. *)

Module Older.

(** [public get(key: string): string | null] of the older engine, whose
    connection is on [dbPath]. *)
Definition get (P : Platform) (dbPath : string) (key : string) : M World JsValue :=
  key ← on_this (encrypt P key);
  fromKv ← on_this (gets (λ this, read_property key (kv this)));
  if truthy fromKv then on_this (decrypt_value P fromKv)
  else
    fromDb ← query dbPath (λ d, key_value d !! key);
    match fromDb with
    | Some value =>
        on_this (modify (with_kv (assign_property key value)));;
        plain ← on_this (decrypt P value);
        ret (JString plain)
    | None => ret JNull
    end.

(** [public set(key: string, value: string): void] of the older engine:
    the row is written on the engine's own connection before [set]
    returns. *)
Definition set (P : Platform) (dbPath : string) (key value : string)
  : M World unit :=
  key ← on_this (encrypt P key);
  value ← on_this (encrypt P value);
  on_this (modify (with_kv (assign_property key value)));;
  run dbPath (on_key_value (λ table, <[key := value]> table)).

(** [typeof value !== 'undefined'] *)
Definition defined (value : JsValue) : bool :=
  match value with
  | JUndefined => false
  | _ => true
  end.

(** [public del(key: string): boolean] of the older engine. The [||] runs
    the [DELETE] only when the key was not in memory; [changes] is the
    number of rows it removed. *)
Definition del (P : Platform) (dbPath : string) (key : string) : M World bool :=
  key ← on_this (encrypt P key);
  inMemory ← on_this (gets (λ this, defined (read_property key (kv this))));
  (if inMemory : bool
   then on_this (modify (with_kv (delete_property key)))
   else ret tt);;
  if inMemory : bool then ret true
  else
    changes ← query dbPath (λ d, if key_value d !! key is Some _ then 1 else 0);
    run dbPath (on_key_value (λ table, delete key table));;
    ret (0 <? changes).

(** [public close(): void] of the older engine; [this.db.close()] leaves
    the file as it is. *)
Definition close : M HareDB unit :=
  sodium_mprotect_readwrite;;
  sodium_munlock_sk.

(** [constructor(dbPath: string, secretKey: string)] of the older engine:
    the rows are loaded first, then the secret key is put away; nothing
    checks the key against the rows. *)
Definition constructor (P : Platform) (dbPath secretKey : string) : M World unit :=
  on_this (modify (assign_kv ∅));;
  run dbPath (λ d, d);;
  rows ← query dbPath (λ d, map_to_list (key_value d));
  on_this (modify (with_kv (λ object,
    foldl (λ object row, assign_property row.1 row.2 object) object rows)));;
  let unsafeSk := Buffer_from secretKey in
  on_this (modify (assign_sk
    (sodium_malloc (sodium_malloc_fill P) (crypto_secretbox_KEYBYTES P))));;
  allocated ← on_this read_sk;
  (match TypedArray_set allocated unsafeSk with
   | Some bytes => on_this (write_sk bytes)
   | None => throw RuntimeError
   end);;
  on_this sodium_mprotect_noaccess;;
  if sodium_malloc_secure P then ret tt
  else on_this close;; process_exit.

(** [new HareDB(dbPath, secretKey)] of the older engine on the files
    [files]. *)
Definition new_HareDB (P : Platform) (files : Disk) (dbPath secretKey : string)
  : Completion unit * World :=
  constructor P dbPath secretKey {| this := undefined_this; disk := files |}.

End Older.

(** ** The engine between the two: the worker, but no [meta] table

    Its [encrypt], [decrypt], [set], [get] and [del] are those of the
    present engine, word for word; its constructor and its [close]
    differ. *)

Module Middle.

(** [public close(): void], without the guards of the present one. *)
Definition close : M HareDB unit :=
  postMessage SHUTDOWN;;
  sodium_mprotect_readwrite;;
  sodium_munlock_sk.

(** [constructor(dbPath: string, secretKey?: string)]: nothing records
    or checks the mode or the key. The table [config], which nothing reads
    or writes, is not part of the model. *)
Definition constructor (P : Platform) (dbPath : string) (secretKey : option string)
  : M World unit :=
  (match secretKey with
   | Some (String _ _ as secretKey) =>
       let unsafeSk := Buffer_from secretKey in
       on_this (modify (assign_sk
         (sodium_malloc (sodium_malloc_fill P) (crypto_secretbox_KEYBYTES P))));;
       allocated ← on_this read_sk;
       (match TypedArray_set allocated unsafeSk with
        | Some bytes => on_this (write_sk bytes)
        | None => throw RuntimeError
        end);;
       on_this sodium_mprotect_noaccess;;
       on_this (modify (assign_secure true));;
       if sodium_malloc_secure P then ret tt
       else on_this close;; process_exit
   | _ => ret tt
   end);;
  on_this (modify (assign_kv ∅));;
  run dbPath (λ d, d);;
  rows ← query dbPath (λ d, map_to_list (key_value d));
  on_this (modify (with_kv (λ object,
    foldl (λ object row, assign_property row.1 row.2 object) object rows)));;
  on_this (modify new_Worker);;
  on_this (postMessage (STARTUP dbPath)).

Definition new_HareDB (P : Platform) (files : Disk) (dbPath : string)
    (secretKey : option string) : Completion unit * World :=
  constructor P dbPath secretKey {| this := undefined_this; disk := files |}.

End Middle.

(** ** The worker: [dbworker.ts] *)

(** The module variable [db], as the path it is connected to, and whether
    [process.exit()] has run. *)
Record WorkerState := {
  db : option string;
  exited : bool;
}.

(** [self.onmessage]. A statement or [close] on an undefined [db] is a
    TypeError that nothing catches: the worker ends there. The
    ['..._DONE'] replies have no listener. *)
Definition onmessage (message : Message) (state : WorkerState * Disk)
  : WorkerState * Disk :=
  let '(w, files) := state in
  if exited w then state
  else
    match message with
    | STARTUP path =>
        ({| db := Some path; exited := false |},
         <[path := open_database files path]> files)
    | SET key value =>
        match db w with
        | Some path =>
            (w, <[path := on_key_value (λ table, <[key := value]> table)
                             (open_database files path)]> files)
        | None => ({| db := None; exited := true |}, files)
        end
    | DEL key =>
        match db w with
        | Some path =>
            (w, <[path := on_key_value (λ table, delete key table)
                             (open_database files path)]> files)
        | None => ({| db := None; exited := true |}, files)
        end
    | SHUTDOWN =>
        match db w with
        | Some path => ({| db := db w; exited := true |}, files)
        | None => ({| db := None; exited := true |}, files)
        end
    end.

(** A new worker receiving [messages] in the order they were posted. *)
Definition run_worker (messages : list Message) (files : Disk) : Disk :=
  (foldl (λ state message, onmessage message state)
     ({| db := None; exited := false |}, files) messages).2.

(** ** The HTTP server: [index.ts]

    The hook and the handlers of the four routes, as functions of the
    engine [db] the module constructs. Elysia, which calls them, is
    outside the repository: [handle] states the one rule of its life
    cycle that the module relies on. *)

Module Server.

(** What the hook or a handler hands back to Elysia. *)
Inductive Reply :=
  | Returned (value : JsValue)   (* [return value] *)
  | error (status : nat)         (* [return error(status)] *)
  | redirect (url : string)      (* [return redirect(url)] *)
  | set_status (status : nat)    (* nothing returned, after [set.status = status] *)
  | undefined.                   (* nothing returned, [set.status] as it was *)

(** [request.url] and [headers.authorization]. *)
Record Request := {
  url : string;
  authorization : option string;
}.

(** The variables of [Bun.env] the module reads. *)
Record Env := {
  NODE_ENV : option string;
  HAREDB_API_KEY : option string;
  HAREDB_SECRET_KEY : option string;
  HAREDB_PATH : option string;
}.

(** [text.replace(pattern, replacement)] on strings: the first occurrence
    of [pattern]; [replacement] holds no [$]. *)
Fixpoint replace (pattern replacement text : string) : string :=
  if String.prefix pattern text
  then replacement
       +:+ String.substring (String.length pattern)
             (String.length text - String.length pattern) text
  else
    match text with
    | "" => ""
    | String c text' => String c (replace pattern replacement text')
    end.

(** [.onBeforeHandle(({ headers, request }) => ...)] *)
Definition onBeforeHandle (env : Env) (request : Request) : Reply :=
  if negb (String.prefix "https" (url request))
     && negb (bool_decide (NODE_ENV env = Some "dev"))
  then redirect (replace "http" "https" (url request))
  else if negb (bool_decide (authorization request = HAREDB_API_KEY env))
  then error 401
  else undefined.

Section Routes.

Context (P : Platform).

(** The module's start, up to [const db = new HareDB(...)]; [None] is the
    [throw] for a [HAREDB_SECRET_KEY] that is not set. *)
Definition start (env : Env) (files : Disk) : option (Completion unit * World) :=
  match HAREDB_SECRET_KEY env with
  | None => None
  | Some secretKey =>
      Some (new_HareDB P files
              (default "hdb_persistence.sqlite" (HAREDB_PATH env))
              (Some secretKey))
  end.

(** [.get('/:key', ...)] *)
Definition get_key (key : string) : M HareDB Reply :=
  try_catch
    (value ← get P key;
     match value with
     | JNull | JUndefined => ret (error 404)
     | _ => ret (Returned value)
     end)
    (ret (error 500)).

(** [.get('/:key/:value', ...)] *)
Definition get_key_value (key value : string) : M HareDB Reply :=
  try_catch
    (existed ← set P key value;
     if existed : bool then ret (set_status 204) else ret (set_status 201))
    (ret (error 500)).

(** [.post('/:key', ...)], with the string [body] *)
Definition post_key (key body : string) : M HareDB Reply :=
  try_catch
    (existed ← set P key body;
     if existed : bool then ret (set_status 204) else ret (set_status 201))
    (ret (error 500)).

(** [.delete('/:key', ...)] *)
Definition delete_key (key : string) : M HareDB Reply :=
  try_catch
    (existed ← del P key;
     if existed : bool then ret (set_status 204) else ret (error 404))
    (ret (error 500)).

(** The route a request was matched to, with its parameters. *)
Inductive Route :=
  | GET_key (key : string)
  | GET_key_value (key value : string)
  | POST_key (key body : string)
  | DELETE_key (key : string).

Definition handler (route : Route) : M HareDB Reply :=
  match route with
  | GET_key key => get_key key
  | GET_key_value key value => get_key_value key value
  | POST_key key body => post_key key body
  | DELETE_key key => delete_key key
  end.

(** One request: Elysia calls the hook and, only when the hook returned
    nothing, the handler of the route. *)
Definition handle (env : Env) (request : Request) (route : Route)
  : M HareDB Reply :=
  match onBeforeHandle env request with
  | undefined => handler route
  | reply => ret reply
  end.

End Routes.

End Server.

(** ** A small platform on which the engine runs *)

Module Toy.

(** The sum of the bytes of the message. *)
Definition checksum (message : list byte) : nat :=
  foldr (λ b n, Byte.to_nat b + n) 0 message.

(** A sixteen-byte tag: the checksum of the message, then the key. *)
Definition tag (message key : list byte) : list byte :=
  take 16
    (default x00 (Byte.of_nat (checksum message mod 256))
       :: key ++ replicate 16 x00).

(** Tag, then the message as it is: authenticated, not secret. *)
Definition easy (message nonce key : list byte) : list byte :=
  tag message key ++ message.

Definition open_easy (ciphertext nonce key : list byte) : option (list byte) :=
  if decide (16 ≤ length ciphertext
             ∧ take 16 ciphertext = tag (drop 16 ciphertext) key)
  then Some (drop 16 ciphertext)
  else None.

Definition platform : Platform :=
  {| crypto_secretbox_KEYBYTES := 32;
     crypto_secretbox_MACBYTES := 16;
     crypto_secretbox_NONCEBYTES := 24;
     crypto_secretbox_easy := easy;
     crypto_secretbox_open_easy := open_easy;
     sodium_malloc_fill := xdb;
     sodium_malloc_secure := true;
     Buffer_from_JSON_parse_other := λ _, None;
     npm_package_version := None;
     now := "0" |}.

(** The engine a first start with the secret key [secret] gives, and the
    one a first start without a key gives. *)
Definition secure_engine : HareDB :=
  this (new_HareDB platform ∅ "hdb_persistence.sqlite" (Some "secret")).2.

Definition insecure_engine : HareDB :=
  this (new_HareDB platform ∅ "hdb_persistence.sqlite" None).2.

(** The same platform on a machine where [sodium_malloc] returns memory
    that is not secured. *)
Definition unsecured : Platform :=
  {| crypto_secretbox_KEYBYTES := 32;
     crypto_secretbox_MACBYTES := 16;
     crypto_secretbox_NONCEBYTES := 24;
     crypto_secretbox_easy := easy;
     crypto_secretbox_open_easy := open_easy;
     sodium_malloc_fill := xdb;
     sodium_malloc_secure := false;
     Buffer_from_JSON_parse_other := λ _, None;
     npm_package_version := None;
     now := "0" |}.

End Toy.

(** ** Vocabulary of the statements *)

(** What [encrypt] returns for [value] when [this.sk] holds [key]: the
    JSON text of the secretbox of [value] under the all-zero nonce. *)
Definition ciphertext (P : Platform) (key : list byte) (value : string) : string :=
  Json.stringify
    (crypto_secretbox_easy P (Buffer_from value)
       (Buffer_alloc (crypto_secretbox_NONCEBYTES P)) key).

(** What [this.sk] holds once the constructor has copied [secretKey] into
    the memory from [sodium_malloc]. *)
Definition key_bytes (P : Platform) (secretKey : string) : list byte :=
  Buffer_from secretKey
  ++ drop (length (Buffer_from secretKey))
       (replicate (crypto_secretbox_KEYBYTES P) (sodium_malloc_fill P)).

(** The secret key [key], of the primitive's key length, is in [this.sk]
    with all access revoked, and the engine runs in secure mode. *)
Definition secured (P : Platform) (key : list byte) (this : HareDB) : Prop :=
  sk this = Some {| sb_bytes := key; sb_state := NoAccess |}
  ∧ length key = crypto_secretbox_KEYBYTES P
  ∧ secure this = true.

(** The contract of the primitive: a secretbox has the length of
    the message and the tag, and opens under the nonce and key that made
    it. *)
Definition secretbox_opens (P : Platform) : Prop :=
  ∀ message nonce key,
    length nonce = crypto_secretbox_NONCEBYTES P →
    length key = crypto_secretbox_KEYBYTES P →
    length (crypto_secretbox_easy P message nonce key)
      = length message + crypto_secretbox_MACBYTES P
    ∧ crypto_secretbox_open_easy P
        (crypto_secretbox_easy P message nonce key) nonce key
      = Some message.

(** How [decrypt] completes for [value] when [this.sk] holds [key]. *)
Definition decrypt_outcome (P : Platform) (key : list byte) (value : string)
  : Completion string :=
  match Buffer_from_JSON_parse P value with
  | None => Throw RuntimeError
  | Some encrypted =>
      if decide (length encrypted < crypto_secretbox_MACBYTES P)
      then Throw RuntimeError
      else
        match crypto_secretbox_open_easy P encrypted
                (Buffer_alloc (crypto_secretbox_NONCEBYTES P)) key with
        | Some decrypted => Normal (Buffer_toString decrypted)
        | None => Throw DecryptionError
        end
  end.

(** The [meta] table after the constructor's first [INSERT OR IGNORE]. *)
Definition startup_meta (P : Platform) (secure_mode : bool)
    (table : gmap string string) : gmap string string :=
  insert_or_ignore "create_time" (now P)
    (insert_or_ignore "secure" (bool_text secure_mode)
      (insert_or_ignore "version" (default "0.0.0" (npm_package_version P))
        (insert_or_ignore "create_language" "ts_bun" table))).

(** The object [this.kv] after the constructor has assigned the rows of
    [table] to the empty object. *)
Definition load (table : gmap string string) : gmap string string :=
  foldl (λ object row, assign_property row.1 row.2 object) ∅ (map_to_list table).

(** [altered] is [original] with the byte at one position replaced by a
    different byte. *)
Definition one_byte_altered (original altered : list byte) : Prop :=
  ∃ (i : nat) (b b' : byte),
    original !! i = Some b ∧ b' ≠ b ∧ altered = <[i := b']> original.

(** The calls of the public contract, to speak of sequences of them. *)
Inductive Call :=
  | CallSet (key value : string)
  | CallGet (key : string)
  | CallDel (key : string).

(** One call, whatever it returns or throws, and the object after it. *)
Definition call (P : Platform) (c : Call) (this : HareDB) : HareDB :=
  match c with
  | CallSet key value => (set P key value this).2
  | CallGet key => (get P key this).2
  | CallDel key => (del P key this).2
  end.

Definition calls (P : Platform) (cs : list Call) (this : HareDB) : HareDB :=
  foldl (λ this c, call P c this) this cs.

(** The state of the protection of [this.sk]. *)
Definition protection (this : HareDB) : option ProtectionState :=
  sb_state <$> sk this.

(** [this] once [sodium_mprotect_noaccess(this.sk)] has run. *)
Definition revoke (this : HareDB) : HareDB :=
  with_sk (λ buffer, {| sb_bytes := sb_bytes buffer; sb_state := NoAccess |}) this.

(** The text under which the engine holds [text] in [this.kv] and on
    disk: its ciphertext in secure mode, itself otherwise. *)
Definition at_rest (P : Platform) (this : HareDB) (text : string) : string :=
  if secure this
  then ciphertext P (default [] (sb_bytes <$> sk this)) text
  else text.

(** Between two calls: in secure mode all access to [this.sk] is
    revoked. *)
Definition ready (this : HareDB) : Prop :=
  secure this = true → protection this = Some NoAccess.

(** From an object that satisfies [Q], the method [m] ends, however it
    completes, in an object that satisfies [Q]. *)
Definition leaves {A} (Q : HareDB → Prop) (m : M HareDB A) : Prop :=
  ∀ this, Q this → Q (m this).2.

(** All access to [this.sk] is revoked. *)
Definition revoked (this : HareDB) : Prop := protection this = Some NoAccess.

(** The index is [index] and the messages posted to the worker are
    [posted]. *)
Definition same_index (index : gmap string string)
    (posted : option (list Message)) (this : HareDB) : Prop :=
  kv this = index ∧ worker this = posted.

(** The mode a [secretKey] argument asks for: [if (secretKey)]. *)
Definition requested (secretKey : option string) : bool :=
  match secretKey with
  | Some (String _ _) => true
  | _ => false
  end.

(** The key material is no longer than the primitive's key. *)
Definition fits (P : Platform) (secretKey : option string) : Prop :=
  length (Buffer_from (default "" secretKey)) ≤ crypto_secretbox_KEYBYTES P.

#[global] Instance fits_dec P secretKey : Decision (fits P secretKey).
Proof. unfold fits. apply _. Defined.

(** The primitive does not authenticate [encrypted] under [key] and the
    engine's nonce. *)
Definition refuses (P : Platform) (encrypted key : list byte) : Prop :=
  crypto_secretbox_open_easy P encrypted
    (Buffer_alloc (crypto_secretbox_NONCEBYTES P)) key = None.

(** [path] names a file, not one of SQLite's private databases. *)
Definition names_file (path : string) : Prop := path ≠ "" ∧ path ≠ ":memory:".

(** [text] has no unpaired surrogate: it is modelled by its UTF-8. *)
Definition well_formed (text : string) : Prop :=
  Utf8.valid (list_byte_of_string text) = true.

#[global] Instance well_formed_dec text : Decision (well_formed text).
Proof. unfold well_formed. apply _. Defined.

(** The string of the one code unit D800, a surrogate without its pair,
    and the string of the one character U+FFFD. *)
Definition lone_surrogate : string := string_of_list_byte [xed; xa0; x80].

Definition replacement_character : string := string_of_list_byte Utf8.replacement.

(** The statement the worker runs on the table [key_value] for
    [message]. *)
Definition statement (message : Message) (table : gmap string string)
  : gmap string string :=
  match message with
  | SET key value => <[key := value]> table
  | DEL key => delete key table
  | STARTUP _ | SHUTDOWN => table
  end.

(** The table after the statements of [messages], in their order. *)
Definition replay (messages : list Message) (table : gmap string string)
  : gmap string string :=
  foldl (λ table message, statement message table) table messages.

(** [message] asks for a write to the table. *)
Definition is_write (message : Message) : Prop :=
  match message with
  | SET _ _ | DEL _ => True
  | STARTUP _ | SHUTDOWN => False
  end.

(** Every key and value that [message] carries is what [encrypt] returns
    under [key] for some text. *)
Definition sealed (P : Platform) (key : list byte) (message : Message) : Prop :=
  match message with
  | SET k v =>
      (∃ text, k = ciphertext P key text) ∧ (∃ text, v = ciphertext P key text)
  | DEL k => ∃ text, k = ciphertext P key text
  | STARTUP _ | SHUTDOWN => True
  end.

(** The call of the engine that the handler of [route] makes, without
    what it returns. *)
Definition engine_call (P : Platform) (route : Server.Route) : M HareDB unit :=
  match route with
  | Server.GET_key key => get P key;; ret tt
  | Server.GET_key_value key value => set P key value;; ret tt
  | Server.POST_key key body => set P key body;; ret tt
  | Server.DELETE_key key => del P key;; ret tt
  end.

(** The messages posted so far are [posted ++ more] for some [more]. *)
Definition posted_after (posted : list Message) (this : HareDB) : Prop :=
  ∃ more, worker this = Some (posted ++ more).

(** The ways the constructor on [path] can end, with the object and the
    files it leaves: thrown before the database is opened, at the key
    material or at the memory; thrown after the [meta] table was written,
    at the recorded mode or at the test string; or completed. *)
Inductive Started (files : Disk) (path : string) : Completion unit → World → Prop :=
  | Started_too_long buffer :
      Started files path (Throw RuntimeError)
        {| this := {| kv := ∅; worker := None; sk := Some buffer; secure := false |};
           disk := files |}
  | Started_unsecured buffer :
      sb_state buffer = NoAccess →
      Started files path (Throw FatalSecurityError)
        {| this := {| kv := ∅; worker := None; sk := Some buffer; secure := false |};
           disk := files |}
  | Started_refused e mode buffer table :
      (mode = true → ∃ key, buffer = Some {| sb_bytes := key; sb_state := NoAccess |}) →
      (mode = false → buffer = None) →
      Started files path e
        {| this := {| kv := ∅; worker := None; sk := buffer; secure := mode |};
           disk := <[path := {| meta := table;
                                key_value := key_value (open_database files path) |}]>
                     files |}
  | Started_ready mode buffer table :
      (mode = true → ∃ key, buffer = Some {| sb_bytes := key; sb_state := NoAccess |}) →
      (mode = false → buffer = None) →
      Started files path (Normal tt)
        {| this := {| kv := load (key_value (open_database files path));
                      worker := Some [STARTUP path]; sk := buffer; secure := mode |};
           disk := <[path := {| meta := table;
                                key_value := key_value (open_database files path) |}]>
                     files |}.

(** * Properties *)

(** ** The JSON text of a buffer *)

Section JsonFacts.

Import Json.

Lemma read_decimal (b : byte) (rest : string) (acc : list byte) :
  read_elements (decimal (Byte.to_nat b) +:+ rest) None acc
  = read_elements rest (Some (Byte.to_nat b)) acc.
Proof. destruct b; reflexivity. Qed.

Lemma append_cons (c : ascii) (s t : string) :
  String c s +:+ t = String c (s +:+ t).
Proof. reflexivity. Qed.

Lemma append_assoc (s t u : string) : (s +:+ t) +:+ u = s +:+ t +:+ u.
Proof.
  induction s as [|c s IH]; [reflexivity|].
  by rewrite !append_cons, IH.
Qed.

Lemma read_comma (n : nat) (b : byte) (rest : string) (acc : list byte) :
  Byte.of_nat n = Some b →
  read_elements (String "," rest) (Some n) acc = read_elements rest None (b :: acc).
Proof. intros Hn. cbn. by rewrite Hn. Qed.

Lemma read_bracket (n : nat) (b : byte) (acc : list byte) :
  Byte.of_nat n = Some b →
  read_elements "]" (Some n) acc = Some (rev (b :: acc)).
Proof. intros Hn. cbn. by rewrite Hn. Qed.

Lemma read_elements_elements (b : byte) (bs acc : list byte) :
  read_elements (elements (b :: bs) +:+ "]") None acc = Some (rev acc ++ b :: bs).
Proof.
  revert b acc. induction bs as [|b' bs IH]; intros b acc.
  - change (elements [b]) with (decimal (Byte.to_nat b)).
    rewrite read_decimal, (read_bracket _ b) by apply Byte.of_to_nat.
    reflexivity.
  - change (elements (b :: b' :: bs))
      with (decimal (Byte.to_nat b) +:+ String "," (elements (b' :: bs))).
    rewrite append_assoc, read_decimal.
    change (String "," (elements (b' :: bs)) +:+ "]")
      with (String "," (elements (b' :: bs) +:+ "]")).
    rewrite (read_comma _ b) by apply Byte.of_to_nat.
    rewrite IH. cbn [rev]. by rewrite <- app_assoc.
Qed.

Lemma parse_stringify (bs : list byte) : parse_canonical (stringify bs) = Some bs.
Proof.
  unfold parse_canonical, stringify.
  assert (read_elements (elements bs +:+ "]") None [] = Some bs) as ->.
  { destruct bs as [|b bs]; [reflexivity|]. by rewrite read_elements_elements. }
  fold (stringify bs). by rewrite String.eqb_refl.
Qed.

Lemma stringify_not_inherited bs : inherited (stringify bs) = false.
Proof.
  unfold inherited. apply bool_decide_eq_false. unfold Object_prototype, stringify.
  intros H. repeat (apply elem_of_cons in H as [H|H]; [discriminate H|]).
  by apply elem_of_nil in H.
Qed.

End JsonFacts.

(** ** Proof support *)

Ltac unfold_monad :=
  unfold bind, ret, throw, crash, gets, modify, try_catch, on_this, run, query.

#[local] Arguments Buffer_from : simpl never.
#[local] Arguments Buffer_alloc : simpl never.
#[local] Arguments insert_or_ignore : simpl never.
#[local] Arguments open_database : simpl never.
#[local] Arguments encrypt : simpl never.
#[local] Arguments decrypt : simpl never.
#[local] Arguments assign_property : simpl never.

(** ** The codec, given the key *)

Lemma length_Buffer_alloc (size : nat) : length (Buffer_alloc size) = size.
Proof. apply length_replicate. Qed.

(** *** UTF-8 *)

Section Utf8Facts.

Import Utf8.

Lemma encode_cons (b1 : byte) (t1 : list byte) :
  Byte.eqb b1 xed = false → encode (b1 :: t1) = b1 :: encode t1.
Proof.
  intros Hb. destruct t1 as [|b2 [|b3 t3]]; try done.
  cbn [encode]. unfold surrogate. by rewrite Hb.
Qed.

Lemma continuation_not_ed (b : byte) :
  continuation b = true → Byte.eqb b xed = false.
Proof. by destruct b. Qed.

Lemma width_not_ed (b : byte) (n : nat) :
  width b = n → n ≠ 3 → Byte.eqb b xed = false.
Proof. intros <-. by destruct b. Qed.

Lemma second_continuation (b1 b2 : byte) :
  second b1 b2 = true → continuation b2 = true.
Proof.
  unfold second, continuation, between. intros H2.
  repeat case_match; apply andb_prop in H2 as [Ha Hb];
    apply Nat.leb_le in Ha, Hb; apply andb_true_intro;
    split; apply Nat.leb_le; lia.
Qed.

Lemma second_not_surrogate (b1 b2 b3 : byte) :
  second b1 b2 = true → surrogate b1 b2 b3 = false.
Proof.
  unfold surrogate. intros H2.
  destruct (Byte.eqb b1 xed) eqn:Hed; [|done].
  apply Byte.byte_dec_bl in Hed as ->.
  unfold second in H2. cbn in H2.
  assert (between 160 191 b2 = false) as ->; [|done].
  unfold between in *. apply andb_prop in H2 as [_ H2].
  apply Nat.leb_le in H2. apply andb_false_iff. left. apply Nat.leb_gt. lia.
Qed.

Lemma encode_valid_upto (n : nat) (bs : list byte) :
  length bs ≤ n → valid bs = true → encode bs = bs.
Proof.
  revert bs. induction n as [|n IH]; intros bs Hlen Hvalid.
  { destruct bs; [done|cbn in Hlen; lia]. }
  destruct bs as [|b1 t1]; [done|]. cbn [valid] in Hvalid.
  destruct (width b1) as [|[|[|[|[|w]]]]] eqn:Hw; try done.
  - rewrite encode_cons by by eapply width_not_ed.
    f_equal. apply IH; [cbn in Hlen; lia|done].
  - destruct t1 as [|b2 t2]; [done|]. apply andb_prop in Hvalid as [H2 Hvalid].
    rewrite encode_cons by by eapply width_not_ed.
    rewrite encode_cons by by apply continuation_not_ed.
    do 2 f_equal. apply IH; [cbn in Hlen; lia|done].
  - destruct t1 as [|b2 [|b3 t3]]; try done.
    apply andb_prop in Hvalid as [Hvalid Hrest].
    apply andb_prop in Hvalid as [H2 H3].
    assert (encode (b1 :: b2 :: b3 :: t3) = b1 :: encode (b2 :: b3 :: t3)) as ->.
    { cbn [encode]. by rewrite second_not_surrogate. }
    apply second_continuation in H2.
    rewrite !encode_cons by by apply continuation_not_ed.
    do 3 f_equal. apply IH; [cbn in Hlen; lia|done].
  - destruct t1 as [|b2 [|b3 [|b4 t4]]]; try done.
    apply andb_prop in Hvalid as [Hvalid Hrest].
    apply andb_prop in Hvalid as [Hvalid H4].
    apply andb_prop in Hvalid as [H2 H3].
    apply second_continuation in H2.
    rewrite encode_cons by by eapply width_not_ed.
    rewrite !encode_cons by by apply continuation_not_ed.
    do 4 f_equal. apply IH; [cbn in Hlen; lia|done].
Qed.

(** Nothing is replaced where UTF-8 is written ... *)
Lemma encode_valid (bs : list byte) : valid bs = true → encode bs = bs.
Proof. by apply (encode_valid_upto (length bs)). Qed.

Lemma decode_valid_upto (n : nat) (bs : list byte) :
  length bs ≤ n → valid bs = true → decode bs = bs.
Proof.
  revert bs. induction n as [|n IH]; intros bs Hlen Hvalid.
  { destruct bs; [done|cbn in Hlen; lia]. }
  destruct bs as [|b1 t1]; [done|]. cbn [valid decode] in *.
  destruct (width b1) as [|[|[|[|[|w]]]]] eqn:Hw; try done.
  - f_equal. apply IH; [cbn in Hlen; lia|done].
  - destruct t1 as [|b2 t2]; [done|]. apply andb_prop in Hvalid as [H2 Hvalid].
    rewrite H2. do 2 f_equal. apply IH; [cbn in Hlen; lia|done].
  - destruct t1 as [|b2 [|b3 t3]]; try done.
    apply andb_prop in Hvalid as [Hvalid Hrest].
    apply andb_prop in Hvalid as [H2 H3].
    rewrite H2, H3. do 3 f_equal. apply IH; [cbn in Hlen; lia|done].
  - destruct t1 as [|b2 [|b3 [|b4 t4]]]; try done.
    apply andb_prop in Hvalid as [Hvalid Hrest].
    apply andb_prop in Hvalid as [Hvalid H4].
    apply andb_prop in Hvalid as [H2 H3].
    rewrite H2, H3, H4. do 4 f_equal. apply IH; [cbn in Hlen; lia|done].
Qed.

(** ... nor where it is read. *)
Lemma decode_valid (bs : list byte) : valid bs = true → decode bs = bs.
Proof. by apply (decode_valid_upto (length bs)). Qed.

End Utf8Facts.

(** A string without an unpaired surrogate is written as it is modelled
    and read back as it was. *)
Lemma Buffer_from_well_formed (text : string) :
  well_formed text → Buffer_from text = list_byte_of_string text.
Proof. apply encode_valid. Qed.

Lemma Buffer_toString_from (text : string) :
  well_formed text → Buffer_toString (Buffer_from text) = text.
Proof.
  intros Htext. unfold Buffer_toString.
  rewrite Buffer_from_well_formed, decode_valid by done.
  apply string_of_list_byte_of_string.
Qed.

Lemma Buffer_from_inj (text1 text2 : string) :
  well_formed text1 → well_formed text2 →
  Buffer_from text1 = Buffer_from text2 → text1 = text2.
Proof.
  intros H1 H2 Heq. rewrite !Buffer_from_well_formed in Heq by done.
  rewrite <- (string_of_list_byte_of_string text1),
    <- (string_of_list_byte_of_string text2). by rewrite Heq.
Qed.

(** An unpaired surrogate is read back as U+FFFD, and so is U+FFFD. *)
Example Buffer_toString_from_surrogate :
  Buffer_toString (Buffer_from lone_surrogate) = replacement_character
  ∧ Buffer_toString (Buffer_from replacement_character) = replacement_character
  ∧ lone_surrogate ≠ replacement_character
  ∧ ¬ well_formed lone_surrogate.
Proof. vm_compute. by repeat split. Qed.

Lemma Buffer_from_JSON_parse_stringify (P : Platform) (bytes : list byte) :
  Buffer_from_JSON_parse P (Json.stringify bytes) = Some bytes.
Proof. unfold Buffer_from_JSON_parse. by rewrite parse_stringify. Qed.

(** [decrypt] on what [encrypt] returned under the same key. *)
Lemma decrypt_outcome_ciphertext (P : Platform) (key : list byte) (value : string) :
  secretbox_opens P →
  length key = crypto_secretbox_KEYBYTES P →
  decrypt_outcome P key (ciphertext P key value)
  = Normal (Buffer_toString (Buffer_from value)).
Proof.
  intros Hopens Hkey. unfold decrypt_outcome, ciphertext.
  rewrite Buffer_from_JSON_parse_stringify.
  destruct (Hopens (Buffer_from value)
              (Buffer_alloc (crypto_secretbox_NONCEBYTES P)) key) as [Hlen Hopen];
    [apply length_Buffer_alloc|done|].
  rewrite decide_False by lia. by rewrite Hopen.
Qed.

(** [decrypt] hands back only what the primitive authenticated under the
    key in [this.sk]: there is no other way to a plaintext. *)
Lemma decrypt_outcome_Normal (P : Platform) (key : list byte) (value plain : string) :
  decrypt_outcome P key value = Normal plain →
  ∃ encrypted decrypted,
    Buffer_from_JSON_parse P value = Some encrypted
    ∧ crypto_secretbox_open_easy P encrypted
        (Buffer_alloc (crypto_secretbox_NONCEBYTES P)) key = Some decrypted
    ∧ plain = Buffer_toString decrypted.
Proof.
  unfold decrypt_outcome.
  destruct (Buffer_from_JSON_parse P value) as [encrypted|]; [|done].
  case_decide; [done|].
  destruct (crypto_secretbox_open_easy _ _ _ _) as [decrypted|] eqn:Hopen; [|done].
  intros [= <-]. eauto.
Qed.

Lemma one_byte_altered_length (original altered : list byte) :
  one_byte_altered original altered → length altered = length original.
Proof. intros (i & b & b' & _ & _ & ->). apply length_insert. Qed.

(** ** The methods *)

Section EngineFacts.

Context (P : Platform).

Lemma revoke_secured (key : list byte) (this : HareDB) :
  sk this = Some {| sb_bytes := key; sb_state := NoAccess |} →
  revoke this = this.
Proof. destruct this; cbn; by intros ->. Qed.

Lemma sk_revoke (this : HareDB) (buffer : SecureBuffer) :
  sk this = Some buffer →
  sk (revoke this) = Some {| sb_bytes := sb_bytes buffer; sb_state := NoAccess |}.
Proof. cbn. by intros ->. Qed.

(** [encrypt], whatever the protection was set to before. *)
Lemma encrypt_eq (this : HareDB) (buffer : SecureBuffer) (value : string) :
  sk this = Some buffer →
  encrypt P value this
  = (Normal (ciphertext P (sb_bytes buffer) value), revoke this).
Proof.
  intros Hsk. unfold encrypt, sodium_mprotect_readonly, sodium_mprotect_noaccess,
    sodium_mprotect, read_sk, revoke, with_sk. unfold_monad. simpl.
  rewrite Hsk. simpl. reflexivity.
Qed.

Lemma encrypt_secured (key : list byte) (this : HareDB) (value : string) :
  sk this = Some {| sb_bytes := key; sb_state := NoAccess |} →
  encrypt P value this = (Normal (ciphertext P key value), this).
Proof.
  intros Hsk. rewrite (encrypt_eq _ _ _ Hsk). simpl.
  by rewrite (revoke_secured key).
Qed.

(** [decrypt], whatever the protection was set to before: the access is
    revoked once the text has parsed to a buffer that can hold a tag. *)
Lemma decrypt_eq (this : HareDB) (buffer : SecureBuffer) (value : string) :
  sk this = Some buffer →
  decrypt P value this
  = (decrypt_outcome P (sb_bytes buffer) value,
     match Buffer_from_JSON_parse P value with
     | Some encrypted =>
         if decide (length encrypted < crypto_secretbox_MACBYTES P)
         then this else revoke this
     | None => this
     end).
Proof.
  intros Hsk. unfold decrypt, decrypt_outcome.
  destruct (Buffer_from_JSON_parse P value) as [encrypted|]; [|done].
  case_decide; [done|].
  unfold sodium_mprotect_readonly, sodium_mprotect_noaccess,
    sodium_mprotect, read_sk, revoke, with_sk. unfold_monad. simpl.
  rewrite Hsk. simpl.
  by destruct (crypto_secretbox_open_easy _ _ _ _).
Qed.

Lemma decrypt_secured (key : list byte) (this : HareDB) (value : string) :
  sk this = Some {| sb_bytes := key; sb_state := NoAccess |} →
  decrypt P value this = (decrypt_outcome P key value, this).
Proof.
  intros Hsk. rewrite (decrypt_eq _ _ _ Hsk). cbn [sb_bytes].
  rewrite (revoke_secured key) by done.
  by repeat case_match.
Qed.

Lemma protection_NoAccess (this : HareDB) :
  protection this = Some NoAccess ↔
  ∃ key, sk this = Some {| sb_bytes := key; sb_state := NoAccess |}.
Proof.
  unfold protection. split.
  - destruct (sk this) as [[key state]|]; simpl; [|done].
    intros [= ->]. by exists key.
  - by intros [key ->].
Qed.

(** [encrypt] at the start of [set], [get] and [del]. *)
Lemma encrypt_at_rest (this : HareDB) (text : string) :
  ready this →
  (if secure this then encrypt P text else ret text) this
  = (Normal (at_rest P this text), this).
Proof.
  intros Hready. unfold at_rest. destruct (secure this) eqn:Hmode; [|done].
  destruct (proj1 (protection_NoAccess this) (Hready Hmode)) as [key Hsk].
  rewrite (encrypt_secured key) by done. by rewrite Hsk.
Qed.

Lemma set_run (this : HareDB) (posted : list Message) (key value : string) :
  ready this →
  worker this = Some posted →
  set P key value this
  = (Normal (has_property (at_rest P this key) (kv this)),
     {| kv := assign_property (at_rest P this key) (at_rest P this value) (kv this);
        worker := Some (posted ++ [SET (at_rest P this key) (at_rest P this value)]);
        sk := sk this; secure := secure this |}).
Proof.
  intros Hready Hworker. unfold set.
  unfold bind at 1. unfold gets at 1.
  unfold bind at 1. rewrite encrypt_at_rest by done.
  unfold bind at 1. rewrite encrypt_at_rest by done.
  unfold_monad. unfold postMessage, with_kv. cbn. by rewrite Hworker.
Qed.

Lemma del_run (this : HareDB) (posted : list Message) (key : string) :
  ready this →
  worker this = Some posted →
  del P key this
  = if has_property (at_rest P this key) (kv this)
    then (Normal true,
          {| kv := delete (at_rest P this key) (kv this);
             worker := Some (posted ++ [DEL (at_rest P this key)]);
             sk := sk this; secure := secure this |})
    else (Normal false, this).
Proof.
  intros Hready Hworker. unfold del.
  unfold bind at 1. unfold gets at 1.
  unfold bind at 1. rewrite encrypt_at_rest by done.
  unfold_monad. unfold postMessage, with_kv, delete_property. cbn.
  destruct (has_property _ _); cbn; [|done]. by rewrite Hworker.
Qed.

(** What [get] completes with. *)
Lemma get_run (this : HareDB) (key : string) :
  ready this →
  get P key this
  = (let value := read_property (at_rest P this key) (kv this) in
     if truthy value && secure this then
       match value with
       | JString text =>
           match decrypt_outcome P (default [] (sb_bytes <$> sk this)) text with
           | Normal plain => Normal (JString plain)
           | Throw e => Throw e
           | Crash => Crash
           end
       | _ => Throw RuntimeError
       end
     else if truthy value then Normal value
     else Normal JNull,
     this).
Proof.
  intros Hready. unfold get.
  unfold bind at 1. unfold gets at 1.
  unfold bind at 1. rewrite encrypt_at_rest by done.
  unfold bind at 1. unfold gets at 1. cbn zeta.
  destruct (truthy _) eqn:Htruthy; cbn [andb]; [|done].
  destruct (secure this) eqn:Hmode; [|done].
  destruct (proj1 (protection_NoAccess this) (Hready Hmode)) as [k Hsk].
  unfold decrypt_value. destruct (read_property _ _); try done.
  unfold bind. rewrite (decrypt_secured k) by done. rewrite Hsk. cbn.
  by destruct (decrypt_outcome _ _ _).
Qed.

(** *** The constructor *)

Lemma open_database_insert (files : Disk) (path : string) (d : Database) :
  open_database (<[path := d]> files) path = d.
Proof. unfold open_database. by rewrite lookup_insert_eq. Qed.

Lemma lookup_insert_or_ignore (k k' v : string) (table : gmap string string) :
  insert_or_ignore k v table !! k'
  = if decide (k = k') then Some (default v (table !! k)) else table !! k'.
Proof.
  unfold insert_or_ignore. case_decide as Hk.
  - subst k'. destruct (table !! k) eqn:E; simpl; [done|]. by rewrite lookup_insert_eq.
  - destruct (table !! k) eqn:E; [done|]. by rewrite lookup_insert_ne.
Qed.

Lemma startup_meta_secure (mode : bool) (table : gmap string string) :
  startup_meta P mode table !! "secure"
  = Some (default (bool_text mode) (table !! "secure")).
Proof.
  unfold startup_meta. rewrite !lookup_insert_or_ignore.
  repeat (case_decide; try done).
Qed.

Lemma startup_meta_test (mode : bool) (table : gmap string string) :
  startup_meta P mode table !! "secure_test_string"
  = table !! "secure_test_string".
Proof.
  unfold startup_meta. rewrite !lookup_insert_or_ignore.
  repeat (case_decide; try done).
Qed.

(** The constructor with a secret key that fits, on memory that could be
    secured. *)
Lemma new_HareDB_secure (files : Disk) (path : string) (c : ascii) (s : string) :
  let secretKey := String c s in
  let d := open_database files path in
  let key := key_bytes P secretKey in
  let this1 :=
    {| kv := ∅; worker := None;
       sk := Some {| sb_bytes := key; sb_state := NoAccess |}; secure := true |} in
  let meta1 := startup_meta P true (meta d) in
  let test := ciphertext P key "ENCRYPTED TEXT" in
  let meta2 := insert_or_ignore "secure_test_string" test meta1 in
  length (Buffer_from secretKey) ≤ crypto_secretbox_KEYBYTES P →
  sodium_malloc_secure P = true →
  new_HareDB P files path (Some secretKey)
  = if String.eqb (default "true" (meta d !! "secure")) "true" then
      match decrypt_outcome P key (default test (meta d !! "secure_test_string")) with
      | Normal _ =>
          (Normal tt,
           {| this :=
                {| kv := load (key_value d); worker := Some [STARTUP path];
                   sk := Some {| sb_bytes := key; sb_state := NoAccess |};
                   secure := true |};
              disk := <[path := {| meta := meta2; key_value := key_value d |}]> files |})
      | Throw _ =>
          (Throw WrongKeyError,
           {| this := this1;
              disk := <[path := {| meta := meta2; key_value := key_value d |}]> files |})
      | Crash =>
          (Crash,
           {| this := this1;
              disk := <[path := {| meta := meta2; key_value := key_value d |}]> files |})
      end
    else
      (Throw ConfigurationError,
       {| this := this1;
          disk := <[path := {| meta := meta1; key_value := key_value d |}]> files |}).
Proof.
  intros secretKey d key this1 meta1 test meta2 Hfit Hsecure.
  unfold new_HareDB, constructor. fold secretKey.
  unfold_monad. cbn.
  unfold TypedArray_set. rewrite length_replicate.
  rewrite decide_True by done. cbn. rewrite Hsecure. cbn.
  rewrite !open_database_insert, !insert_insert_eq. cbn.
  fold d. unfold on_meta, with_kv. cbn beta.
  change (Buffer_from secretKey ++ _) with key.
  change (insert_or_ignore "create_time" _ _) with meta1.
  unfold meta1 at 1. rewrite startup_meta_secure.
  destruct (meta d !! "secure") as [recorded|] eqn:Hrec; cbn;
    [destruct (String.eqb recorded "true") eqn:Heq; cbn; [|done]|].
  all: rewrite (encrypt_secured key) by done; cbn.
  all: rewrite !open_database_insert, !insert_insert_eq; cbn.
  all: fold test; fold meta2.
  all: unfold meta2 at 1; rewrite lookup_insert_or_ignore, decide_True by done.
  all: unfold meta1 at 1; rewrite startup_meta_test; cbn.
  all: rewrite (decrypt_secured key) by done; cbn.
  all: destruct (decrypt_outcome P key _); cbn; try done.
  all: rewrite open_database_insert; done.
Qed.

(** The constructor without a secret key, or with the empty one. *)
Lemma new_HareDB_insecure (files : Disk) (path : string) (secretKey : option string) :
  let d := open_database files path in
  let meta1 := startup_meta P false (meta d) in
  requested secretKey = false →
  new_HareDB P files path secretKey
  = if String.eqb (default "false" (meta d !! "secure")) "true" then
      (Throw ConfigurationError,
       {| this := undefined_this;
          disk := <[path := {| meta := meta1; key_value := key_value d |}]> files |})
    else
      (Normal tt,
       {| this :=
            {| kv := load (key_value d); worker := Some [STARTUP path];
               sk := None; secure := false |};
          disk := <[path := {| meta := meta1; key_value := key_value d |}]> files |}).
Proof.
  intros d meta1 Hmode.
  assert (new_HareDB P files path secretKey = new_HareDB P files path None) as ->.
  { by destruct secretKey as [[|c s]|]. }
  unfold new_HareDB, constructor. unfold_monad. cbn.
  rewrite !open_database_insert, !insert_insert_eq. cbn.
  fold d. unfold on_meta, with_kv. cbn beta.
  change (insert_or_ignore "create_time" _ _) with meta1.
  unfold meta1 at 1. rewrite startup_meta_secure.
  destruct (meta d !! "secure") as [recorded|] eqn:Hrec; cbn;
    [destruct (String.eqb recorded "true") eqn:Heq; cbn; [done|]|].
  all: by rewrite open_database_insert.
Qed.

(** The constructor with key material longer than the primitive's key:
    the RangeError of [this.sk.set(unsafeSk)]. *)
Lemma new_HareDB_too_long (files : Disk) (path : string) (secretKey : option string) :
  requested secretKey = true →
  ¬ fits P secretKey →
  (new_HareDB P files path secretKey).1 = Throw RuntimeError.
Proof.
  intros Hmode Hfit. destruct secretKey as [[|c s]|]; try done.
  unfold fits in Hfit. cbn [default] in Hfit.
  unfold new_HareDB, constructor. unfold_monad. cbn.
  unfold TypedArray_set. rewrite length_replicate.
  by rewrite decide_False by done.
Qed.

(** The constructor on memory that could not be secured. *)
Lemma new_HareDB_unsecured (files : Disk) (path : string) (secretKey : option string) :
  requested secretKey = true →
  fits P secretKey →
  sodium_malloc_secure P = false →
  (new_HareDB P files path secretKey).1 = Throw FatalSecurityError.
Proof.
  intros Hmode Hfit Hsecure. destruct secretKey as [[|c s]|]; try done.
  unfold fits in Hfit. cbn [default] in Hfit.
  unfold new_HareDB, constructor. unfold_monad. cbn.
  unfold TypedArray_set. rewrite length_replicate.
  rewrite decide_True by done. cbn. by rewrite Hsecure.
Qed.

(** A constructor that completes in secure mode had key material that
    fits and memory that could be secured. *)
Lemma new_HareDB_secure_inv (files : Disk) (path : string)
    (secretKey : option string) (w : World) :
  requested secretKey = true →
  new_HareDB P files path secretKey = (Normal tt, w) →
  fits P secretKey ∧ sodium_malloc_secure P = true.
Proof.
  intros Hmode Hnew. split.
  - destruct (decide (fits P secretKey)) as [|Hfit]; [done|].
    pose proof (new_HareDB_too_long files path _ Hmode Hfit) as H.
    by rewrite Hnew in H.
  - destruct (decide (fits P secretKey)) as [Hfit|Hfit].
    + destruct (sodium_malloc_secure P) eqn:Hsecure; [done|].
      pose proof (new_HareDB_unsecured files path _ Hmode Hfit Hsecure) as H.
      by rewrite Hnew in H.
    + pose proof (new_HareDB_too_long files path _ Hmode Hfit) as H.
      by rewrite Hnew in H.
Qed.

(** A completed constructor in secure mode, whatever the key text. *)
Lemma new_HareDB_secure_ok (files : Disk) (path : string)
    (secretKey : string) (w : World) :
  let d := open_database files path in
  let key := key_bytes P secretKey in
  let test := ciphertext P key "ENCRYPTED TEXT" in
  requested (Some secretKey) = true →
  new_HareDB P files path (Some secretKey) = (Normal tt, w) →
  w = {| this :=
           {| kv := load (key_value d); worker := Some [STARTUP path];
              sk := Some {| sb_bytes := key; sb_state := NoAccess |};
              secure := true |};
         disk :=
           <[path := {| meta :=
                          insert_or_ignore "secure_test_string" test
                            (startup_meta P true (meta d));
                        key_value := key_value d |}]> files |}
  ∧ String.eqb (default "true" (meta d !! "secure")) "true" = true
  ∧ ∃ plain,
      decrypt_outcome P key (default test (meta d !! "secure_test_string"))
      = Normal plain.
Proof.
  intros d key test Hmode Hnew.
  destruct (new_HareDB_secure_inv _ _ _ _ Hmode Hnew) as [Hfit Hsecure].
  destruct secretKey as [|c s]; [done|].
  rewrite new_HareDB_secure in Hnew by done.
  fold d key test in Hnew.
  destruct (String.eqb _ "true"); [|done].
  destruct (decrypt_outcome _ _ _) as [plain| |]; [|done..].
  injection Hnew as <-. eauto.
Qed.

End EngineFacts.

(** ** Keys and values at rest *)

Lemma secured_ready (P : Platform) (key : list byte) (this : HareDB) :
  secured P key this → ready this.
Proof. intros (Hsk & _ & _) _. unfold protection. by rewrite Hsk. Qed.

Lemma insecure_ready (this : HareDB) : secure this = false → ready this.
Proof. intros Hmode Hsecure. congruence. Qed.

Lemma at_rest_secured (P : Platform) (key : list byte) (this : HareDB) (text : string) :
  secured P key this → at_rest P this text = ciphertext P key text.
Proof. intros (Hsk & _ & Hmode). unfold at_rest. by rewrite Hmode, Hsk. Qed.

Lemma at_rest_insecure (P : Platform) (this : HareDB) (text : string) :
  secure this = false → at_rest P this text = text.
Proof. intros Hmode. unfold at_rest. by rewrite Hmode. Qed.

(** A ciphertext is never the name of a member of [Object.prototype],
    and never the empty string. *)
Lemma ciphertext_not_inherited (P : Platform) (key : list byte) (text : string) :
  inherited (ciphertext P key text) = false.
Proof. apply stringify_not_inherited. Qed.

Lemma ciphertext_truthy (P : Platform) (key : list byte) (text : string) :
  truthy (JString (ciphertext P key text)) = true.
Proof. done. Qed.

Lemma assign_property_ciphertext (P : Platform) (key : list byte)
    (text value : string) (object : gmap string string) :
  assign_property (ciphertext P key text) value object
  = <[ciphertext P key text := value]> object.
Proof. unfold assign_property. by rewrite decide_False. Qed.

(** ** Loading the rows *)

Lemma lookup_assign_property (key value k : string) (object : gmap string string) :
  assign_property key value object !! k
  = if decide (key = k ∧ key ≠ "__proto__") then Some value else object !! k.
Proof.
  unfold assign_property. destruct (decide (key = "__proto__")) as [->|Hne].
  - by rewrite decide_False by (intuition congruence).
  - destruct (decide (key = k)) as [->|Hk].
    + by rewrite lookup_insert_eq, decide_True.
    + by rewrite lookup_insert_ne, decide_False by (intuition congruence).
Qed.

Lemma lookup_foldl_assign (rows : list (string * string))
    (object : gmap string string) (k : string) :
  NoDup rows.*1 →
  foldl (λ object row, assign_property row.1 row.2 object) object rows !! k
  = if decide (k = "__proto__") then object !! k
    else
      match (list_to_map rows : gmap string string) !! k with
      | Some value => Some value
      | None => object !! k
      end.
Proof.
  revert object. induction rows as [|[key value] rows IH]; intros object Hnodup.
  - cbn. rewrite lookup_empty. by case_decide.
  - apply NoDup_cons in Hnodup as [Hkey Hnodup].
    cbn [foldl fst snd]. rewrite IH by done. cbn [list_to_map foldr uncurry].
    rewrite !lookup_assign_property.
    destruct (decide (k = "__proto__")) as [->|Hk].
    + case_decide; [(intuition congruence)|done].
    + destruct (decide (key = k)) as [->|Hne].
      * rewrite lookup_insert_eq.
        rewrite (not_elem_of_list_to_map_1 _ k) by done.
        by rewrite decide_True.
      * rewrite lookup_insert_ne by done.
        rewrite decide_False by (intuition congruence). done.
Qed.

(** The constructor's load brings every row but a row named [__proto__]
    into [this.kv]. *)
Lemma lookup_load (table : gmap string string) (k : string) :
  load table !! k = if decide (k = "__proto__") then None else table !! k.
Proof.
  unfold load. rewrite lookup_foldl_assign by apply NoDup_fst_map_to_list.
  rewrite list_to_map_to_list, lookup_empty.
  case_decide; [done|]. by destruct (table !! k).
Qed.

(** ** The worker *)

Lemma open_database_insert_ne (files : Disk) (path p : string) (d : Database) :
  path ≠ p → open_database (<[path := d]> files) p = open_database files p.
Proof. intros Hne. unfold open_database. by rewrite lookup_insert_ne. Qed.

(** No message makes the worker write to a [meta] table. *)
Lemma onmessage_meta (message : Message) (state : WorkerState * Disk) (p : string) :
  meta (open_database (onmessage message state).2 p)
  = meta (open_database state.2 p).
Proof.
  destruct state as [w files]. unfold onmessage.
  destruct (exited w); [done|].
  destruct message as [path|key value|key|]; cbn [snd];
    try (destruct (db w) as [path|]; [|done]); cbn [snd]; try done.
  all: destruct (decide (path = p)) as [->|Hne];
    [by rewrite open_database_insert
    |by rewrite open_database_insert_ne].
Qed.

Lemma run_worker_meta (messages : list Message) (files : Disk) (p : string) :
  meta (open_database (run_worker messages files) p) = meta (open_database files p).
Proof.
  unfold run_worker.
  generalize ({| db := None; exited := false |}) as w.
  revert files. induction messages as [|message messages IH]; intros files w.
  - done.
  - cbn [foldl]. destruct (onmessage message (w, files)) as [w' files'] eqn:Hstep.
    rewrite IH. by rewrite <- (onmessage_meta message (w, files)), Hstep.
Qed.

(** The worker of an engine that started on [path], was told one write
    and was shut down. *)
Lemma run_worker_set (files : Disk) (path key value : string) :
  run_worker [STARTUP path; SET key value; SHUTDOWN] files
  = <[path := on_key_value (λ table, <[key := value]> table)
                (open_database files path)]> files.
Proof.
  unfold run_worker. cbn. by rewrite open_database_insert, insert_insert_eq.
Qed.

(** [close] posts [SHUTDOWN] after everything posted before it. *)
Lemma close_worker (this : HareDB) (posted : list Message) :
  worker this = Some posted →
  worker (close this).2 = Some (posted ++ [SHUTDOWN]).
Proof.
  destruct this as [index posted' buffer mode]. cbn. intros ->.
  by destruct mode, buffer as [[bytes []]|].
Qed.

(** ** The small platform *)

Lemma toy_tag_length (message key : list byte) : length (Toy.tag message key) = 16.
Proof.
  unfold Toy.tag. rewrite length_take. cbn [length].
  rewrite length_app, length_replicate. lia.
Qed.

Lemma toy_opens : secretbox_opens Toy.platform.
Proof.
  intros message nonce key _ _.
  change (crypto_secretbox_easy Toy.platform) with Toy.easy.
  change (crypto_secretbox_open_easy Toy.platform) with Toy.open_easy.
  change (crypto_secretbox_MACBYTES Toy.platform) with 16.
  unfold Toy.easy, Toy.open_easy. split.
  - rewrite length_app, toy_tag_length. lia.
  - pose proof (toy_tag_length message key) as Htag.
    rewrite decide_True; [by rewrite drop_app_length'|].
    rewrite length_app, drop_app_length', take_app_length' by done.
    split; [lia|done].
Qed.

Lemma toy_secure_engine_secured :
  secured Toy.platform (key_bytes Toy.platform "secret") Toy.secure_engine.
Proof. vm_compute. done. Qed.

Lemma toy_secure_engine_sk :
  sk Toy.secure_engine
  = Some {| sb_bytes := key_bytes Toy.platform "secret"; sb_state := NoAccess |}.
Proof. vm_compute. reflexivity. Qed.

Lemma toy_key_length :
  length (key_bytes Toy.platform "secret") = crypto_secretbox_KEYBYTES Toy.platform.
Proof. vm_compute. reflexivity. Qed.

Lemma toy_secure_engine_worker :
  worker Toy.secure_engine = Some [STARTUP "hdb_persistence.sqlite"].
Proof. vm_compute. reflexivity. Qed.

Lemma toy_insecure_engine_worker :
  worker Toy.insecure_engine = Some [STARTUP "hdb_persistence.sqlite"].
Proof. vm_compute. reflexivity. Qed.

Lemma toy_new_secure :
  new_HareDB Toy.platform ∅ "hdb_persistence.sqlite" (Some "secret")
  = (Normal tt, (new_HareDB Toy.platform ∅ "hdb_persistence.sqlite" (Some "secret")).2).
Proof. vm_compute. reflexivity. Qed.

Lemma toy_new_insecure :
  new_HareDB Toy.platform ∅ "hdb_persistence.sqlite" None
  = (Normal tt, (new_HareDB Toy.platform ∅ "hdb_persistence.sqlite" None).2).
Proof. vm_compute. reflexivity. Qed.

Lemma toy_names_file : names_file "hdb_persistence.sqlite".
Proof. by split. Qed.

Lemma toy_checksum_insert (message : list byte) (i : nat) (b b' : byte) :
  message !! i = Some b →
  Toy.checksum (<[i := b']> message) + Byte.to_nat b
  = Toy.checksum message + Byte.to_nat b'.
Proof.
  unfold Toy.checksum.
  revert i. induction message as [|b0 message IH]; intros [|i] Hi; try done.
  - injection Hi as ->. cbn. lia.
  - cbn in Hi. specialize (IH i Hi).
    change (<[S i := b']> (b0 :: message)) with (b0 :: <[i := b']> message).
    cbn [foldr]. lia.
Qed.

Lemma byte_of_checksum_inj (m n : nat) :
  default x00 (Byte.of_nat (m mod 256)) = default x00 (Byte.of_nat (n mod 256)) →
  m mod 256 = n mod 256.
Proof.
  pose proof (Nat.mod_upper_bound m 256) as Hm.
  pose proof (Nat.mod_upper_bound n 256) as Hn.
  destruct (Byte.of_nat (m mod 256)) as [bm|] eqn:Em.
  2: { apply Byte.of_nat_None_iff in Em. lia. }
  destruct (Byte.of_nat (n mod 256)) as [bn|] eqn:En.
  2: { apply Byte.of_nat_None_iff in En. lia. }
  cbn [from_option id]. intros ->.
  apply Byte.to_of_nat in Em. apply Byte.to_of_nat in En. congruence.
Qed.

(** On the small platform no ciphertext with one byte altered is
    authenticated. *)
Lemma toy_refuses_altered (message key altered : list byte) :
  one_byte_altered (Toy.easy message [] key) altered →
  refuses Toy.platform altered key.
Proof.
  intros (i & b & b' & Hi & Hb & ->). unfold refuses.
  change (crypto_secretbox_open_easy Toy.platform) with Toy.open_easy.
  unfold Toy.open_easy, Toy.easy in *.
  pose proof (toy_tag_length message key) as Htag.
  apply decide_False. intros [_ Heq].
  destruct (decide (i < 16)) as [Hlt|Hge].
  - rewrite insert_app_l in Heq by lia.
    rewrite drop_app_length', take_app_length' in Heq
      by (by rewrite ?length_insert).
    rewrite lookup_app_l in Hi by lia.
    apply (f_equal (λ l, l !! i)) in Heq.
    rewrite list_lookup_insert_eq in Heq by lia. congruence.
  - rewrite insert_app_r_alt in Heq by lia.
    rewrite drop_app_length', take_app_length' in Heq by done.
    rewrite lookup_app_r in Hi by lia. rewrite Htag in Hi, Heq.
    unfold Toy.tag, Toy.checksum in Heq. cbn [take] in Heq. injection Heq as Heq.
    apply byte_of_checksum_inj in Heq.
    pose proof (toy_checksum_insert message (i - 16) b b' Hi) as Hsum.
    unfold Toy.checksum in Hsum.
    pose proof (Byte.to_nat_bounded b). pose proof (Byte.to_nat_bounded b').
    assert (Byte.to_nat b ≠ Byte.to_nat b') as Hne.
    { intros Hbb. apply Hb. apply (f_equal Byte.of_nat) in Hbb.
      rewrite !Byte.of_to_nat in Hbb. congruence. }
    revert Heq Hsum.
    generalize (foldr (λ b n, Byte.to_nat b + n) 0 message) as total.
    generalize (foldr (λ b n, Byte.to_nat b + n) 0 (<[i - 16 := b']> message))
      as total'.
    intros total' total Heq Hsum.
    pose proof (Nat.div_mod_eq total 256) as Htotal.
    pose proof (Nat.div_mod_eq total' 256) as Htotal'.
    rewrite Heq in Htotal.
    revert Htotal Htotal'.
    generalize (total / 256) (total' / 256) (total' mod 256). lia.
Qed.

(** So on the small platform [decrypt] throws on every ciphertext with
    one byte altered. *)
Lemma toy_decrypt_altered (plaintext : string) (altered : list byte) :
  one_byte_altered
    (Toy.easy (Buffer_from plaintext) [] (key_bytes Toy.platform "secret")) altered →
  decrypt Toy.platform (Json.stringify altered) Toy.secure_engine
  = (Throw DecryptionError, Toy.secure_engine).
Proof.
  intros Haltered.
  rewrite (decrypt_secured Toy.platform (key_bytes Toy.platform "secret")) by done.
  f_equal. unfold decrypt_outcome. rewrite Buffer_from_JSON_parse_stringify.
  pose proof (toy_refuses_altered _ _ _ Haltered) as Hrefuses.
  apply one_byte_altered_length in Haltered.
  unfold Toy.easy in Haltered. rewrite length_app, toy_tag_length in Haltered.
  change (crypto_secretbox_MACBYTES Toy.platform) with 16.
  rewrite decide_False by lia. unfold refuses in Hrefuses. by rewrite Hrefuses.
Qed.

(** Under another key: what the key [secrex] encrypted does not decrypt
    on an engine whose key is [secret]. *)
Example decrypt_other_key :
  decrypt Toy.platform (ciphertext Toy.platform (key_bytes Toy.platform "secrex") "alice")
    Toy.secure_engine
  = (Throw DecryptionError, Toy.secure_engine).
Proof. vm_compute. reflexivity. Qed.

(** The scenario of the specification, on the small platform with a
    secret key. *)
Example scenario_secure :
  let P := Toy.platform in
  let this0 := Toy.secure_engine in
  let r1 := set P "user:1" "alice" this0 in
  let r2 := get P "user:1" r1.2 in
  let r3 := set P "user:1" "bob" r2.2 in
  let r4 := del P "user:1" r3.2 in
  let r5 := get P "user:1" r4.2 in
  let r6 := del P "user:1" r5.2 in
  r1.1 = Normal false
  ∧ r2.1 = Normal (JString "alice")
  ∧ r3.1 = Normal true
  ∧ r4.1 = Normal true
  ∧ r5.1 = Normal JNull
  ∧ r6.1 = Normal false.
Proof. vm_compute. done. Qed.

(** ** Effects of a method on the object *)

Section Effects.

Context (Q : HareDB → Prop).

Lemma leaves_ret {A} (a : A) : leaves Q (ret a).
Proof. by intros this. Qed.

Lemma leaves_throw {A} (e : Error) : leaves Q (throw (A := A) e).
Proof. by intros this. Qed.

Lemma leaves_gets {A} (f : HareDB → A) : leaves Q (gets f).
Proof. by intros this. Qed.

Lemma leaves_bind {A B} (m : M HareDB A) (f : A → M HareDB B) :
  leaves Q m → (∀ a, leaves Q (f a)) → leaves Q (bind m f).
Proof.
  intros Hm Hf this HQ. unfold bind.
  specialize (Hm this HQ). destruct (m this) as [[a|e|] this']; [|done..].
  by apply Hf.
Qed.

Lemma leaves_if {A} (b : bool) (m1 m2 : M HareDB A) :
  leaves Q m1 → leaves Q m2 → leaves Q (if b then m1 else m2).
Proof. by destruct b. Qed.

End Effects.

Create HintDb leaves discriminated.
#[local] Hint Resolve leaves_ret leaves_throw leaves_gets leaves_if : leaves.
#[local] Hint Extern 2 (leaves _ (bind _ _)) =>
  apply leaves_bind; [|intros ?] : leaves.

(** *** What the codec and [get] leave alone: the index and the worker *)

Section Frame.

Context (P : Platform) (index : gmap string string)
  (posted : option (list Message)).

Lemma same_index_mprotect (state : ProtectionState) :
  leaves (same_index index posted) (sodium_mprotect state).
Proof.
  intros this HQ. unfold sodium_mprotect. by destruct (sk this).
Qed.

Lemma same_index_read_sk : leaves (same_index index posted) read_sk.
Proof.
  intros this HQ. unfold read_sk.
  by destruct (sk this) as [[bytes []]|].
Qed.

Lemma same_index_encrypt (value : string) :
  leaves (same_index index posted) (encrypt P value).
Proof.
  unfold encrypt, sodium_mprotect_readonly, sodium_mprotect_noaccess.
  auto 10 using same_index_mprotect, same_index_read_sk with leaves.
Qed.

Lemma same_index_decrypt (value : string) :
  leaves (same_index index posted) (decrypt P value).
Proof.
  unfold decrypt, sodium_mprotect_readonly, sodium_mprotect_noaccess.
  destruct (Buffer_from_JSON_parse P value); [|auto with leaves].
  case_decide; [auto with leaves|].
  apply leaves_bind; [apply same_index_mprotect|intros _].
  apply leaves_bind; [apply same_index_read_sk|intros key]. cbn zeta.
  apply leaves_bind; [apply same_index_mprotect|intros _].
  destruct (crypto_secretbox_open_easy P _ _ _); auto with leaves.
Qed.

Lemma same_index_get (key : string) :
  leaves (same_index index posted) (get P key).
Proof.
  unfold get.
  apply leaves_bind; [auto with leaves|intros mode].
  apply leaves_bind; [auto using same_index_encrypt with leaves|intros key'].
  apply leaves_bind; [auto with leaves|intros value].
  repeat apply leaves_if; auto with leaves.
  unfold decrypt_value. destruct value; auto using same_index_decrypt with leaves.
Qed.

End Frame.

(** *** What every call leaves in place: the revoked access *)

Section Protection.

Context (P : Platform).

Lemma revoked_encrypt (value : string) : leaves revoked (encrypt P value).
Proof.
  intros this HQ. destruct (proj1 (protection_NoAccess this) HQ) as [key Hsk].
  by rewrite (encrypt_secured P key).
Qed.

Lemma revoked_decrypt (value : string) : leaves revoked (decrypt P value).
Proof.
  intros this HQ. destruct (proj1 (protection_NoAccess this) HQ) as [key Hsk].
  by rewrite (decrypt_secured P key).
Qed.

Lemma revoked_with_kv (f : gmap string string → gmap string string) :
  leaves revoked (modify (with_kv f)).
Proof. by intros this HQ. Qed.

Lemma revoked_postMessage (message : Message) :
  leaves revoked (postMessage message).
Proof. intros this HQ. unfold postMessage. by destruct (worker this). Qed.

Lemma revoked_set (key value : string) : leaves revoked (set P key value).
Proof.
  unfold set.
  auto 12 using revoked_encrypt, revoked_with_kv, revoked_postMessage with leaves.
Qed.

Lemma revoked_get (key : string) : leaves revoked (get P key).
Proof.
  unfold get.
  apply leaves_bind; [auto with leaves|intros mode].
  apply leaves_bind; [auto using revoked_encrypt with leaves|intros key'].
  apply leaves_bind; [auto with leaves|intros value].
  repeat apply leaves_if; auto with leaves.
  unfold decrypt_value. destruct value; auto using revoked_decrypt with leaves.
Qed.

Lemma revoked_del (key : string) : leaves revoked (del P key).
Proof.
  unfold del.
  auto 12 using revoked_encrypt, revoked_with_kv, revoked_postMessage with leaves.
Qed.

Lemma revoked_calls (cs : list Call) (this : HareDB) :
  revoked this → revoked (calls P cs this).
Proof.
  revert this. induction cs as [|c cs IH]; intros this HQ; [done|].
  cbn [calls foldl]. apply IH.
  destruct c; cbn [call];
    [by apply revoked_set|by apply revoked_get|by apply revoked_del].
Qed.

End Protection.

(** ** [set] then [get] *)

(** X1: in secure mode [get] returns the value of the [set] before it on
    the same key as [Buffer.from] wrote it and [toString] reads it: for
    every key, the value itself when it has no unpaired surrogate (the
    empty string too), and in general the value with U+FFFD for every
    unpaired surrogate. *)
Lemma get_after_set_secure (P : Platform) (secret : list byte) (this : HareDB)
    (posted : list Message) (key value : string) :
  secretbox_opens P →
  secured P secret this →
  worker this = Some posted →
  (get P key (set P key value this).2).1
  = Normal (JString (Buffer_toString (Buffer_from value)))
  ∧ (well_formed value →
     (get P key (set P key value this).2).1 = Normal (JString value)).
Proof.
  intros Hopens Hsecured Hworker.
  enough ((get P key (set P key value this).2).1
          = Normal (JString (Buffer_toString (Buffer_from value)))) as Hget.
  { split; [done|]. intros Hvalue. by rewrite Hget, Buffer_toString_from. }
  pose proof Hsecured as (Hsk & Hlen & Hmode).
  rewrite (set_run P this posted) by eauto using secured_ready. cbn [snd].
  rewrite !(at_rest_secured P secret) by done.
  set (this' := {| kv := _ |}).
  assert (secured P secret this') as Hsecured' by done.
  rewrite get_run by eauto using secured_ready. cbn [fst].
  rewrite (at_rest_secured P secret) by done.
  unfold this' at 1 2 3. cbn [kv secure sk].
  rewrite assign_property_ciphertext.
  unfold read_property. rewrite lookup_insert_eq, ciphertext_truthy, Hmode.
  unfold this'. cbn [sk andb]. rewrite Hsk.
  cbn [fmap option_fmap option_map from_option id sb_bytes].
  by rewrite decrypt_outcome_ciphertext.
Qed.

Lemma get_after_set_secure_witness :
  (get Toy.platform "user:1"
     (set Toy.platform "user:1" "Zoë, 20 €" Toy.secure_engine).2).1
  = Normal (JString "Zoë, 20 €").
Proof.
  apply (get_after_set_secure Toy.platform (key_bytes Toy.platform "secret")
           Toy.secure_engine [STARTUP "hdb_persistence.sqlite"]
           "user:1" "Zoë, 20 €"
           toy_opens toy_secure_engine_secured toy_secure_engine_worker).
  reflexivity.
Defined.

(** X2: without a secret key [get] returns the value of the [set] before
    it on the same key when the value is not empty and the key is not
    [__proto__]. *)
Lemma get_after_set_insecure (P : Platform) (this : HareDB)
    (posted : list Message) (key value : string) :
  secure this = false →
  worker this = Some posted →
  value ≠ "" →
  key ≠ "__proto__" →
  (get P key (set P key value this).2).1 = Normal (JString value).
Proof.
  intros Hmode Hworker Hvalue Hkey.
  rewrite (set_run P this posted) by eauto using insecure_ready. cbn [snd].
  rewrite !at_rest_insecure by done.
  rewrite get_run by by apply insecure_ready. cbn [fst kv secure].
  rewrite at_rest_insecure by done. rewrite Hmode.
  unfold assign_property. rewrite decide_False by done.
  unfold read_property. rewrite lookup_insert_eq. cbn.
  apply String.eqb_neq in Hvalue. by rewrite Hvalue.
Qed.

Lemma get_after_set_insecure_witness :
  (get Toy.platform "user:1"
     (set Toy.platform "user:1" "alice" Toy.insecure_engine).2).1
  = Normal (JString "alice").
Proof.
  apply (get_after_set_insecure Toy.platform Toy.insecure_engine
           [STARTUP "hdb_persistence.sqlite"] "user:1" "alice").
  - reflexivity.
  - exact toy_insecure_engine_worker.
  - discriminate.
  - discriminate.
Defined.

(** In insecure mode [set] on the key [__proto__] stores nothing, and
    [get] hands back the prototype object. *)
Example get_after_set_proto_insecure :
  (get Toy.platform "__proto__"
     (set Toy.platform "__proto__" "alice" Toy.insecure_engine).2).1
  = Normal (JObject "__proto__").
Proof. vm_compute. reflexivity. Qed.

(** ** [del] *)

(** Secure mode, and insecure mode on a key that [Object.prototype] does
    not have: on an absent key [del] returns [false], changes nothing and
    posts nothing; on a present key it returns [true], removes the key and
    posts the one [DEL] message. *)
Lemma del_spec (P : Platform) (this : HareDB) (posted : list Message) (key : string) :
  ready this →
  worker this = Some posted →
  inherited (at_rest P this key) = false →
  match kv this !! at_rest P this key with
  | None => del P key this = (Normal false, this)
  | Some _ =>
      del P key this
      = (Normal true,
         {| kv := delete (at_rest P this key) (kv this);
            worker := Some (posted ++ [DEL (at_rest P this key)]);
            sk := sk this; secure := secure this |})
  end.
Proof.
  intros Hready Hworker Hown. rewrite (del_run P this posted) by done.
  unfold has_property. rewrite Hown, orb_false_r.
  by destruct (kv this !! at_rest P this key).
Qed.

(** X3: in secure mode [del] on a key that is not in the index returns
    [false], changes nothing and posts nothing; on a key that is in the
    index it returns [true], removes the key and posts the one [DEL]
    message, with the encrypted key. *)
Lemma del_spec_secure (P : Platform) (secret : list byte) (this : HareDB)
    (posted : list Message) (key : string) :
  secured P secret this →
  worker this = Some posted →
  match kv this !! ciphertext P secret key with
  | None => del P key this = (Normal false, this)
  | Some _ =>
      del P key this
      = (Normal true,
         {| kv := delete (ciphertext P secret key) (kv this);
            worker := Some (posted ++ [DEL (ciphertext P secret key)]);
            sk := sk this; secure := secure this |})
  end.
Proof.
  intros Hsecured Hworker.
  rewrite <- (at_rest_secured P secret this) by done.
  apply del_spec; eauto using secured_ready.
  rewrite (at_rest_secured P secret) by done. apply ciphertext_not_inherited.
Qed.

Lemma del_spec_secure_witness :
  match kv Toy.secure_engine
        !! ciphertext Toy.platform (key_bytes Toy.platform "secret") "user:1" with
  | None => del Toy.platform "user:1" Toy.secure_engine = (Normal false, Toy.secure_engine)
  | Some _ =>
      del Toy.platform "user:1" Toy.secure_engine
      = (Normal true,
         {| kv := delete (ciphertext Toy.platform (key_bytes Toy.platform "secret") "user:1")
                    (kv Toy.secure_engine);
            worker := Some ([STARTUP "hdb_persistence.sqlite"]
                            ++ [DEL (ciphertext Toy.platform
                                       (key_bytes Toy.platform "secret") "user:1")]);
            sk := sk Toy.secure_engine; secure := secure Toy.secure_engine |})
  end.
Proof.
  exact (del_spec_secure Toy.platform (key_bytes Toy.platform "secret")
           Toy.secure_engine [STARTUP "hdb_persistence.sqlite"] "user:1"
           toy_secure_engine_secured toy_secure_engine_worker).
Defined.

(** ** Startup reconciliation *)

(** The [meta] table a completed constructor leaves records the mode it
    ran in. *)
Lemma new_HareDB_records_mode (P : Platform) (files : Disk) (path : string)
    (secretKey : option string) (w : World) :
  new_HareDB P files path secretKey = (Normal tt, w) →
  ∃ recorded,
    meta (open_database (disk w) path) !! "secure" = Some recorded
    ∧ String.eqb recorded "true" = requested secretKey.
Proof.
  intros Hnew. destruct (requested secretKey) eqn:Hmode.
  - destruct secretKey as [secretKey|]; [|done].
    destruct (new_HareDB_secure_ok P _ _ _ _ Hmode Hnew) as (-> & Hflag & _).
    cbn [disk]. rewrite open_database_insert. cbn [meta].
    rewrite lookup_insert_or_ignore, decide_False by done.
    rewrite startup_meta_secure. eauto.
  - rewrite new_HareDB_insecure in Hnew by done.
    destruct (String.eqb _ "true") eqn:Hflag; [done|].
    injection Hnew as <-. cbn [disk]. rewrite open_database_insert. cbn [meta].
    rewrite startup_meta_secure. eauto.
Qed.

Lemma length_key_bytes (P : Platform) (secretKey : string) :
  fits P (Some secretKey) →
  length (key_bytes P secretKey) = crypto_secretbox_KEYBYTES P.
Proof.
  unfold fits, key_bytes. cbn [from_option id]. intros Hfit.
  rewrite length_app, length_drop, length_replicate. lia.
Qed.

(** ** Restart *)

(** With a secret key, on a path that names a file: after
    [set(key, value)] and [close()], the messages posted are the startup,
    the write and then the shutdown; once the worker has taken them in that
    order the row is in the file, key and value encrypted, and a new engine
    on the same path with the same secret key starts and returns from
    [get(key)] the value as [toString] reads what [Buffer.from] wrote:
    [value] itself when it has no unpaired surrogate, the empty string
    too. *)
Lemma restart_durability_secure (P : Platform) (files : Disk) (path : string)
    (secretKey : string) (w1 : World) (key value : string) :
  names_file path →
  secretbox_opens P →
  requested (Some secretKey) = true →
  new_HareDB P files path (Some secretKey) = (Normal tt, w1) →
  let secret := key_bytes P secretKey in
  let this1 := (set P key value (this w1)).2 in
  let this2 := (close this1).2 in
  let files2 := run_worker (default [] (worker this2)) (disk w1) in
  worker this2
  = Some [STARTUP path;
          SET (ciphertext P secret key) (ciphertext P secret value);
          SHUTDOWN]
  ∧ key_value (open_database files2 path) !! ciphertext P secret key
    = Some (ciphertext P secret value)
  ∧ ∃ w2,
      new_HareDB P files2 path (Some secretKey) = (Normal tt, w2)
      ∧ (get P key (this w2)).1
        = Normal (JString (Buffer_toString (Buffer_from value)))
      ∧ (well_formed value → (get P key (this w2)).1 = Normal (JString value)).
Proof.
  intros _ Hopens Hmode Hnew secret this1 this2 files2.
  destruct (new_HareDB_secure_inv P _ _ _ _ Hmode Hnew) as [Hfit Hsecure].
  destruct (new_HareDB_secure_ok P _ _ _ _ Hmode Hnew)
    as (Hw1 & Hflag & plain & Htest).
  fold secret in Hw1, Htest.
  set (d := open_database files path) in *.
  set (test := ciphertext P secret "ENCRYPTED TEXT") in *.
  assert (secured P secret (this w1)) as Hsecured.
  { rewrite Hw1. split; [done|]. split; [by apply length_key_bytes|done]. }
  assert (worker this2
          = Some [STARTUP path;
                  SET (ciphertext P secret key) (ciphertext P secret value);
                  SHUTDOWN]) as Hposted.
  { unfold this2, this1.
    rewrite (set_run P (this w1) [STARTUP path])
      by (eauto using secured_ready; by rewrite Hw1).
    rewrite !(at_rest_secured P secret) by done. cbn [snd].
    by apply (close_worker _ [STARTUP path;
                SET (ciphertext P secret key) (ciphertext P secret value)]). }
  assert (files2
          = <[path := {| meta := insert_or_ignore "secure_test_string" test
                                   (startup_meta P true (meta d));
                         key_value := <[ciphertext P secret key
                                          := ciphertext P secret value]>
                                        (key_value d) |}]> files) as Hfiles2.
  { unfold files2. rewrite Hposted. cbn [from_option id].
    rewrite run_worker_set, Hw1. cbn [disk].
    by rewrite open_database_insert, insert_insert_eq. }
  split; [done|].
  split; [by rewrite Hfiles2, open_database_insert; apply lookup_insert_eq|].
  destruct secretKey as [|c s]; [done|].
  rewrite new_HareDB_secure by done. cbv zeta. fold secret test.
  rewrite Hfiles2, open_database_insert. cbn [meta key_value].
  rewrite !lookup_insert_or_ignore.
  rewrite (decide_False (P := "secure_test_string" = "secure")) by done.
  rewrite decide_True by done.
  rewrite startup_meta_secure, startup_meta_test.
  cbn [from_option id bool_text]. rewrite Hflag.
  rewrite Htest. eexists. split; [done|]. cbn [this].
  set (index := load _).
  set (this3 := {| kv := index |}).
  enough ((get P key this3).1
          = Normal (JString (Buffer_toString (Buffer_from value)))) as Hget.
  { split; [done|]. intros Hvalue. by rewrite Hget, Buffer_toString_from. }
  assert (secured P secret this3) as Hsecured3.
  { split; [done|]. split; [by apply length_key_bytes|done]. }
  rewrite get_run by eauto using secured_ready. cbn [fst].
  rewrite (at_rest_secured P secret) by done.
  unfold this3 at 1 2 3. cbn [kv secure sk].
  unfold read_property, index.
  rewrite lookup_load, decide_False, lookup_insert_eq by done.
  rewrite ciphertext_truthy.
  cbn [andb fmap option_fmap option_map from_option id sb_bytes].
  by rewrite decrypt_outcome_ciphertext by (done || by apply length_key_bytes).
Qed.

Lemma restart_durability_secure_witness :
  let P := Toy.platform in
  let path := "hdb_persistence.sqlite" in
  let w1 := (new_HareDB P ∅ path (Some "secret")).2 in
  let this2 := (close (set P "a" "" (this w1)).2).2 in
  let files2 := run_worker (default [] (worker this2)) (disk w1) in
  ∃ w2,
    new_HareDB P files2 path (Some "secret") = (Normal tt, w2)
    ∧ (get P "a" (this w2)).1 = Normal (JString "")
    ∧ (well_formed "" → (get P "a" (this w2)).1 = Normal (JString "")).
Proof.
  exact (proj2 (proj2 (restart_durability_secure Toy.platform ∅
                         "hdb_persistence.sqlite" "secret" _ "a" ""
                         toy_names_file toy_opens eq_refl toy_new_secure))).
Defined.

(** Without a secret key a value that is not empty, under a key other
    than [__proto__], comes back the same way. *)
Lemma restart_durability_insecure (P : Platform) (files : Disk) (path : string)
    (secretKey : option string) (w1 : World) (key value : string) :
  requested secretKey = false →
  new_HareDB P files path secretKey = (Normal tt, w1) →
  value ≠ "" →
  key ≠ "__proto__" →
  let this2 := (close (set P key value (this w1)).2).2 in
  let files2 := run_worker (default [] (worker this2)) (disk w1) in
  ∃ w2,
    new_HareDB P files2 path secretKey = (Normal tt, w2)
    ∧ (get P key (this w2)).1 = Normal (JString value).
Proof.
  intros Hmode Hnew Hvalue Hkey this2 files2.
  pose proof Hnew as Hnew'.
  rewrite new_HareDB_insecure in Hnew by done. cbv zeta in Hnew.
  set (d := open_database files path) in *.
  destruct (String.eqb _ "true") eqn:Hflag; [done|].
  injection Hnew as Hw1. symmetry in Hw1.
  assert (worker this2 = Some [STARTUP path; SET key value; SHUTDOWN]) as Hposted.
  { unfold this2.
    rewrite (set_run P (this w1) [STARTUP path])
      by (by rewrite Hw1 || (apply insecure_ready; by rewrite Hw1)).
    rewrite !at_rest_insecure by by rewrite Hw1. cbn [snd].
    by apply (close_worker _ [STARTUP path; SET key value]). }
  assert (files2
          = <[path := {| meta := startup_meta P false (meta d);
                         key_value := <[key := value]> (key_value d) |}]> files)
    as Hfiles2.
  { unfold files2. rewrite Hposted. cbn [from_option id].
    rewrite run_worker_set, Hw1. cbn [disk].
    by rewrite open_database_insert, insert_insert_eq. }
  rewrite new_HareDB_insecure by done. cbv zeta.
  rewrite Hfiles2, open_database_insert. cbn [meta key_value].
  rewrite startup_meta_secure. cbn [from_option id].
  assert (default (bool_text false) (meta d !! "secure")
          = default "false" (meta d !! "secure")) as -> by done.
  rewrite Hflag. eexists. split; [done|]. cbn [this].
  rewrite get_run by by apply insecure_ready. cbn [fst kv secure].
  rewrite at_rest_insecure by done.
  unfold read_property. rewrite lookup_load, decide_False, lookup_insert_eq by done.
  cbn. apply String.eqb_neq in Hvalue. by rewrite Hvalue.
Qed.

(** ** The older engine *)

(** The older engine's [get] did write to the index: a row that another
    process put in the file is fetched, cached and returned, where the
    present [get] returns [null] and caches nothing. *)
Example older_get_caches :
  let P := Toy.platform in
  let path := "hdb_persistence.sqlite" in
  let w := (new_HareDB P ∅ path (Some "secret")).2 in
  let secret := key_bytes P "secret" in
  let row := SET (ciphertext P secret "a") (ciphertext P secret "1") in
  let w' := {| this := this w; disk := run_worker [STARTUP path; row] (disk w) |} in
  kv (this w') = ∅
  ∧ (Older.get P path "a" w').1 = Normal (JString "1")
  ∧ kv (this (Older.get P path "a" w').2)
    = {[ciphertext P secret "a" := ciphertext P secret "1"]}
  ∧ get P "a" (this w') = (Normal JNull, this w').
Proof. vm_compute. done. Qed.

(** * Further properties of the engine, the worker and the server *)

(** ** The methods in secure mode *)

(** Under one secret key, texts that [Buffer.from] writes differently have
    different ciphertexts: the primitive, opening them, tells them
    apart. *)
Lemma ciphertext_inj (P : Platform) (secret : list byte) (text1 text2 : string) :
  secretbox_opens P →
  length secret = crypto_secretbox_KEYBYTES P →
  ciphertext P secret text1 = ciphertext P secret text2 →
  Buffer_from text1 = Buffer_from text2.
Proof.
  intros Hopens Hlen Heq. unfold ciphertext in Heq.
  apply (f_equal (Buffer_from_JSON_parse P)) in Heq.
  rewrite !Buffer_from_JSON_parse_stringify in Heq. injection Heq as Heq.
  destruct (Hopens (Buffer_from text1)
              (Buffer_alloc (crypto_secretbox_NONCEBYTES P)) secret) as [_ H1];
    [apply length_Buffer_alloc|done|].
  destruct (Hopens (Buffer_from text2)
              (Buffer_alloc (crypto_secretbox_NONCEBYTES P)) secret) as [_ H2];
    [apply length_Buffer_alloc|done|].
  rewrite Heq in H1. congruence.
Qed.

Lemma secured_with (P : Platform) (secret : list byte) (this : HareDB)
    (index : gmap string string) (posted : option (list Message)) :
  secured P secret this →
  secured P secret
    {| kv := index; worker := posted; sk := sk this; secure := secure this |}.
Proof. done. Qed.

Lemma ready_with (this : HareDB) (index : gmap string string)
    (posted : option (list Message)) :
  ready this →
  ready {| kv := index; worker := posted; sk := sk this; secure := secure this |}.
Proof. done. Qed.

(** What [get] completes with in secure mode. *)
Lemma get_secured (P : Platform) (secret : list byte) (this : HareDB) (key : string) :
  secured P secret this →
  get P key this
  = (match kv this !! ciphertext P secret key with
     | Some text =>
         if String.eqb text "" then Normal JNull
         else
           match decrypt_outcome P secret text with
           | Normal plain => Normal (JString plain)
           | Throw e => Throw e
           | Crash => Crash
           end
     | None => Normal JNull
     end, this).
Proof.
  intros Hsecured. pose proof Hsecured as (Hsk & Hlen & Hmode).
  rewrite get_run by eauto using secured_ready. cbv zeta.
  rewrite (at_rest_secured P secret) by done.
  unfold read_property. rewrite ciphertext_not_inherited, Hmode, Hsk.
  destruct (kv this !! ciphertext P secret key) as [text|]; [|done].
  cbn. by destruct (String.eqb text "").
Qed.

Lemma set_secured (P : Platform) (secret : list byte) (this : HareDB)
    (posted : list Message) (key value : string) :
  secured P secret this →
  worker this = Some posted →
  set P key value this
  = (Normal (bool_decide (is_Some (kv this !! ciphertext P secret key))),
     {| kv := <[ciphertext P secret key := ciphertext P secret value]> (kv this);
        worker := Some (posted ++ [SET (ciphertext P secret key)
                                      (ciphertext P secret value)]);
        sk := sk this; secure := secure this |}).
Proof.
  intros Hsecured Hworker.
  rewrite (set_run P this posted) by eauto using secured_ready.
  rewrite !(at_rest_secured P secret) by done.
  rewrite assign_property_ciphertext. unfold has_property.
  by rewrite ciphertext_not_inherited, orb_false_r.
Qed.

Lemma del_secured (P : Platform) (secret : list byte) (this : HareDB)
    (posted : list Message) (key : string) :
  secured P secret this →
  worker this = Some posted →
  del P key this
  = if bool_decide (is_Some (kv this !! ciphertext P secret key))
    then (Normal true,
          {| kv := delete (ciphertext P secret key) (kv this);
             worker := Some (posted ++ [DEL (ciphertext P secret key)]);
             sk := sk this; secure := secure this |})
    else (Normal false, this).
Proof.
  intros Hsecured Hworker.
  rewrite (del_run P this posted) by eauto using secured_ready.
  rewrite !(at_rest_secured P secret) by done. unfold has_property.
  by rewrite ciphertext_not_inherited, orb_false_r.
Qed.

(** X4: in secure mode a second [set] on the same key returns [true], the
    key having been created by the first, and [get] then returns the value
    of the second [set] as [toString] reads what [Buffer.from] wrote: the
    value itself when it has no unpaired surrogate. *)
Theorem set_twice_secure (P : Platform) (secret : list byte) (this : HareDB)
    (posted : list Message) (key value1 value2 : string) :
  secretbox_opens P →
  secured P secret this →
  worker this = Some posted →
  let this1 := (set P key value1 this).2 in
  (set P key value2 this1).1 = Normal true
  ∧ (get P key (set P key value2 this1).2).1
    = Normal (JString (Buffer_toString (Buffer_from value2)))
  ∧ (well_formed value2 →
     (get P key (set P key value2 this1).2).1 = Normal (JString value2)).
Proof.
  intros Hopens Hsecured Hworker this1. pose proof Hsecured as (Hsk & Hlen & Hmode).
  enough ((set P key value2 this1).1 = Normal true
          ∧ (get P key (set P key value2 this1).2).1
            = Normal (JString (Buffer_toString (Buffer_from value2))))
    as [Hset Hget].
  { do 2 (split; [done|]). intros Hvalue. by rewrite Hget, Buffer_toString_from. }
  unfold this1. rewrite (set_secured P secret this posted) by done. cbn [snd].
  erewrite (set_secured P secret) by (by apply secured_with || done).
  cbn [fst snd kv sk secure]. rewrite lookup_insert_eq. split; [done|].
  rewrite (get_secured P secret) by by apply secured_with.
  cbn [fst kv]. rewrite lookup_insert_eq.
  change (String.eqb (ciphertext P secret value2) "") with false. cbv iota.
  by rewrite decrypt_outcome_ciphertext.
Qed.

Lemma set_twice_secure_witness :
  let this1 := (set Toy.platform "user:1" "alice" Toy.secure_engine).2 in
  (set Toy.platform "user:1" "bob" this1).1 = Normal true
  ∧ (get Toy.platform "user:1" (set Toy.platform "user:1" "bob" this1).2).1
    = Normal (JString "bob").
Proof.
  destruct (set_twice_secure Toy.platform (key_bytes Toy.platform "secret")
              Toy.secure_engine [STARTUP "hdb_persistence.sqlite"]
              "user:1" "alice" "bob"
              toy_opens toy_secure_engine_secured toy_secure_engine_worker)
    as (Hset & _ & Hget).
  split; [exact Hset|]. apply Hget. reflexivity.
Defined.

(** X5: in secure mode [set] and [del] on one key leave what [get]
    returns for every other key as it was, where the other key is one
    that [Buffer.from] writes differently; two different keys without
    unpaired surrogates are such ([Buffer_from_inj]). *)
Theorem other_keys_secure (P : Platform) (secret : list byte) (this : HareDB)
    (posted : list Message) (key key' value : string) :
  secretbox_opens P →
  secured P secret this →
  worker this = Some posted →
  Buffer_from key' ≠ Buffer_from key →
  (get P key' (set P key value this).2).1 = (get P key' this).1
  ∧ (get P key' (del P key this).2).1 = (get P key' this).1.
Proof.
  intros Hopens Hsecured Hworker Hne. pose proof Hsecured as (Hsk & Hlen & Hmode).
  assert (ciphertext P secret key ≠ ciphertext P secret key') as Hc.
  { intros Heq. apply Hne. symmetry. by apply (ciphertext_inj P secret). }
  rewrite (set_secured P secret this posted), (del_secured P secret this posted) by done.
  rewrite (get_secured P secret this) by done. cbn [fst snd]. split.
  - rewrite (get_secured P secret) by by apply secured_with.
    cbn [fst kv]. by rewrite lookup_insert_ne.
  - case_bool_decide; cbn [snd].
    + rewrite (get_secured P secret) by by apply secured_with.
      cbn [fst kv]. by rewrite lookup_delete_ne.
    + by rewrite (get_secured P secret this).
Qed.

Lemma other_keys_secure_witness :
  (get Toy.platform "user:2" (set Toy.platform "user:1" "alice" Toy.secure_engine).2).1
  = (get Toy.platform "user:2" Toy.secure_engine).1
  ∧ (get Toy.platform "user:2" (del Toy.platform "user:1" Toy.secure_engine).2).1
    = (get Toy.platform "user:2" Toy.secure_engine).1.
Proof.
  apply (other_keys_secure Toy.platform (key_bytes Toy.platform "secret")
           Toy.secure_engine [STARTUP "hdb_persistence.sqlite"]
           "user:1" "user:2" "alice"
           toy_opens toy_secure_engine_secured toy_secure_engine_worker).
  discriminate.
Defined.

(** Two keys that [Buffer.from] writes alike are one key to the engine:
    what was set under U+FFFD is returned for the unpaired surrogate. *)
Example surrogate_keys_collide :
  lone_surrogate ≠ replacement_character
  ∧ (get Toy.platform lone_surrogate
       (set Toy.platform replacement_character "alice" Toy.secure_engine).2).1
    = Normal (JString "alice").
Proof. vm_compute. by split. Qed.

(** ** [del], then [get] and [del] again *)

(** X6: after [del(key)], whatever it returned, [get(key)] returns [null]
    and a second [del(key)] returns [false], changes nothing and posts
    nothing: in secure mode for every key, without a secret key for every
    key that is not the name of a member of [Object.prototype]. *)
Theorem get_after_del (P : Platform) (this : HareDB) (posted : list Message)
    (key : string) :
  ready this →
  worker this = Some posted →
  (secure this = false → inherited key = false) →
  let this1 := (del P key this).2 in
  (get P key this1).1 = Normal JNull
  ∧ del P key this1 = (Normal false, this1).
Proof.
  intros Hready Hworker Hkey this1.
  assert (inherited (at_rest P this key) = false) as Hown.
  { unfold at_rest.
    destruct (secure this); [apply ciphertext_not_inherited|by apply Hkey]. }
  assert (kv this1 !! at_rest P this key = None
          ∧ ready this1 ∧ (∃ posted1, worker this1 = Some posted1)
          ∧ at_rest P this1 key = at_rest P this key)
    as (Hgone & Hready1 & [posted1 Hworker1] & Hrest).
  { unfold this1. rewrite (del_run P this posted) by done.
    unfold has_property. rewrite Hown, orb_false_r.
    case_bool_decide as Hin; cbn [snd].
    - cbn [kv]. rewrite lookup_delete_eq. repeat split; eauto.
    - repeat split; eauto. by apply eq_None_not_Some. }
  split.
  - rewrite get_run by done. cbn [fst]. rewrite Hrest. unfold read_property.
    by rewrite Hgone, Hown.
  - rewrite (del_run P this1 posted1) by done. rewrite Hrest.
    unfold has_property. by rewrite Hgone, Hown.
Qed.

Lemma get_after_del_witness :
  let this0 := (set Toy.platform "user:1" "alice" Toy.insecure_engine).2 in
  let this1 := (del Toy.platform "user:1" this0).2 in
  (get Toy.platform "user:1" this1).1 = Normal JNull
  ∧ del Toy.platform "user:1" this1 = (Normal false, this1).
Proof.
  apply (get_after_del Toy.platform
           (set Toy.platform "user:1" "alice" Toy.insecure_engine).2
           [STARTUP "hdb_persistence.sqlite"; SET "user:1" "alice"] "user:1").
  - intros Hmode. vm_compute in Hmode. discriminate.
  - vm_compute. reflexivity.
  - intros _. reflexivity.
Defined.

(** ** The names of [Object.prototype], without a secret key *)

(** X7: without a secret key, for a key that is the name of a member of
    [Object.prototype] and was never set, [get] returns that member, not
    [null], and changes nothing; and [set] returns [true], as for a key
    that existed. *)
Theorem inherited_names_insecure (P : Platform) (this : HareDB)
    (posted : list Message) (key value : string) :
  secure this = false →
  worker this = Some posted →
  inherited key = true →
  kv this !! key = None →
  get P key this = (Normal (JObject key), this)
  ∧ (set P key value this).1 = Normal true.
Proof.
  intros Hmode Hworker Hinherited Habsent. split.
  - rewrite get_run by by apply insecure_ready.
    rewrite at_rest_insecure by done. unfold read_property.
    by rewrite Habsent, Hinherited, Hmode.
  - rewrite (set_run P this posted) by eauto using insecure_ready.
    rewrite !at_rest_insecure by done. unfold has_property.
    by rewrite Hinherited, orb_true_r.
Qed.

Lemma inherited_names_insecure_witness :
  get Toy.platform "constructor" Toy.insecure_engine
  = (Normal (JObject "constructor"), Toy.insecure_engine)
  ∧ (set Toy.platform "constructor" "alice" Toy.insecure_engine).1 = Normal true.
Proof.
  apply (inherited_names_insecure Toy.platform Toy.insecure_engine
           [STARTUP "hdb_persistence.sqlite"] "constructor" "alice").
  - reflexivity.
  - exact toy_insecure_engine_worker.
  - reflexivity.
  - vm_compute. reflexivity.
Defined.

(** ** A ciphertext shorter than the tag *)

(** X8: [decrypt] on the JSON text of fewer bytes than the tag has throws
    the RangeError of [Buffer.alloc] for a negative size, not the
    DecryptionError, and does so before the secret key is made readable:
    the object is untouched. *)
Theorem decrypt_short_ciphertext (P : Platform) (this : HareDB) (bytes : list byte) :
  length bytes < crypto_secretbox_MACBYTES P →
  decrypt P (Json.stringify bytes) this = (Throw RuntimeError, this).
Proof.
  intros Hshort. unfold decrypt. rewrite Buffer_from_JSON_parse_stringify.
  by rewrite decide_True.
Qed.

Lemma decrypt_short_ciphertext_witness :
  decrypt Toy.platform "[1,2,3]" Toy.secure_engine
  = (Throw RuntimeError, Toy.secure_engine).
Proof.
  apply (decrypt_short_ciphertext Toy.platform Toy.secure_engine [x01; x02; x03]).
  vm_compute. lia.
Defined.

(** ** No plaintext without authentication *)

(** X9: whenever [decrypt] returns a plaintext, the text it was given
    parsed to a buffer that the primitive authenticated under the all-zero
    nonce and the secret key in [this.sk], the plaintext is the message the
    primitive wrote for that buffer, and all access to the secret key is
    revoked again. *)
Theorem decrypt_only_authenticated (P : Platform) (this this' : HareDB)
    (buffer : SecureBuffer) (value plain : string) :
  sk this = Some buffer →
  decrypt P value this = (Normal plain, this') →
  ∃ encrypted decrypted,
    Buffer_from_JSON_parse P value = Some encrypted
    ∧ crypto_secretbox_open_easy P encrypted
        (Buffer_alloc (crypto_secretbox_NONCEBYTES P)) (sb_bytes buffer)
      = Some decrypted
    ∧ plain = Buffer_toString decrypted
    ∧ this' = revoke this.
Proof.
  intros Hsk Hdecrypt. rewrite (decrypt_eq P this buffer) in Hdecrypt by done.
  injection Hdecrypt as Houtcome Hthis.
  destruct (decrypt_outcome_Normal P _ _ _ Houtcome)
    as (encrypted & decrypted & Hparse & Hopen & ->).
  exists encrypted, decrypted. do 3 (split; [done|]).
  rewrite Hparse in Hthis. unfold decrypt_outcome in Houtcome.
  rewrite Hparse in Houtcome. by case_decide.
Qed.

Lemma decrypt_only_authenticated_witness :
  ∃ encrypted decrypted,
    Buffer_from_JSON_parse Toy.platform
      (ciphertext Toy.platform (key_bytes Toy.platform "secret") "alice")
    = Some encrypted
    ∧ crypto_secretbox_open_easy Toy.platform encrypted
        (Buffer_alloc (crypto_secretbox_NONCEBYTES Toy.platform))
        (key_bytes Toy.platform "secret")
      = Some decrypted
    ∧ "alice" = Buffer_toString decrypted
    ∧ Toy.secure_engine = revoke Toy.secure_engine.
Proof.
  apply (decrypt_only_authenticated Toy.platform Toy.secure_engine Toy.secure_engine
           {| sb_bytes := key_bytes Toy.platform "secret"; sb_state := NoAccess |}
           (ciphertext Toy.platform (key_bytes Toy.platform "secret") "alice") "alice").
  - exact toy_secure_engine_sk.
  - vm_compute. reflexivity.
Defined.

(** ** The constructor, case by case *)

Section ConstructorFacts.

Context (P : Platform).

(** Key material longer than the primitive's key: the object and the
    files at the RangeError. *)
Lemma new_HareDB_too_long_state (files : Disk) (path : string) (c : ascii) (s : string) :
  ¬ fits P (Some (String c s)) →
  new_HareDB P files path (Some (String c s))
  = (Throw RuntimeError,
     {| this :=
          {| kv := ∅; worker := None;
             sk := Some (sodium_malloc (sodium_malloc_fill P)
                           (crypto_secretbox_KEYBYTES P));
             secure := false |};
        disk := files |}).
Proof.
  intros Hfit. unfold fits in Hfit. cbn [from_option id] in Hfit.
  unfold new_HareDB, constructor. unfold_monad. cbn.
  unfold TypedArray_set. rewrite length_replicate.
  by rewrite decide_False by done.
Qed.

(** Memory that could not be secured: the object and the files at the
    FatalSecurityError. The [close()] before the [throw] finds neither
    [this.worker] nor [this.secure] set and does nothing. *)
Lemma new_HareDB_unsecured_state (files : Disk) (path : string) (c : ascii) (s : string) :
  fits P (Some (String c s)) →
  sodium_malloc_secure P = false →
  new_HareDB P files path (Some (String c s))
  = (Throw FatalSecurityError,
     {| this :=
          {| kv := ∅; worker := None;
             sk := Some {| sb_bytes := key_bytes P (String c s);
                           sb_state := NoAccess |};
             secure := false |};
        disk := files |}).
Proof.
  intros Hfit Hsecure. unfold fits in Hfit. cbn [from_option id] in Hfit.
  unfold new_HareDB, constructor. unfold_monad. cbn.
  unfold TypedArray_set. rewrite length_replicate.
  rewrite decide_True by done. cbn. by rewrite Hsecure.
Qed.

Lemma new_HareDB_Started (files : Disk) (path : string) (secretKey : option string) :
  Started files path
    (new_HareDB P files path secretKey).1 (new_HareDB P files path secretKey).2.
Proof.
  destruct (requested secretKey) eqn:Hmode.
  - destruct secretKey as [[|c s]|]; try done.
    destruct (decide (fits P (Some (String c s)))) as [Hfit|Hfit].
    + destruct (sodium_malloc_secure P) eqn:Hsecure.
      * rewrite new_HareDB_secure by done. cbv zeta.
        destruct (String.eqb _ "true");
          [destruct (decrypt_outcome _ _ _)|]; cbn [fst snd].
        all: try (apply Started_ready; [eauto|done]).
        all: apply Started_refused; [eauto|done].
      * rewrite new_HareDB_unsecured_state by done. by apply Started_unsecured.
    + rewrite new_HareDB_too_long_state by done. apply Started_too_long.
  - rewrite new_HareDB_insecure by done. cbv zeta.
    destruct (String.eqb _ "true"); cbn [fst snd].
    + by apply Started_refused.
    + by apply Started_ready.
Qed.

(** A completed constructor, in either mode. *)
Lemma new_HareDB_ok (files : Disk) (path : string) (secretKey : option string)
    (w : World) :
  new_HareDB P files path secretKey = (Normal tt, w) →
  ∃ table,
    w = {| this :=
             {| kv := load (key_value (open_database files path));
                worker := Some [STARTUP path];
                sk := if requested secretKey
                      then Some {| sb_bytes := key_bytes P (default "" secretKey);
                                   sb_state := NoAccess |}
                      else None;
                secure := requested secretKey |};
           disk := <[path := {| meta := table;
                                key_value := key_value (open_database files path) |}]>
                     files |}.
Proof.
  intros Hnew. destruct (requested secretKey) eqn:Hmode.
  - destruct secretKey as [secretKey|]; [|done].
    destruct (new_HareDB_secure_ok P _ _ _ _ Hmode Hnew) as (-> & _ & _). eauto.
  - rewrite new_HareDB_insecure in Hnew by done. cbv zeta in Hnew.
    destruct (String.eqb _ "true"); [done|]. injection Hnew as <-. eauto.
Qed.

Lemma new_HareDB_ok_ready (files : Disk) (path : string)
    (secretKey : option string) (w : World) :
  new_HareDB P files path secretKey = (Normal tt, w) →
  ready (this w)
  ∧ worker (this w) = Some [STARTUP path]
  ∧ kv (this w) = load (key_value (open_database files path))
  ∧ secure (this w) = requested secretKey
  ∧ (∀ secretKey', secretKey = Some secretKey' → requested secretKey = true →
       secured P (key_bytes P secretKey') (this w)).
Proof.
  intros Hnew. pose proof Hnew as Hnew'.
  destruct (new_HareDB_ok _ _ _ _ Hnew) as [table ->]. cbn [this].
  split; [|split; [done|split; [done|split; [done|]]]].
  - intros Hmode. cbn [secure] in Hmode. unfold protection. cbn [sk]. by rewrite Hmode.
  - intros secretKey' -> Hmode. split; [|split].
    + cbn [sk]. by rewrite Hmode.
    + apply length_key_bytes.
      by destruct (new_HareDB_secure_inv P _ _ _ _ Hmode Hnew').
    + done.
Qed.

(** A store on which the constructor completed opens again with the same
    [secretKey], whatever the rows of its table have become. *)
Lemma new_HareDB_again (files files' : Disk) (path : string)
    (secretKey : option string) (w : World) :
  new_HareDB P files path secretKey = (Normal tt, w) →
  meta (open_database files' path) = meta (open_database (disk w) path) →
  ∃ w',
    new_HareDB P files' path secretKey = (Normal tt, w')
    ∧ this w'
      = {| kv := load (key_value (open_database files' path));
           worker := Some [STARTUP path]; sk := sk (this w);
           secure := secure (this w) |}
    ∧ key_value (open_database (disk w') path)
      = key_value (open_database files' path).
Proof.
  intros Hnew Hmeta. destruct (requested secretKey) eqn:Hmode.
  - destruct secretKey as [secretKey|]; [|done].
    destruct (new_HareDB_secure_inv P _ _ _ _ Hmode Hnew) as [Hfit Hsecure].
    destruct (new_HareDB_secure_ok P _ _ _ _ Hmode Hnew)
      as (-> & Hflag & plain & Htest).
    cbn [disk this sk secure] in *. rewrite open_database_insert in Hmeta.
    cbn [meta] in Hmeta.
    destruct secretKey as [|c s]; [done|].
    rewrite new_HareDB_secure by done. cbv zeta. rewrite Hmeta.
    rewrite !lookup_insert_or_ignore.
    rewrite (decide_False (P := "secure_test_string" = "secure")) by done.
    rewrite decide_True by done.
    rewrite startup_meta_secure, startup_meta_test.
    cbn [from_option id bool_text]. rewrite Hflag, Htest.
    eexists. split; [done|]. cbn [this disk]. split; [done|].
    by rewrite open_database_insert.
  - rewrite new_HareDB_insecure in Hnew by done. cbv zeta in Hnew.
    destruct (String.eqb _ "true") eqn:Hflag; [done|]. injection Hnew as <-.
    cbn [disk this sk secure] in *. rewrite open_database_insert in Hmeta.
    cbn [meta] in Hmeta.
    rewrite new_HareDB_insecure by done. cbv zeta. rewrite Hmeta.
    rewrite startup_meta_secure. cbn [from_option id].
    assert (default (bool_text false) (meta (open_database files path) !! "secure")
            = default "false" (meta (open_database files path) !! "secure"))
      as -> by done.
    rewrite Hflag. eexists. split; [done|]. cbn [this disk]. split; [done|].
    by rewrite open_database_insert.
Qed.

End ConstructorFacts.

(** X10: the first start, on a path that names a file and has no file
    yet, with or without a secret key (the empty secret key counts as
    none), the primitive opening what it sealed. The constructor throws
    neither the ConfigurationError nor the WrongKeyError; and when it
    completes (the key material fits, the memory could be secured and
    SQLite could open the database) it is in the mode asked for, with an
    empty index, the one [STARTUP] message posted, the mode recorded in
    [meta] and no row in [key_value]; in secure mode every [get] then
    returns [null]. *)
Theorem first_start (P : Platform) (files : Disk) (path : string)
    (secretKey : option string) (w : World) :
  names_file path →
  secretbox_opens P →
  files !! path = None →
  (new_HareDB P files path secretKey).1 ≠ Throw ConfigurationError
  ∧ (new_HareDB P files path secretKey).1 ≠ Throw WrongKeyError
  ∧ (new_HareDB P files path secretKey = (Normal tt, w) →
     secure (this w) = requested secretKey
     ∧ kv (this w) = ∅
     ∧ worker (this w) = Some [STARTUP path]
     ∧ meta (open_database (disk w) path) !! "secure"
       = Some (bool_text (requested secretKey))
     ∧ key_value (open_database (disk w) path) = ∅
     ∧ (requested secretKey = true →
        ∀ key, get P key (this w) = (Normal JNull, this w))).
Proof.
  intros _ Hopens Hfresh.
  assert (open_database files path = {| meta := ∅; key_value := ∅ |}) as Hd.
  { unfold open_database. by rewrite Hfresh. }
  assert (load ∅ = ∅) as Hload.
  { apply map_eq. intros k. rewrite lookup_load, lookup_empty. by case_decide. }
  destruct (requested secretKey) eqn:Hmode.
  - destruct (decide (fits P secretKey)) as [Hfit|Hfit].
    2: { pose proof (new_HareDB_too_long P files path secretKey Hmode Hfit) as Hend.
         rewrite Hend. do 2 (split; [done|]). intros Hnew. by rewrite Hnew in Hend. }
    destruct (sodium_malloc_secure P) eqn:Hsecure.
    2: { pose proof (new_HareDB_unsecured P files path secretKey Hmode Hfit Hsecure)
           as Hend.
         rewrite Hend. do 2 (split; [done|]). intros Hnew. by rewrite Hnew in Hend. }
    destruct secretKey as [[|c s]|]; try done.
    rewrite new_HareDB_secure by eauto. cbv zeta. rewrite Hd. cbn [meta key_value].
    rewrite !lookup_empty. cbn [from_option id].
    change (String.eqb "true" "true") with true. cbv iota.
    rewrite decrypt_outcome_ciphertext by (done || by apply length_key_bytes).
    cbn [fst]. do 2 (split; [done|]). intros [= <-].
    cbn [this disk secure kv worker].
    rewrite open_database_insert. cbn [meta key_value].
    rewrite lookup_insert_or_ignore, decide_False by done.
    rewrite startup_meta_secure, lookup_empty.
    do 5 (split; [done|]). intros _ key.
    rewrite (get_secured P (key_bytes P (String c s))).
    + cbn [kv]. by rewrite Hload, lookup_empty.
    + split; [done|]. split; [by apply length_key_bytes|done].
  - rewrite new_HareDB_insecure by done. cbv zeta. rewrite Hd. cbn [meta key_value].
    rewrite lookup_empty. cbn [from_option id].
    change (String.eqb "false" "true") with false. cbv iota.
    cbn [fst]. do 2 (split; [done|]). intros [= <-].
    cbn [this disk secure kv worker].
    rewrite open_database_insert. cbn [meta key_value].
    rewrite startup_meta_secure, lookup_empty.
    repeat split; done.
Qed.

Lemma first_start_witness :
  let w := (new_HareDB Toy.platform ∅ "hdb_persistence.sqlite" (Some "secret")).2 in
  secure (this w) = true
  ∧ kv (this w) = ∅
  ∧ worker (this w) = Some [STARTUP "hdb_persistence.sqlite"]
  ∧ meta (open_database (disk w) "hdb_persistence.sqlite") !! "secure" = Some "true"
  ∧ key_value (open_database (disk w) "hdb_persistence.sqlite") = ∅
  ∧ (true = true → ∀ key, get Toy.platform key (this w) = (Normal JNull, this w)).
Proof.
  exact (proj2 (proj2 (first_start Toy.platform ∅ "hdb_persistence.sqlite"
                         (Some "secret") _ toy_names_file toy_opens eq_refl))
           toy_new_secure).
Defined.

(** X11: the constructor never changes a row of [key_value]: whatever
    the secret key and however the constructor ends (also with the
    ConfigurationError or the WrongKeyError), the rows of the file are the
    rows it had. *)
Theorem constructor_keeps_rows (P : Platform) (files : Disk) (path : string)
    (secretKey : option string) :
  key_value (open_database (disk (new_HareDB P files path secretKey).2) path)
  = key_value (open_database files path).
Proof.
  destruct (new_HareDB_Started P files path secretKey)
    as [buffer|buffer Hstate|e mode buffer table Hsecure Hinsecure
       |mode buffer table Hsecure Hinsecure]; cbn [disk].
  1,2: done.
  all: by rewrite open_database_insert.
Qed.

(** X12: on memory that [sodium_malloc] could not secure, the constructor
    throws the FatalSecurityError before it opens the database: no file is
    written and no worker started. The [close()] it calls first does not
    zero the secret key, [this.secure] being not yet set: the key material
    is still in [this.sk], all access revoked. *)
Theorem unsecured_memory_keeps_key (P : Platform) (files : Disk) (path : string)
    (secretKey : string) :
  requested (Some secretKey) = true →
  fits P (Some secretKey) →
  sodium_malloc_secure P = false →
  ∃ w,
    new_HareDB P files path (Some secretKey) = (Throw FatalSecurityError, w)
    ∧ disk w = files
    ∧ worker (this w) = None
    ∧ sk (this w)
      = Some {| sb_bytes := key_bytes P secretKey; sb_state := NoAccess |}.
Proof.
  intros Hmode Hfit Hsecure. destruct secretKey as [|c s]; [done|].
  rewrite new_HareDB_unsecured_state by done. eauto.
Qed.

Lemma unsecured_memory_keeps_key_witness :
  ∃ w,
    new_HareDB Toy.unsecured ∅ "hdb_persistence.sqlite" (Some "secret")
    = (Throw FatalSecurityError, w)
    ∧ disk w = ∅
    ∧ worker (this w) = None
    ∧ sk (this w)
      = Some {| sb_bytes := key_bytes Toy.unsecured "secret"; sb_state := NoAccess |}.
Proof.
  apply (unsecured_memory_keeps_key Toy.unsecured ∅ "hdb_persistence.sqlite" "secret").
  - reflexivity.
  - vm_compute. lia.
  - reflexivity.
Defined.

(** X13: a secret key of more bytes than the primitive's key is not cut
    short: the constructor throws the RangeError of [this.sk.set], before
    it opens the database; no file is written and no worker started. *)
Theorem secret_key_too_long (P : Platform) (files : Disk) (path : string)
    (secretKey : string) :
  ¬ fits P (Some secretKey) →
  ∃ w,
    new_HareDB P files path (Some secretKey) = (Throw RuntimeError, w)
    ∧ disk w = files
    ∧ worker (this w) = None.
Proof.
  intros Hfit. destruct secretKey as [|c s].
  - exfalso. apply Hfit. unfold fits, Buffer_from. cbn. lia.
  - rewrite new_HareDB_too_long_state by done. eauto.
Qed.

Lemma secret_key_too_long_witness :
  ∃ w,
    new_HareDB Toy.platform ∅ "hdb_persistence.sqlite"
      (Some "0123456789abcdef0123456789abcdef0")
    = (Throw RuntimeError, w)
    ∧ disk w = ∅
    ∧ worker (this w) = None.
Proof.
  apply (secret_key_too_long Toy.platform ∅ "hdb_persistence.sqlite"
           "0123456789abcdef0123456789abcdef0").
  vm_compute. lia.
Defined.

(** ** The index and the table *)

Lemma load_insert (key value : string) (table : gmap string string) :
  load (<[key := value]> table) = assign_property key value (load table).
Proof.
  apply map_eq. intros k. rewrite lookup_assign_property, !lookup_load.
  destruct (decide (k = "__proto__")) as [->|Hk].
  - case_decide as H; [|done]. by destruct H as [-> ?].
  - destruct (decide (key = k)) as [->|Hne].
    + by rewrite lookup_insert_eq, decide_True.
    + rewrite lookup_insert_ne by done. by rewrite decide_False by (intros [? _]; done).
Qed.

Lemma load_delete (key : string) (table : gmap string string) :
  load (delete key table) = delete key (load table).
Proof.
  apply map_eq. intros k. rewrite lookup_load.
  destruct (decide (key = k)) as [->|Hne].
  - rewrite !lookup_delete_eq. by case_decide.
  - rewrite !lookup_delete_ne by done. by rewrite lookup_load.
Qed.

Lemma replay_app (ms1 ms2 : list Message) (table : gmap string string) :
  replay (ms1 ++ ms2) table = replay ms2 (replay ms1 table).
Proof. apply foldl_app. Qed.

Lemma eta_HareDB (this : HareDB) :
  {| kv := kv this; worker := worker this; sk := sk this; secure := secure this |}
  = this.
Proof. by destruct this. Qed.

Lemma eta_Database (d : Database) :
  {| meta := meta d; key_value := key_value d |} = d.
Proof. by destruct d. Qed.

Section Mirror.

Context (P : Platform).

(** One call on an engine whose index mirrors [table]: the messages it
    posts, all of them writes, and the index after it, which mirrors the
    table after their statements. *)
Lemma call_mirror (this : HareDB) (posted : list Message)
    (table : gmap string string) (c : Call) :
  ready this →
  worker this = Some posted →
  kv this = load table →
  ∃ ms,
    call P c this
    = {| kv := load (replay ms table); worker := Some (posted ++ ms);
         sk := sk this; secure := secure this |}
    ∧ Forall is_write ms
    ∧ ∀ secret, secured P secret this → Forall (sealed P secret) ms.
Proof.
  intros Hready Hworker Hkv. destruct c as [key value|key|key]; cbn [call].
  - exists [SET (at_rest P this key) (at_rest P this value)].
    rewrite (set_run P this posted) by done. cbn [snd]. split; [|split].
    + unfold replay. cbn [foldl statement]. by rewrite load_insert, Hkv.
    + by apply Forall_singleton.
    + intros secret Hsecured. rewrite !(at_rest_secured P secret) by done.
      apply Forall_singleton. cbn. eauto.
  - exists []. rewrite get_run by done. cbn [snd]. rewrite app_nil_r.
    split; [|by split]. cbn [replay foldl]. by rewrite <- Hkv, <- Hworker, eta_HareDB.
  - rewrite (del_run P this posted) by done.
    destruct (has_property _ _); cbn [snd].
    + exists [DEL (at_rest P this key)]. split; [|split].
      * unfold replay. cbn [foldl statement]. by rewrite load_delete, Hkv.
      * by apply Forall_singleton.
      * intros secret Hsecured. rewrite !(at_rest_secured P secret) by done.
        apply Forall_singleton. cbn. eauto.
    + exists []. rewrite app_nil_r. split; [|by split]. cbn [replay foldl].
      by rewrite <- Hkv, <- Hworker, eta_HareDB.
Qed.

Lemma calls_mirror (cs : list Call) (this : HareDB) (posted : list Message)
    (table : gmap string string) :
  ready this →
  worker this = Some posted →
  kv this = load table →
  ∃ ms,
    calls P cs this
    = {| kv := load (replay ms table); worker := Some (posted ++ ms);
         sk := sk this; secure := secure this |}
    ∧ Forall is_write ms
    ∧ ∀ secret, secured P secret this → Forall (sealed P secret) ms.
Proof.
  revert this posted table.
  induction cs as [|c cs IH]; intros this posted table Hready Hworker Hkv.
  - exists []. rewrite app_nil_r. split; [|by split]. cbn [calls replay foldl].
    by rewrite <- Hkv, <- Hworker, eta_HareDB.
  - destruct (call_mirror this posted table c) as (ms1 & Hcall & Hw1 & Hs1); [done..|].
    cbn [calls foldl]. fold (calls P cs (call P c this)). rewrite Hcall.
    destruct (IH {| kv := load (replay ms1 table); worker := Some (posted ++ ms1);
                    sk := sk this; secure := secure this |}
                (posted ++ ms1) (replay ms1 table))
      as (ms2 & Hcalls & Hw2 & Hs2); [by apply ready_with|done..|].
    exists (ms1 ++ ms2). rewrite Hcalls. cbn [sk secure].
    rewrite replay_app, app_assoc. split; [done|]. split.
    + by apply Forall_app.
    + intros secret Hsecured. apply Forall_app. split; [by apply Hs1|].
      apply Hs2. by apply secured_with.
Qed.

(** What [get] completes with depends on the index, the mode and the
    secret key only. *)
Lemma get_same (this this' : HareDB) (key : string) :
  ready this →
  kv this' = kv this →
  sk this' = sk this →
  secure this' = secure this →
  (get P key this').1 = (get P key this).1.
Proof.
  intros Hready Hkv Hsk Hmode.
  assert (ready this') as Hready'.
  { unfold ready, protection. by rewrite Hsk, Hmode. }
  rewrite !get_run by done. cbn [fst]. unfold at_rest.
  by rewrite Hkv, Hsk, Hmode.
Qed.

End Mirror.

(** ** The worker, message by message *)

Lemma run_connected (path : string) (ms : list Message) :
  Forall is_write ms →
  ∀ (files : Disk) (d : Database),
    foldl (λ state message, onmessage message state)
      ({| db := Some path; exited := false |}, <[path := d]> files) ms
    = ({| db := Some path; exited := false |},
       <[path := on_key_value (replay ms) d]> files).
Proof.
  induction 1 as [|m ms Hm _ IH]; intros files d.
  - cbn. unfold on_key_value, replay. cbn. by rewrite eta_Database.
  - cbn [foldl]. destruct m as [p|key value|key|]; try done.
    all: cbn [onmessage exited db]; rewrite open_database_insert, insert_insert_eq, IH.
    all: done.
Qed.

(** The worker of one engine: started on [path], told the writes [ms],
    then shut down. *)
Lemma run_worker_session (path : string) (ms : list Message) (files : Disk) :
  Forall is_write ms →
  run_worker (STARTUP path :: ms ++ [SHUTDOWN]) files
  = <[path := on_key_value (replay ms) (open_database files path)]> files.
Proof.
  intros Hms. unfold run_worker. cbn [foldl onmessage exited].
  rewrite foldl_app, run_connected by done. done.
Qed.

Lemma onmessage_exited (w : WorkerState) (files : Disk) (ms : list Message) :
  exited w = true →
  foldl (λ state message, onmessage message state) (w, files) ms = (w, files).
Proof.
  intros Hexited. induction ms as [|m ms IH]; [done|].
  cbn [foldl]. unfold onmessage at 2. by rewrite Hexited.
Qed.

Lemma onmessage_connected (m : Message) (state : WorkerState * Disk) :
  is_Some (db state.1) → is_Some (db (onmessage m state).1).
Proof.
  destruct state as [w files]. cbn [fst]. intros [path Hdb]. unfold onmessage.
  destruct (exited w); [cbn; by rewrite Hdb|].
  destruct m; rewrite ?Hdb; cbn; rewrite ?Hdb; done.
Qed.

Lemma foldl_connected (ms : list Message) (state : WorkerState * Disk) :
  is_Some (db state.1) →
  is_Some (db (foldl (λ state message, onmessage message state) state ms).1).
Proof.
  revert state. induction ms as [|m ms IH]; intros state Hdb; [done|].
  cbn [foldl]. apply IH. by apply onmessage_connected.
Qed.

Lemma onmessage_SHUTDOWN (state : WorkerState * Disk) :
  is_Some (db state.1) → exited (onmessage SHUTDOWN state).1 = true.
Proof.
  destruct state as [w files]. cbn [fst]. intros [path Hdb]. unfold onmessage.
  destruct (exited w) eqn:Hexited; [done|]. by rewrite Hdb.
Qed.

(** A worker that was started takes nothing in after [SHUTDOWN]. *)
Lemma run_worker_after_shutdown (path : string) (ms ms' : list Message)
    (files : Disk) :
  run_worker (STARTUP path :: ms ++ SHUTDOWN :: ms') files
  = run_worker (STARTUP path :: ms ++ [SHUTDOWN]) files.
Proof.
  unfold run_worker. cbn [foldl]. rewrite !foldl_app. cbn [foldl].
  set (state0 := onmessage (STARTUP path) _).
  pose proof (onmessage_SHUTDOWN _ (foldl_connected ms state0 ltac:(by eexists)))
    as Hexited.
  destruct (onmessage SHUTDOWN _) as [w files']. cbn [fst] in Hexited.
  by rewrite onmessage_exited.
Qed.

(** X14: the worker on a file that exists, started on it, told the
    writes [ms] and then one more write on [key] before the shutdown: after
    a [SET] the row of [key] holds the value of that [SET], after a [DEL]
    there is no row of [key]; the rows of all other keys are what [ms]
    alone leaves; and the table [meta] is as it was. *)
Theorem worker_last_write_wins (path : string) (ms : list Message) (files : Disk)
    (key value : string) :
  is_Some (files !! path) →
  Forall is_write ms →
  let after m :=
    open_database (run_worker (STARTUP path :: ms ++ [m; SHUTDOWN]) files) path in
  key_value (after (SET key value)) !! key = Some value
  ∧ key_value (after (DEL key)) !! key = None
  ∧ (∀ k m, k ≠ key → m = SET key value ∨ m = DEL key →
       key_value (after m) !! k
       = key_value (open_database
                      (run_worker (STARTUP path :: ms ++ [SHUTDOWN]) files) path) !! k)
  ∧ ∀ m, meta (after m) = meta (open_database files path).
Proof.
  intros _ Hms after.
  assert (∀ m, is_write m →
            after m = on_key_value (λ table, statement m (replay ms table))
                        (open_database files path)) as Hafter.
  { intros m Hm. unfold after.
    change (ms ++ [m; SHUTDOWN]) with (ms ++ [m] ++ [SHUTDOWN]).
    rewrite app_assoc, run_worker_session, open_database_insert
      by (apply Forall_app; split; [done|by apply Forall_singleton]).
    unfold on_key_value. by rewrite replay_app. }
  split; [|split; [|split]].
  - rewrite Hafter by done. cbn. apply lookup_insert_eq.
  - rewrite Hafter by done. cbn. apply lookup_delete_eq.
  - intros k m Hk Hm. rewrite run_worker_session, open_database_insert by done.
    destruct Hm as [-> | ->]; rewrite Hafter by done; cbn.
    + by rewrite lookup_insert_ne.
    + by rewrite lookup_delete_ne.
  - intros m. unfold after. apply run_worker_meta.
Qed.

Lemma worker_last_write_wins_witness :
  let files := disk (new_HareDB Toy.platform ∅ "hdb_persistence.sqlite" None).2 in
  let after m :=
    open_database
      (run_worker (STARTUP "hdb_persistence.sqlite" :: [SET "a" "1"] ++ [m; SHUTDOWN])
         files)
      "hdb_persistence.sqlite" in
  key_value (after (SET "a" "2")) !! "a" = Some "2"
  ∧ key_value (after (DEL "a")) !! "a" = None
  ∧ (∀ k m, k ≠ "a" → m = SET "a" "2" ∨ m = DEL "a" →
       key_value (after m) !! k
       = key_value
           (open_database
              (run_worker (STARTUP "hdb_persistence.sqlite" :: [SET "a" "1"] ++ [SHUTDOWN])
                 files)
              "hdb_persistence.sqlite") !! k)
  ∧ ∀ m, meta (after m) = meta (open_database files "hdb_persistence.sqlite").
Proof.
  apply (worker_last_write_wins "hdb_persistence.sqlite" [SET "a" "1"]
           (disk (new_HareDB Toy.platform ∅ "hdb_persistence.sqlite" None).2) "a" "2").
  - vm_compute. by eexists.
  - by apply Forall_singleton.
Defined.

(** ** [close] *)

Lemma close_run (this : HareDB) :
  (secure this = true → ∃ buffer, sk this = Some buffer) →
  close this
  = (Normal tt,
     {| kv := kv this;
        worker := (λ posted, posted ++ [SHUTDOWN]) <$> worker this;
        sk := if secure this
              then (λ buffer, {| sb_bytes := Buffer_alloc (length (sb_bytes buffer));
                                 sb_state := ReadWrite |}) <$> sk this
              else sk this;
        secure := secure this |}).
Proof.
  destruct this as [index posted buffer mode]. cbn [secure sk kv worker].
  intros Hsk. unfold close, postMessage, sodium_mprotect_readwrite, sodium_mprotect,
    sodium_munlock_sk, read_sk, write_sk, with_sk. unfold_monad. cbn.
  destruct posted as [posted|], mode; cbn.
  all: try done.
  all: destruct (Hsk eq_refl) as [[bytes state] ->]; done.
Qed.

(** X15: [close] on an engine whose constructor completed, after any
    sequence of [set], [get] and [del] calls: it completes, posts
    [SHUTDOWN] after everything posted before, and leaves the index as it
    was; in secure mode the secret key in [this.sk] is then all zero bytes,
    open for reading and writing. *)
Theorem close_after_calls (P : Platform) (files : Disk) (path : string)
    (secretKey : option string) (w : World) (cs : list Call) :
  new_HareDB P files path secretKey = (Normal tt, w) →
  let this1 := calls P cs (this w) in
  ∃ posted,
    worker this1 = Some posted
    ∧ close this1
      = (Normal tt,
         {| kv := kv this1; worker := Some (posted ++ [SHUTDOWN]);
            sk := if requested secretKey
                  then Some {| sb_bytes := Buffer_alloc (crypto_secretbox_KEYBYTES P);
                               sb_state := ReadWrite |}
                  else None;
            secure := requested secretKey |}).
Proof.
  intros Hnew this1.
  destruct (new_HareDB_ok_ready P _ _ _ _ Hnew)
    as (Hready & Hworker & Hkv & Hmode & Hsecured).
  destruct (calls_mirror P cs (this w) _ _ Hready Hworker Hkv)
    as (ms & Hcalls & _ & _).
  fold this1 in Hcalls. eexists. split; [by rewrite Hcalls|].
  destruct (new_HareDB_ok P _ _ _ _ Hnew) as [table Hw].
  assert (sk this1 = sk (this w) ∧ secure this1 = secure (this w)) as [Hsk1 Hmode1]
    by by rewrite Hcalls.
  rewrite close_run.
  - rewrite Hsk1, Hmode1. rewrite Hcalls at 2. cbn [worker]. rewrite Hw.
    cbn [this sk secure].
    destruct (requested secretKey) eqn:Hreq; [|done].
    cbn [fmap option_fmap option_map sb_bytes].
    destruct secretKey as [secretKey|]; [|done].
    rewrite length_key_bytes; [done|].
    by destruct (new_HareDB_secure_inv P _ _ _ _ Hreq Hnew).
  - rewrite Hsk1, Hmode1, Hw. cbn [this sk secure]. intros ->. eauto.
Qed.

Lemma close_after_calls_witness :
  let this1 :=
    calls Toy.platform [CallSet "user:1" "alice"] Toy.secure_engine in
  ∃ posted,
    worker this1 = Some posted
    ∧ close this1
      = (Normal tt,
         {| kv := kv this1; worker := Some (posted ++ [SHUTDOWN]);
            sk := Some {| sb_bytes := Buffer_alloc 32; sb_state := ReadWrite |};
            secure := true |}).
Proof.
  exact (close_after_calls Toy.platform ∅ "hdb_persistence.sqlite" (Some "secret")
           _ [CallSet "user:1" "alice"] toy_new_secure).
Defined.

(** X16: [close] on the object a constructor leaves never throws,
    however the constructor ended: completed, or thrown at the key
    material, at the memory, at the recorded mode or at the test string
    (where [this.worker] is not set). *)
Theorem close_never_throws (P : Platform) (files : Disk) (path : string)
    (secretKey : option string) :
  (close (this (new_HareDB P files path secretKey).2)).1 = Normal tt.
Proof.
  destruct (new_HareDB_Started P files path secretKey)
    as [buffer|buffer Hstate|e mode buffer table Hsecure Hinsecure
       |mode buffer table Hsecure Hinsecure]; cbn [this].
  all: rewrite close_run; [done|cbn [secure sk]]; try done.
  all: intros ->; destruct (Hsecure eq_refl) as [key ->]; eauto.
Qed.

(** ** Restart, after any calls *)

(** X17: an engine whose constructor completed on a file, then any
    sequence of [set], [get] and [del] calls, then [close()]; once the
    worker has taken the messages in the order they were posted, a new
    engine on the same path with the same secret key (or with none, as
    before) starts, its index is the index the first engine had at
    [close()], and every [get] completes with what it completed with on the
    first engine. *)
Theorem restart_restores_index (P : Platform) (files : Disk) (path : string)
    (secretKey : option string) (w1 : World) (cs : list Call) :
  names_file path →
  new_HareDB P files path secretKey = (Normal tt, w1) →
  let this1 := calls P cs (this w1) in
  let this2 := (close this1).2 in
  let files2 := run_worker (default [] (worker this2)) (disk w1) in
  ∃ w2,
    new_HareDB P files2 path secretKey = (Normal tt, w2)
    ∧ kv (this w2) = kv this1
    ∧ ∀ key, (get P key (this w2)).1 = (get P key this1).1.
Proof.
  intros _ Hnew this1 this2 files2.
  destruct (new_HareDB_ok_ready P _ _ _ _ Hnew) as (Hready & Hworker & Hkv & _ & _).
  destruct (calls_mirror P cs (this w1) _ _ Hready Hworker Hkv)
    as (ms & Hcalls & Hwrites & _).
  fold this1 in Hcalls.
  assert (worker this2 = Some (STARTUP path :: ms ++ [SHUTDOWN])) as Hposted.
  { unfold this2. rewrite (close_worker this1 (STARTUP path :: ms)); [done|].
    by rewrite Hcalls. }
  assert (ready this1) as Hready1 by (rewrite Hcalls; by apply ready_with).
  destruct (new_HareDB_ok P _ _ _ _ Hnew) as [table Hw1].
  assert (files2
          = <[path := {| meta := table;
                         key_value := replay ms (key_value (open_database files path)) |}]>
              files) as Hfiles2.
  { unfold files2. rewrite Hposted. cbn [from_option id].
    rewrite run_worker_session by done. rewrite Hw1. cbn [disk].
    by rewrite open_database_insert, insert_insert_eq. }
  destruct (new_HareDB_again P files files2 path secretKey w1 Hnew)
    as (w2 & Hnew2 & Hthis2 & _).
  { rewrite Hfiles2, Hw1. cbn [disk]. by rewrite !open_database_insert. }
  exists w2. split; [done|].
  assert (kv (this w2) = kv this1) as Hindex.
  { rewrite Hthis2, Hcalls. cbn [kv]. by rewrite Hfiles2, open_database_insert. }
  split; [done|]. intros key. apply get_same; [done..| |].
  - rewrite Hthis2, Hcalls. done.
  - rewrite Hthis2, Hcalls. done.
Qed.

Lemma restart_restores_index_witness :
  let P := Toy.platform in
  let path := "hdb_persistence.sqlite" in
  let w1 := (new_HareDB P ∅ path (Some "secret")).2 in
  let this1 :=
    calls P [CallSet "a" "1"; CallSet "b" ""; CallDel "a"; CallGet "b"] (this w1) in
  let this2 := (close this1).2 in
  let files2 := run_worker (default [] (worker this2)) (disk w1) in
  ∃ w2,
    new_HareDB P files2 path (Some "secret") = (Normal tt, w2)
    ∧ kv (this w2) = kv this1
    ∧ ∀ key, (get P key (this w2)).1 = (get P key this1).1.
Proof.
  exact (restart_restores_index Toy.platform ∅ "hdb_persistence.sqlite" (Some "secret")
           _ [CallSet "a" "1"; CallSet "b" ""; CallDel "a"; CallGet "b"]
           toy_names_file toy_new_secure).
Defined.

(** ** What reaches the worker *)

(** X18: in secure mode no plaintext is posted to the worker: after the
    [STARTUP] of the constructor, every message that any sequence of [set],
    [get] and [del] calls posts is a [SET] or a [DEL], and every key and
    value in it is what [encrypt] returns under the secret key for some
    text. *)
Theorem posted_messages_sealed (P : Platform) (files : Disk) (path : string)
    (secretKey : string) (w : World) (cs : list Call) :
  requested (Some secretKey) = true →
  new_HareDB P files path (Some secretKey) = (Normal tt, w) →
  ∃ ms,
    worker (calls P cs (this w)) = Some (STARTUP path :: ms)
    ∧ Forall is_write ms
    ∧ Forall (sealed P (key_bytes P secretKey)) ms.
Proof.
  intros Hmode Hnew.
  destruct (new_HareDB_ok_ready P _ _ _ _ Hnew)
    as (Hready & Hworker & Hkv & _ & Hsecured).
  destruct (calls_mirror P cs (this w) _ _ Hready Hworker Hkv)
    as (ms & Hcalls & Hwrites & Hsealed).
  exists ms. rewrite Hcalls. split; [done|]. split; [done|].
  by apply Hsealed, Hsecured.
Qed.

Lemma posted_messages_sealed_witness :
  ∃ ms,
    worker (calls Toy.platform [CallSet "a" "1"; CallDel "a"] Toy.secure_engine)
    = Some (STARTUP "hdb_persistence.sqlite" :: ms)
    ∧ Forall is_write ms
    ∧ Forall (sealed Toy.platform (key_bytes Toy.platform "secret")) ms.
Proof.
  exact (posted_messages_sealed Toy.platform ∅ "hdb_persistence.sqlite" "secret"
           _ [CallSet "a" "1"; CallDel "a"] eq_refl toy_new_secure).
Defined.

(** *** A call only adds to the messages posted *)

Section Posted.

Context (P : Platform) (posted : list Message).

Lemma posted_after_mprotect (state : ProtectionState) :
  leaves (posted_after posted) (sodium_mprotect state).
Proof.
  intros this HQ. unfold sodium_mprotect. by destruct (sk this).
Qed.

Lemma posted_after_read_sk : leaves (posted_after posted) read_sk.
Proof.
  intros this HQ. unfold read_sk. by destruct (sk this) as [[bytes []]|].
Qed.

Lemma posted_after_encrypt (value : string) :
  leaves (posted_after posted) (encrypt P value).
Proof.
  unfold encrypt, sodium_mprotect_readonly, sodium_mprotect_noaccess.
  auto 10 using posted_after_mprotect, posted_after_read_sk with leaves.
Qed.

Lemma posted_after_with_kv (f : gmap string string → gmap string string) :
  leaves (posted_after posted) (modify (with_kv f)).
Proof. by intros this HQ. Qed.

Lemma posted_after_postMessage (message : Message) :
  leaves (posted_after posted) (postMessage message).
Proof.
  intros this [more Hworker]. unfold postMessage. rewrite Hworker. cbn.
  exists (more ++ [message]). by rewrite app_assoc.
Qed.

Lemma posted_after_set (key value : string) :
  leaves (posted_after posted) (set P key value).
Proof.
  unfold set.
  auto 12 using posted_after_encrypt, posted_after_with_kv,
    posted_after_postMessage with leaves.
Qed.

Lemma posted_after_del (key : string) :
  leaves (posted_after posted) (del P key).
Proof.
  unfold del.
  auto 12 using posted_after_encrypt, posted_after_with_kv,
    posted_after_postMessage with leaves.
Qed.

Lemma posted_after_call (c : Call) (this : HareDB) :
  posted_after posted this → posted_after posted (call P c this).
Proof.
  destruct c as [key value|key|key]; cbn [call].
  - apply posted_after_set.
  - intros [more Hworker]. exists more.
    by rewrite (proj2 (same_index_get P (kv this) (worker this) key this
                         (conj eq_refl eq_refl))).
  - apply posted_after_del.
Qed.

Lemma posted_after_calls (cs : list Call) (this : HareDB) :
  posted_after posted this → posted_after posted (calls P cs this).
Proof.
  revert this. induction cs as [|c cs IH]; intros this HQ; [done|].
  cbn [calls foldl]. apply IH. by apply posted_after_call.
Qed.

End Posted.

(** X19: what is written after [close()] does not reach the file. The
    worker leaves at [SHUTDOWN]: whatever [set], [get] and [del] calls
    follow the [close()], the file the worker leaves is the one it leaves
    without them, while the calls go on changing the index. *)
Theorem writes_after_close_are_lost (P : Platform) (files : Disk) (path : string)
    (secretKey : option string) (w : World) (cs cs' : list Call) :
  names_file path →
  new_HareDB P files path secretKey = (Normal tt, w) →
  let closed := (close (calls P cs (this w))).2 in
  run_worker (default [] (worker (calls P cs' closed))) (disk w)
  = run_worker (default [] (worker closed)) (disk w).
Proof.
  intros _ Hnew closed.
  destruct (new_HareDB_ok_ready P _ _ _ _ Hnew) as (_ & Hworker & _).
  destruct (posted_after_calls P [STARTUP path] cs (this w)) as [ms Hms].
  { exists []. by rewrite app_nil_r. }
  assert (worker closed = Some (STARTUP path :: ms ++ [SHUTDOWN])) as Hclosed.
  { unfold closed. by rewrite (close_worker _ _ Hms). }
  destruct (posted_after_calls P (STARTUP path :: ms ++ [SHUTDOWN]) cs' closed)
    as [ms' Hms'].
  { exists []. by rewrite app_nil_r. }
  rewrite Hms', Hclosed. cbn [from_option id].
  cbn [app]. rewrite <- app_assoc. cbn [app].
  apply run_worker_after_shutdown.
Qed.

Lemma writes_after_close_are_lost_witness :
  let P := Toy.platform in
  let w := (new_HareDB P ∅ "hdb_persistence.sqlite" None).2 in
  let closed := (close (calls P [CallSet "a" "1"] (this w))).2 in
  run_worker (default [] (worker (calls P [CallSet "b" "2"] closed))) (disk w)
  = run_worker (default [] (worker closed)) (disk w).
Proof.
  exact (writes_after_close_are_lost Toy.platform ∅ "hdb_persistence.sqlite" None
           _ [CallSet "a" "1"] [CallSet "b" "2"] toy_names_file toy_new_insecure).
Defined.

(** ** The older engine: [set], [get] and [del] on its own connection *)

Section OlderFacts.

Context (P : Platform) (path : string) (secret : list byte).

Lemma older_set_run (w : World) (key value : string) :
  sk (this w) = Some {| sb_bytes := secret; sb_state := NoAccess |} →
  Older.set P path key value w
  = (Normal tt,
     {| this :=
          with_kv (λ object, <[ciphertext P secret key := ciphertext P secret value]> object)
            (this w);
        disk :=
          <[path := on_key_value
                      (λ table, <[ciphertext P secret key := ciphertext P secret value]> table)
                      (open_database (disk w) path)]> (disk w) |}).
Proof.
  intros Hsk. destruct w as [T D]. cbn [this disk] in *.
  unfold Older.set. unfold_monad. unfold gets, modify. cbn [this disk].
  rewrite !(encrypt_secured P secret) by done. cbn [this disk].
  unfold with_kv. by rewrite assign_property_ciphertext.
Qed.

Lemma older_get_run (w : World) (key : string) :
  sk (this w) = Some {| sb_bytes := secret; sb_state := NoAccess |} →
  Older.get P path key w
  = let found text :=
      match decrypt_outcome P secret text with
      | Normal plain => Normal (JString plain)
      | Throw e => Throw e
      | Crash => Crash
      end in
    if truthy (default JUndefined (JString <$> kv (this w) !! ciphertext P secret key))
    then (found (default "" (kv (this w) !! ciphertext P secret key)), w)
    else
      match key_value (open_database (disk w) path) !! ciphertext P secret key with
      | Some text =>
          (found text,
           {| this := with_kv (λ object, <[ciphertext P secret key := text]> object)
                        (this w);
              disk := disk w |})
      | None => (Normal JNull, w)
      end.
Proof.
  intros Hsk. destruct w as [T D]. cbn [this disk] in *.
  unfold Older.get. unfold_monad. unfold gets. cbn [this disk].
  rewrite !(encrypt_secured P secret) by done. cbn [this disk].
  unfold read_property. rewrite ciphertext_not_inherited.
  change (disk {| this := T; disk := D |}) with D.
  destruct (kv T !! ciphertext P secret key) as [text|] eqn:Hkv;
    cbn [fmap option_fmap option_map from_option id].
  - destruct (truthy (JString text)) eqn:Htruthy.
    + unfold decrypt_value, bind. rewrite (decrypt_secured P secret) by done.
      by destruct (decrypt_outcome P secret text).
    + cbv beta. change (disk {| this := T; disk := D |}) with D.
      destruct (key_value (open_database D path) !! _) as [text'|]; [|done].
      cbn [this disk]. unfold with_kv at 1. rewrite assign_property_ciphertext.
      rewrite (decrypt_secured P secret) by done.
      by destruct (decrypt_outcome P secret text').
  - cbn [truthy]. cbv beta. change (disk {| this := T; disk := D |}) with D.
    destruct (key_value (open_database D path) !! _) as [text'|]; [|done].
    cbn [this disk]. unfold with_kv at 1. rewrite assign_property_ciphertext.
    rewrite (decrypt_secured P secret) by done.
    by destruct (decrypt_outcome P secret text').
Qed.

Lemma older_del_run (w : World) (key : string) :
  sk (this w) = Some {| sb_bytes := secret; sb_state := NoAccess |} →
  Older.del P path key w
  = match kv (this w) !! ciphertext P secret key with
    | Some _ =>
        (Normal true,
         {| this := with_kv (λ object, delete (ciphertext P secret key) object) (this w);
            disk := disk w |})
    | None =>
        (Normal (bool_decide
                   (is_Some (key_value (open_database (disk w) path)
                               !! ciphertext P secret key))),
         {| this := this w;
            disk := <[path := on_key_value
                                (λ table, delete (ciphertext P secret key) table)
                                (open_database (disk w) path)]> (disk w) |})
    end.
Proof.
  intros Hsk. destruct w as [T D]. cbn [this disk] in *.
  unfold Older.del. unfold_monad. unfold gets, modify. cbn [this disk].
  rewrite !(encrypt_secured P secret) by done. cbn [this disk].
  unfold read_property. rewrite ciphertext_not_inherited.
  destruct (kv T !! ciphertext P secret key) as [text|] eqn:Hkv; cbn; [done|].
  by destruct (key_value (open_database D path) !! _).
Qed.

End OlderFacts.

(** The older engine writes through: when [set] returns, the row is
    in the file, key and value encrypted, and [get] on the same key returns
    the value, a value without an unpaired surrogate as it was set. *)
Theorem older_get_after_set (P : Platform) (path : string) (secret : list byte)
    (w : World) (key value : string) :
  secretbox_opens P →
  sk (this w) = Some {| sb_bytes := secret; sb_state := NoAccess |} →
  length secret = crypto_secretbox_KEYBYTES P →
  well_formed value →
  let w1 := (Older.set P path key value w).2 in
  key_value (open_database (disk w1) path) !! ciphertext P secret key
  = Some (ciphertext P secret value)
  ∧ (Older.get P path key w1).1 = Normal (JString value).
Proof.
  intros Hopens Hsk Hlen Hvalue w1. unfold w1.
  rewrite (older_set_run P path secret) by done. cbn [snd disk].
  rewrite open_database_insert. cbn [key_value on_key_value]. rewrite lookup_insert_eq.
  split; [done|].
  rewrite (older_get_run P path secret) by done. cbv zeta. cbn [this kv with_kv].
  rewrite lookup_insert_eq.
  cbn [fmap option_fmap option_map from_option id]. rewrite ciphertext_truthy.
  cbn [fst]. by rewrite decrypt_outcome_ciphertext, Buffer_toString_from.
Qed.

Lemma older_get_after_set_witness :
  let P := Toy.platform in
  let path := "hdb_persistence.sqlite" in
  let secret := key_bytes P "secret" in
  let w1 := (Older.set P path "a" "1" {| this := Toy.secure_engine; disk := ∅ |}).2 in
  key_value (open_database (disk w1) path) !! ciphertext P secret "a"
  = Some (ciphertext P secret "1")
  ∧ (Older.get P path "a" w1).1 = Normal (JString "1").
Proof.
  exact (older_get_after_set Toy.platform "hdb_persistence.sqlite"
           (key_bytes Toy.platform "secret")
           {| this := Toy.secure_engine; disk := ∅ |} "a" "1"
           toy_opens toy_secure_engine_sk toy_key_length eq_refl).
Defined.

(** X20: the older engine's [get] on a key that is not in memory but has
    a row in the file, as written by another engine under the same secret
    key: it returns the value of the row and puts the row into the index;
    the file is as it was. The value of the row is what [toString] reads
    from the bytes sealed in it: for the row of [set(key, value)] the
    string [value], when that has no unpaired surrogate. *)
Theorem older_get_from_file (P : Platform) (path : string) (secret : list byte)
    (w : World) (key value : string) :
  secretbox_opens P →
  sk (this w) = Some {| sb_bytes := secret; sb_state := NoAccess |} →
  length secret = crypto_secretbox_KEYBYTES P →
  kv (this w) !! ciphertext P secret key = None →
  key_value (open_database (disk w) path) !! ciphertext P secret key
  = Some (ciphertext P secret value) →
  let cached :=
    {| this :=
         with_kv (λ object,
                    <[ciphertext P secret key := ciphertext P secret value]> object)
           (this w);
       disk := disk w |} in
  Older.get P path key w
  = (Normal (JString (Buffer_toString (Buffer_from value))), cached)
  ∧ (well_formed value →
     Older.get P path key w = (Normal (JString value), cached)).
Proof.
  intros Hopens Hsk Hlen Hkv Hrow cached.
  enough (Older.get P path key w
          = (Normal (JString (Buffer_toString (Buffer_from value))), cached))
    as Hget.
  { split; [done|]. intros Hvalue. by rewrite Hget, Buffer_toString_from. }
  rewrite (older_get_run P path secret) by done. cbv zeta.
  rewrite Hkv, Hrow. cbn [fmap option_fmap option_map from_option id truthy].
  by rewrite decrypt_outcome_ciphertext.
Qed.

Lemma older_get_from_file_witness :
  let P := Toy.platform in
  let path := "hdb_persistence.sqlite" in
  let secret := key_bytes P "secret" in
  let w :=
    {| this := Toy.secure_engine;
       disk := {[ path := {| meta := ∅;
                             key_value := {[ ciphertext P secret "a"
                                             := ciphertext P secret "1" ]} |} ]} |} in
  Older.get P path "a" w
  = (Normal (JString "1"),
     {| this :=
          with_kv (λ object, <[ciphertext P secret "a" := ciphertext P secret "1"]> object)
            (this w);
        disk := disk w |}).
Proof.
  refine (proj2 (older_get_from_file Toy.platform "hdb_persistence.sqlite"
           (key_bytes Toy.platform "secret")
           {| this := Toy.secure_engine;
              disk := {[ "hdb_persistence.sqlite"
                         := {| meta := ∅;
                               key_value :=
                                 {[ ciphertext Toy.platform
                                      (key_bytes Toy.platform "secret") "a"
                                    := ciphertext Toy.platform
                                         (key_bytes Toy.platform "secret") "1" ]} |} ]} |}
           "a" "1" toy_opens toy_secure_engine_sk toy_key_length _ _) _).
  - vm_compute. reflexivity.
  - vm_compute. reflexivity.
  - reflexivity.
Defined.

(** X21: the older engine's [del] on a key held in memory returns [true]
    and removes the key from the index only: the [DELETE] is not run, the
    row stays in the file, and the next [get] finds it there and returns
    the value that was deleted, as [toString] reads what [Buffer.from]
    wrote: the value itself when it has no unpaired surrogate. *)
Theorem older_del_keeps_row (P : Platform) (path : string) (secret : list byte)
    (w : World) (key value : string) :
  secretbox_opens P →
  sk (this w) = Some {| sb_bytes := secret; sb_state := NoAccess |} →
  length secret = crypto_secretbox_KEYBYTES P →
  let w1 := (Older.set P path key value w).2 in
  let w2 := (Older.del P path key w1).2 in
  (Older.del P path key w1).1 = Normal true
  ∧ kv (this w2) !! ciphertext P secret key = None
  ∧ key_value (open_database (disk w2) path) !! ciphertext P secret key
    = Some (ciphertext P secret value)
  ∧ (Older.get P path key w2).1
    = Normal (JString (Buffer_toString (Buffer_from value)))
  ∧ (well_formed value → (Older.get P path key w2).1 = Normal (JString value)).
Proof.
  intros Hopens Hsk Hlen w1 w2.
  enough ((Older.del P path key w1).1 = Normal true
          ∧ kv (this w2) !! ciphertext P secret key = None
          ∧ key_value (open_database (disk w2) path) !! ciphertext P secret key
            = Some (ciphertext P secret value)
          ∧ (Older.get P path key w2).1
            = Normal (JString (Buffer_toString (Buffer_from value))))
    as (Hdel & Hkv & Hrow & Hget).
  { do 4 (split; [done|]). intros Hvalue. by rewrite Hget, Buffer_toString_from. }
  unfold w2, w1.
  rewrite (older_set_run P path secret) by done. cbn [snd].
  rewrite (older_del_run P path secret) by done. cbn [this kv with_kv].
  rewrite lookup_insert_eq. cbn [fst snd this disk kv with_kv].
  rewrite lookup_delete_eq, open_database_insert. cbn [key_value on_key_value].
  rewrite lookup_insert_eq. do 3 (split; [done|]).
  rewrite (older_get_run P path secret) by done. cbv zeta. cbn [this disk kv with_kv].
  rewrite lookup_delete_eq, open_database_insert. cbn [key_value on_key_value].
  rewrite lookup_insert_eq.
  cbn [fmap option_fmap option_map from_option id truthy fst].
  by rewrite decrypt_outcome_ciphertext.
Qed.

Lemma older_del_keeps_row_witness :
  let P := Toy.platform in
  let path := "hdb_persistence.sqlite" in
  let secret := key_bytes P "secret" in
  let w1 := (Older.set P path "a" "1" {| this := Toy.secure_engine; disk := ∅ |}).2 in
  let w2 := (Older.del P path "a" w1).2 in
  (Older.del P path "a" w1).1 = Normal true
  ∧ kv (this w2) !! ciphertext P secret "a" = None
  ∧ key_value (open_database (disk w2) path) !! ciphertext P secret "a"
    = Some (ciphertext P secret "1")
  ∧ (Older.get P path "a" w2).1 = Normal (JString "1").
Proof.
  destruct (older_del_keeps_row Toy.platform "hdb_persistence.sqlite"
              (key_bytes Toy.platform "secret")
              {| this := Toy.secure_engine; disk := ∅ |} "a" "1"
              toy_opens toy_secure_engine_sk toy_key_length)
    as (Hdel & Hkv & Hrow & _ & Hget).
  cbv zeta. split; [exact Hdel|]. split; [exact Hkv|]. split; [exact Hrow|].
  apply Hget. reflexivity.
Defined.

(** X22: in the older engine a key that was [set] takes two [del] calls
    to remove: the first returns [true] for the index, the second returns
    [true] for the row in the file; only then is the row gone, [get]
    returns [null] and a third [del] returns [false]. *)
Theorem older_del_twice (P : Platform) (path : string) (secret : list byte)
    (w : World) (key value : string) :
  sk (this w) = Some {| sb_bytes := secret; sb_state := NoAccess |} →
  let w1 := (Older.set P path key value w).2 in
  let w2 := (Older.del P path key w1).2 in
  let w3 := (Older.del P path key w2).2 in
  (Older.del P path key w1).1 = Normal true
  ∧ (Older.del P path key w2).1 = Normal true
  ∧ key_value (open_database (disk w3) path) !! ciphertext P secret key = None
  ∧ Older.get P path key w3 = (Normal JNull, w3)
  ∧ (Older.del P path key w3).1 = Normal false.
Proof.
  intros Hsk w1 w2 w3. unfold w3, w2, w1.
  rewrite (older_set_run P path secret) by done. cbn [snd].
  rewrite (older_del_run P path secret _ key) by done. cbn [this kv with_kv].
  rewrite lookup_insert_eq. cbn [fst snd]. split; [done|].
  rewrite (older_del_run P path secret _ key) by done. cbn [this disk kv with_kv].
  rewrite lookup_delete_eq, open_database_insert. cbn [key_value on_key_value].
  rewrite lookup_insert_eq. cbn [fst snd this disk]. split; [done|].
  rewrite open_database_insert. cbn [key_value on_key_value].
  rewrite lookup_delete_eq. split; [done|].
  rewrite (older_get_run P path secret) by done. cbv zeta. cbn [this disk kv with_kv].
  rewrite lookup_delete_eq, open_database_insert. cbn [key_value on_key_value].
  rewrite lookup_delete_eq.
  cbn [fmap option_fmap option_map from_option id truthy]. split; [done|].
  rewrite (older_del_run P path secret _ key) by done. cbn [this disk kv with_kv].
  rewrite lookup_delete_eq, open_database_insert. cbn [key_value on_key_value].
  rewrite lookup_delete_eq. cbn [fst]. by rewrite bool_decide_eq_false_2 by by intros [? ?].
Qed.

Lemma older_del_twice_witness :
  let P := Toy.platform in
  let path := "hdb_persistence.sqlite" in
  let secret := key_bytes P "secret" in
  let w1 := (Older.set P path "a" "1" {| this := Toy.secure_engine; disk := ∅ |}).2 in
  let w2 := (Older.del P path "a" w1).2 in
  let w3 := (Older.del P path "a" w2).2 in
  (Older.del P path "a" w1).1 = Normal true
  ∧ (Older.del P path "a" w2).1 = Normal true
  ∧ key_value (open_database (disk w3) path) !! ciphertext P secret "a" = None
  ∧ Older.get P path "a" w3 = (Normal JNull, w3)
  ∧ (Older.del P path "a" w3).1 = Normal false.
Proof.
  exact (older_del_twice Toy.platform "hdb_persistence.sqlite"
           (key_bytes Toy.platform "secret")
           {| this := Toy.secure_engine; disk := ∅ |} "a" "1"
           toy_secure_engine_sk).
Defined.

(** ** The constructors before the [meta] table *)

Section OldFacts.

Context (P : Platform).

Lemma ciphertext_not_proto (secret : list byte) (text : string) :
  ciphertext P secret text ≠ "__proto__".
Proof. done. Qed.

(** The older constructor with key material that fits. *)
Lemma older_new_HareDB (files : Disk) (path secretKey : string) :
  fits P (Some secretKey) →
  Older.new_HareDB P files path secretKey
  = let index := load (key_value (open_database files path)) in
    let files' := <[path := open_database files path]> files in
    if sodium_malloc_secure P
    then (Normal tt,
          {| this := {| kv := index; worker := None;
                        sk := Some {| sb_bytes := key_bytes P secretKey;
                                      sb_state := NoAccess |};
                        secure := false |};
             disk := files' |})
    else (Crash,
          {| this := {| kv := index; worker := None;
                        sk := Some {| sb_bytes := Buffer_alloc (crypto_secretbox_KEYBYTES P);
                                      sb_state := ReadWrite |};
                        secure := false |};
             disk := files' |}).
Proof.
  intros Hfit. unfold fits in Hfit. cbn [from_option id] in Hfit.
  unfold Older.new_HareDB, Older.constructor, process_exit. unfold_monad.
  unfold gets, modify. cbn.
  unfold TypedArray_set. rewrite length_replicate.
  rewrite decide_True by done. cbn.
  rewrite open_database_insert.
  destruct (sodium_malloc_secure P); cbn; [done|].
  unfold Older.close, sodium_mprotect_readwrite, sodium_mprotect, sodium_munlock_sk,
    read_sk, write_sk, with_sk. unfold_monad. cbn.
  rewrite length_app, length_drop, length_replicate.
  by replace (_ + _) with (crypto_secretbox_KEYBYTES P) by lia.
Qed.

(** The constructor of the engine between the two, without a secret
    key. *)
Lemma middle_new_HareDB_insecure (files : Disk) (path : string)
    (secretKey : option string) :
  requested secretKey = false →
  Middle.new_HareDB P files path secretKey
  = (Normal tt,
     {| this := {| kv := load (key_value (open_database files path));
                   worker := Some [STARTUP path]; sk := None; secure := false |};
        disk := <[path := open_database files path]> files |}).
Proof.
  intros Hmode.
  assert (Middle.new_HareDB P files path secretKey = Middle.new_HareDB P files path None)
    as -> by by destruct secretKey as [[|c s]|].
  unfold Middle.new_HareDB, Middle.constructor. unfold_monad. unfold gets, modify. cbn.
  by rewrite open_database_insert.
Qed.

End OldFacts.

(** X23: the older engine does not check the secret key at startup. On
    a file that one engine created and wrote a row to under the secret key
    [keyA], a second engine with another secret key [keyB] starts without
    an error and loads the row; [get] on the key that was set then returns
    [null], the key being looked up under its ciphertext for [keyB]: the
    row is in the index and cannot be read. *)
Theorem older_wrong_key_sees_nothing (P : Platform) (files : Disk) (path : string)
    (keyA keyB key value : string) :
  names_file path →
  files !! path = None →
  fits P (Some keyA) →
  fits P (Some keyB) →
  sodium_malloc_secure P = true →
  ciphertext P (key_bytes P keyB) key ≠ ciphertext P (key_bytes P keyA) key →
  let wA := (Older.new_HareDB P files path keyA).2 in
  let wA1 := (Older.set P path key value wA).2 in
  ∃ wB,
    Older.new_HareDB P (disk wA1) path keyB = (Normal tt, wB)
    ∧ kv (this wB) !! ciphertext P (key_bytes P keyA) key
      = Some (ciphertext P (key_bytes P keyA) value)
    ∧ Older.get P path key wB = (Normal JNull, wB).
Proof.
  intros _ Hfresh HfitA HfitB Hsecure Hdiffer wA wA1.
  assert (open_database files path = {| meta := ∅; key_value := ∅ |}) as Hd.
  { unfold open_database. by rewrite Hfresh. }
  pose proof (older_new_HareDB P files path keyA HfitA) as HA.
  cbv zeta in HA. rewrite Hsecure, Hd in HA. cbn [key_value] in HA.
  assert (disk wA1
          = <[path := {| meta := ∅;
                         key_value := <[ciphertext P (key_bytes P keyA) key
                                        := ciphertext P (key_bytes P keyA) value]> ∅ |}]>
              files) as Hdisk.
  { unfold wA1, wA. rewrite HA. cbn [snd].
    rewrite (older_set_run P path (key_bytes P keyA)) by done.
    cbn [snd disk]. by rewrite open_database_insert, insert_insert_eq. }
  rewrite Hdisk, older_new_HareDB by done. cbv zeta. rewrite Hsecure.
  rewrite open_database_insert. cbn [key_value].
  eexists. split; [done|]. cbn [this kv]. split.
  - rewrite lookup_load, decide_False by apply ciphertext_not_proto.
    apply lookup_insert_eq.
  - rewrite (older_get_run P path (key_bytes P keyB)) by done. cbv zeta.
    cbn [this disk kv].
    rewrite lookup_load, decide_False by apply ciphertext_not_proto.
    rewrite lookup_insert_ne, lookup_empty by done.
    cbn [fmap option_fmap option_map from_option id truthy].
    rewrite open_database_insert. cbn [key_value].
    by rewrite lookup_insert_ne, lookup_empty by done.
Qed.

Lemma older_wrong_key_sees_nothing_witness :
  let P := Toy.platform in
  let path := "hdb_persistence.sqlite" in
  let wA := (Older.new_HareDB P ∅ path "secret").2 in
  let wA1 := (Older.set P path "a" "1" wA).2 in
  ∃ wB,
    Older.new_HareDB P (disk wA1) path "other" = (Normal tt, wB)
    ∧ kv (this wB) !! ciphertext P (key_bytes P "secret") "a"
      = Some (ciphertext P (key_bytes P "secret") "1")
    ∧ Older.get P path "a" wB = (Normal JNull, wB).
Proof.
  apply (older_wrong_key_sees_nothing Toy.platform ∅ "hdb_persistence.sqlite"
           "secret" "other" "a" "1" toy_names_file).
  - reflexivity.
  - vm_compute. lia.
  - vm_compute. lia.
  - reflexivity.
  - vm_compute. discriminate.
Defined.

(** X24: on memory that [sodium_malloc] could not secure, the older
    constructor ends the process with [process.exit(1)], after its
    [close()] has zeroed the secret key in [this.sk]; the rows of the file
    are as they were. *)
Theorem older_unsecured_memory_exits (P : Platform) (files : Disk)
    (path secretKey : string) :
  fits P (Some secretKey) →
  sodium_malloc_secure P = false →
  ∃ w,
    Older.new_HareDB P files path secretKey = (Crash, w)
    ∧ sk (this w)
      = Some {| sb_bytes := Buffer_alloc (crypto_secretbox_KEYBYTES P);
                sb_state := ReadWrite |}
    ∧ key_value (open_database (disk w) path) = key_value (open_database files path).
Proof.
  intros Hfit Hsecure. rewrite older_new_HareDB by done. cbv zeta. rewrite Hsecure.
  eexists. split; [done|]. split; [done|]. cbn [disk].
  by rewrite open_database_insert.
Qed.

Lemma older_unsecured_memory_exits_witness :
  ∃ w,
    Older.new_HareDB Toy.unsecured ∅ "hdb_persistence.sqlite" "secret" = (Crash, w)
    ∧ sk (this w)
      = Some {| sb_bytes := Buffer_alloc 32; sb_state := ReadWrite |}
    ∧ key_value (open_database (disk w) "hdb_persistence.sqlite")
      = key_value (open_database (∅ : Disk) "hdb_persistence.sqlite").
Proof.
  apply (older_unsecured_memory_exits Toy.unsecured ∅ "hdb_persistence.sqlite" "secret").
  - vm_compute. lia.
  - reflexivity.
Defined.

(** X25: in the engine between the two, [close()] has no guards: on an
    engine constructed without a secret key, which the constructor always
    completes, [close()] posts [SHUTDOWN] and then throws, [this.sk] being
    undefined. *)
Theorem middle_close_throws_without_key (P : Platform) (files : Disk)
    (path : string) (secretKey : option string) :
  requested secretKey = false →
  ∃ w,
    Middle.new_HareDB P files path secretKey = (Normal tt, w)
    ∧ Middle.close (this w)
      = (Throw RuntimeError,
         {| kv := kv (this w); worker := Some [STARTUP path; SHUTDOWN];
            sk := None; secure := false |}).
Proof.
  intros Hmode. rewrite middle_new_HareDB_insecure by done.
  eexists. split; [done|]. reflexivity.
Qed.

Lemma middle_close_throws_without_key_witness :
  ∃ w,
    Middle.new_HareDB Toy.platform ∅ "hdb_persistence.sqlite" None = (Normal tt, w)
    ∧ Middle.close (this w)
      = (Throw RuntimeError,
         {| kv := kv (this w);
            worker := Some [STARTUP "hdb_persistence.sqlite"; SHUTDOWN];
            sk := None; secure := false |}).
Proof.
  exact (middle_close_throws_without_key Toy.platform ∅ "hdb_persistence.sqlite"
           None eq_refl).
Defined.

(** ** The server *)

Lemma try_catch_ret {St A} (m : M St A) (a : A) (st : St) (e : Error) :
  (try_catch m (ret a) st).1 ≠ Throw e.
Proof. unfold try_catch, ret. by destruct (m st) as [[?|?|] ?]. Qed.

Section ServerFacts.

Context (P : Platform).

Lemma set_route_secured (secret : list byte) (this : HareDB)
    (posted : list Message) (key value : string) :
  secured P secret this →
  worker this = Some posted →
  try_catch
    (existed ← set P key value;
     if existed : bool then ret (Server.set_status 204)
     else ret (Server.set_status 201))
    (ret (Server.error 500)) this
  = (Normal (Server.set_status
               (if kv this !! ciphertext P secret key is Some _ then 204 else 201)),
     {| kv := <[ciphertext P secret key := ciphertext P secret value]> (kv this);
        worker := Some (posted ++ [SET (ciphertext P secret key)
                                      (ciphertext P secret value)]);
        sk := sk this; secure := secure this |}).
Proof.
  intros Hsecured Hworker. unfold try_catch, bind.
  rewrite (set_secured P secret this posted) by done.
  by destruct (kv this !! ciphertext P secret key).
Qed.

Lemma get_route_secured (secret : list byte) (this : HareDB) (key : string) :
  secured P secret this →
  Server.get_key P key this
  = (match kv this !! ciphertext P secret key with
     | Some text =>
         if String.eqb text "" then Normal (Server.error 404)
         else
           match decrypt_outcome P secret text with
           | Normal plain => Normal (Server.Returned (JString plain))
           | Throw _ => Normal (Server.error 500)
           | Crash => Crash
           end
     | None => Normal (Server.error 404)
     end, this).
Proof.
  intros Hsecured. unfold Server.get_key, try_catch, bind.
  rewrite (get_secured P secret) by done.
  destruct (kv this !! ciphertext P secret key) as [text|]; [|done].
  destruct (String.eqb text ""); [done|].
  by destruct (decrypt_outcome P secret text).
Qed.

Lemma delete_route_secured (secret : list byte) (this : HareDB)
    (posted : list Message) (key : string) :
  secured P secret this →
  worker this = Some posted →
  Server.delete_key P key this
  = match kv this !! ciphertext P secret key with
    | Some _ =>
        (Normal (Server.set_status 204),
         {| kv := delete (ciphertext P secret key) (kv this);
            worker := Some (posted ++ [DEL (ciphertext P secret key)]);
            sk := sk this; secure := secure this |})
    | None => (Normal (Server.error 404), this)
    end.
Proof.
  intros Hsecured Hworker. unfold Server.delete_key, try_catch, bind.
  rewrite (del_secured P secret this posted) by done.
  by destruct (kv this !! ciphertext P secret key).
Qed.

End ServerFacts.

(** X26: a request the hook turns away never reaches the engine. When
    the [authorization] header is not the API key (one of them may be
    undefined), or when the URL does not start with [https] outside dev
    mode, the request is answered with the status 401 or with a redirect to
    the URL with its first [http] replaced by [https], whatever the route;
    the index and the messages posted are as they were. *)
Theorem rejected_request (P : Platform) (env : Server.Env)
    (request : Server.Request) (route : Server.Route) (this : HareDB) :
  Server.authorization request ≠ Server.HAREDB_API_KEY env
  ∨ (String.prefix "https" (Server.url request) = false
     ∧ Server.NODE_ENV env ≠ Some "dev") →
  ∃ reply,
    Server.handle P env request route this = (Normal reply, this)
    ∧ (reply = Server.error 401
       ∨ reply = Server.redirect (Server.replace "http" "https" (Server.url request))).
Proof.
  intros Hrejected. unfold Server.handle, Server.onBeforeHandle.
  destruct (negb (String.prefix "https" _) && negb _) eqn:Hhook; [eauto|].
  destruct Hrejected as [Hkey|[Hurl Henv]].
  - rewrite bool_decide_eq_false_2 by done. cbn. eauto.
  - rewrite Hurl, bool_decide_eq_false_2 in Hhook by done. done.
Qed.

Lemma rejected_request_witness :
  let env :=
    {| Server.NODE_ENV := None; Server.HAREDB_API_KEY := Some "key";
       Server.HAREDB_SECRET_KEY := Some "secret"; Server.HAREDB_PATH := None |} in
  let request :=
    {| Server.url := "https://localhost/user:1"; Server.authorization := None |} in
  ∃ reply,
    Server.handle Toy.platform env request (Server.DELETE_key "user:1")
      Toy.secure_engine
    = (Normal reply, Toy.secure_engine)
    ∧ (reply = Server.error 401
       ∨ reply = Server.redirect
                   (Server.replace "http" "https" (Server.url request))).
Proof.
  apply (rejected_request Toy.platform
           {| Server.NODE_ENV := None; Server.HAREDB_API_KEY := Some "key";
              Server.HAREDB_SECRET_KEY := Some "secret"; Server.HAREDB_PATH := None |}
           {| Server.url := "https://localhost/user:1"; Server.authorization := None |}).
  left. discriminate.
Defined.

(** X27: no request ends in an exception. When the hook lets the request
    through and the engine throws in the [get], [set] or [del] of the
    route, the handler catches the error and answers with the status 500,
    the engine being as the call left it; the status 500 is the answer in
    no other case; and neither the hook nor a handler throws. *)
Theorem handle_never_throws (P : Platform) (env : Server.Env)
    (request : Server.Request) (route : Server.Route) (this : HareDB) :
  (∀ e, (Server.handle P env request route this).1 ≠ Throw e)
  ∧ (Server.onBeforeHandle env request = Server.undefined →
     (∀ e this',
        engine_call P route this = (Throw e, this') →
        Server.handle P env request route this
        = (Normal (Server.error 500), this'))
     ∧ ((Server.handle P env request route this).1 = Normal (Server.error 500) →
        ∃ e, (engine_call P route this).1 = Throw e)).
Proof.
  split.
  { intros e. unfold Server.handle.
    destruct (Server.onBeforeHandle env request); try done.
    destruct route; apply try_catch_ret. }
  intros Hhook. unfold Server.handle. rewrite Hhook.
  unfold engine_call, Server.handler, Server.get_key, Server.get_key_value,
    Server.post_key, Server.delete_key, try_catch, bind, ret.
  destruct route as [key|key value|key body|key].
  - destruct (get P key this) as [[[| |text|name]|e0|] this0];
      (split; [by intros e this' [= <- <-]|cbn; intros [=]; eauto]).
  - destruct (set P key value this) as [[[|]|e0|] this0];
      (split; [by intros e this' [= <- <-]|cbn; intros [=]; eauto]).
  - destruct (set P key body this) as [[[|]|e0|] this0];
      (split; [by intros e this' [= <- <-]|cbn; intros [=]; eauto]).
  - destruct (del P key this) as [[[|]|e0|] this0];
      (split; [by intros e this' [= <- <-]|cbn; intros [=]; eauto]).
Qed.

(** A row whose value is no ciphertext: [get] throws on it and
    [GET /:key] answers with the status 500. *)
Lemma handle_never_throws_witness :
  let env :=
    {| Server.NODE_ENV := None; Server.HAREDB_API_KEY := Some "key";
       Server.HAREDB_SECRET_KEY := Some "secret"; Server.HAREDB_PATH := None |} in
  let request :=
    {| Server.url := "https://localhost/user:1";
       Server.authorization := Some "key" |} in
  let this :=
    with_kv (λ _, {[ ciphertext Toy.platform (key_bytes Toy.platform "secret") "user:1"
                     := "[1,2,3]" ]})
      Toy.secure_engine in
  Server.handle Toy.platform env request (Server.GET_key "user:1") this
  = (Normal (Server.error 500), this).
Proof.
  apply (proj1 (proj2 (handle_never_throws Toy.platform
           {| Server.NODE_ENV := None; Server.HAREDB_API_KEY := Some "key";
              Server.HAREDB_SECRET_KEY := Some "secret"; Server.HAREDB_PATH := None |}
           {| Server.url := "https://localhost/user:1";
              Server.authorization := Some "key" |}
           (Server.GET_key "user:1")
           (with_kv (λ _, {[ ciphertext Toy.platform (key_bytes Toy.platform "secret")
                               "user:1" := "[1,2,3]" ]})
              Toy.secure_engine)) eq_refl) RuntimeError).
  vm_compute. reflexivity.
Defined.

(** X28: on an engine in secure mode, [POST /:key] answers with the
    status 201 for a key that was not in the index and 204 for one that
    was, and the [GET /:key] after it returns the body that was posted, the
    empty one too: the body as [toString] reads what [Buffer.from] wrote,
    which is the body itself when it has no unpaired surrogate. *)
Theorem post_then_get (P : Platform) (secret : list byte) (this : HareDB)
    (posted : list Message) (key body : string) :
  secretbox_opens P →
  secured P secret this →
  worker this = Some posted →
  let r := Server.post_key P key body this in
  r.1 = Normal (Server.set_status
                  (if kv this !! ciphertext P secret key is Some _ then 204 else 201))
  ∧ (Server.get_key P key r.2).1
    = Normal (Server.Returned (JString (Buffer_toString (Buffer_from body))))
  ∧ (well_formed body →
     (Server.get_key P key r.2).1 = Normal (Server.Returned (JString body))).
Proof.
  intros Hopens Hsecured Hworker r. pose proof Hsecured as (_ & Hlen & _).
  enough (r.1 = Normal (Server.set_status
                          (if kv this !! ciphertext P secret key is Some _
                           then 204 else 201))
          ∧ (Server.get_key P key r.2).1
            = Normal (Server.Returned (JString (Buffer_toString (Buffer_from body)))))
    as [Hpost Hget].
  { do 2 (split; [done|]). intros Hbody. by rewrite Hget, Buffer_toString_from. }
  unfold r, Server.post_key.
  rewrite (set_route_secured P secret this posted) by done. split; [done|].
  cbn [snd]. rewrite (get_route_secured P secret) by by apply secured_with.
  cbn [fst kv]. rewrite lookup_insert_eq.
  change (String.eqb (ciphertext P secret body) "") with false. cbv iota.
  by rewrite decrypt_outcome_ciphertext.
Qed.

Lemma post_then_get_witness :
  let r := Server.post_key Toy.platform "user:1" "alice" Toy.secure_engine in
  r.1 = Normal (Server.set_status
                  (if kv Toy.secure_engine
                        !! ciphertext Toy.platform (key_bytes Toy.platform "secret")
                             "user:1"
                   is Some _ then 204 else 201))
  ∧ (Server.get_key Toy.platform "user:1" r.2).1
    = Normal (Server.Returned (JString "alice")).
Proof.
  destruct (post_then_get Toy.platform (key_bytes Toy.platform "secret")
              Toy.secure_engine [STARTUP "hdb_persistence.sqlite"] "user:1" "alice"
              toy_opens toy_secure_engine_secured toy_secure_engine_worker)
    as (Hpost & _ & Hget).
  split; [exact Hpost|]. apply Hget. reflexivity.
Defined.

(** X29: on an engine in secure mode, [DELETE /:key] answers with the
    status 204 for a key in the index and with 404, changing nothing, for a
    key that is not; after it [GET /:key] and a second [DELETE /:key] both
    answer with 404 and change nothing. *)
Theorem delete_then_get (P : Platform) (secret : list byte) (this : HareDB)
    (posted : list Message) (key : string) :
  secured P secret this →
  worker this = Some posted →
  let r := Server.delete_key P key this in
  r.1 = Normal (if kv this !! ciphertext P secret key is Some _
                then Server.set_status 204 else Server.error 404)
  ∧ (kv this !! ciphertext P secret key = None → r.2 = this)
  ∧ Server.get_key P key r.2 = (Normal (Server.error 404), r.2)
  ∧ Server.delete_key P key r.2 = (Normal (Server.error 404), r.2).
Proof.
  intros Hsecured Hworker r. unfold r.
  rewrite (delete_route_secured P secret this posted) by done.
  destruct (kv this !! ciphertext P secret key) as [text|] eqn:Hkv; cbn [fst snd].
  - split; [done|]. split; [done|].
    rewrite (get_route_secured P secret) by by apply secured_with.
    erewrite (delete_route_secured P secret) by (by apply secured_with || done).
    cbn [kv]. by rewrite lookup_delete_eq.
  - split; [done|]. split; [done|].
    rewrite (get_route_secured P secret) by done.
    rewrite (delete_route_secured P secret this posted) by done.
    by rewrite Hkv.
Qed.

Lemma delete_then_get_witness :
  let r := Server.delete_key Toy.platform "user:1" Toy.secure_engine in
  r.1 = Normal (if kv Toy.secure_engine
                     !! ciphertext Toy.platform (key_bytes Toy.platform "secret")
                          "user:1"
                is Some _ then Server.set_status 204 else Server.error 404)
  ∧ (kv Toy.secure_engine
       !! ciphertext Toy.platform (key_bytes Toy.platform "secret") "user:1" = None →
     r.2 = Toy.secure_engine)
  ∧ Server.get_key Toy.platform "user:1" r.2 = (Normal (Server.error 404), r.2)
  ∧ Server.delete_key Toy.platform "user:1" r.2 = (Normal (Server.error 404), r.2).
Proof.
  exact (delete_then_get Toy.platform (key_bytes Toy.platform "secret")
           Toy.secure_engine [STARTUP "hdb_persistence.sqlite"] "user:1"
           toy_secure_engine_secured toy_secure_engine_worker).
Defined.

(** X30: the server asks for [HAREDB_SECRET_KEY] to be set, and takes the
    empty string for set: on a path that has no file the engine then
    starts without a secret key, and what [POST /:key] sends to the worker
    is the key and the body as they came, not encrypted. *)
Theorem start_with_empty_key (P : Platform) (env : Server.Env) (files : Disk) :
  let path := default "hdb_persistence.sqlite" (Server.HAREDB_PATH env) in
  Server.HAREDB_SECRET_KEY env = Some "" →
  files !! path = None →
  ∃ w,
    Server.start P env files = Some (Normal tt, w)
    ∧ secure (this w) = false
    ∧ ∀ key body,
        worker (Server.post_key P key body (this w)).2
        = Some [STARTUP path; SET key body].
Proof.
  intros path Hkey Hfresh. unfold Server.start. rewrite Hkey. fold path.
  rewrite new_HareDB_insecure by done. cbv zeta.
  unfold open_database at 1. rewrite Hfresh. cbn [from_option meta].
  rewrite lookup_empty. cbn [from_option id].
  change (String.eqb "false" "true") with false. cbv iota.
  eexists. split; [done|]. cbn [this secure]. split; [done|]. intros key body.
  unfold Server.post_key, try_catch, bind.
  erewrite set_run by (by apply insecure_ready || done).
  rewrite !at_rest_insecure by done.
  by destruct (has_property _ _).
Qed.

Lemma start_with_empty_key_witness :
  let env :=
    {| Server.NODE_ENV := None; Server.HAREDB_API_KEY := Some "key";
       Server.HAREDB_SECRET_KEY := Some ""; Server.HAREDB_PATH := None |} in
  ∃ w,
    Server.start Toy.platform env ∅ = Some (Normal tt, w)
    ∧ secure (this w) = false
    ∧ ∀ key body,
        worker (Server.post_key Toy.platform key body (this w)).2
        = Some [STARTUP "hdb_persistence.sqlite"; SET key body].
Proof.
  apply (start_with_empty_key Toy.platform
           {| Server.NODE_ENV := None; Server.HAREDB_API_KEY := Some "key";
              Server.HAREDB_SECRET_KEY := Some ""; Server.HAREDB_PATH := None |} ∅).
  - reflexivity.
  - reflexivity.
Defined.

(** * The claims *)

(** C1, as the code has it: [encrypt] takes the all-zero nonce on every
    call, so two calls on the same plaintext under the same secret key
    return the same ciphertext, the JSON text of the secretbox of the
    plaintext under that nonce. *)
Theorem encrypt_twice_same_ciphertext (P : Platform) (this : HareDB)
    (buffer : SecureBuffer) (plaintext : string) :
  sk this = Some buffer →
  (encrypt P plaintext this).1
  = Normal
      (Json.stringify
         (crypto_secretbox_easy P (Buffer_from plaintext)
            (replicate (crypto_secretbox_NONCEBYTES P) x00) (sb_bytes buffer)))
  ∧ (encrypt P plaintext (encrypt P plaintext this).2).1
    = (encrypt P plaintext this).1.
Proof.
  intros Hsk. rewrite (encrypt_eq P this buffer) by done. cbn [fst snd].
  split; [reflexivity|].
  by rewrite (encrypt_eq P _ _ _ (sk_revoke this buffer Hsk)).
Qed.

Lemma encrypt_twice_same_ciphertext_witness :
  (encrypt Toy.platform "alice"
     (encrypt Toy.platform "alice" Toy.secure_engine).2).1
  = (encrypt Toy.platform "alice" Toy.secure_engine).1.
Proof.
  refine (proj2 (encrypt_twice_same_ciphertext Toy.platform Toy.secure_engine
                   {| sb_bytes := key_bytes Toy.platform "secret";
                      sb_state := NoAccess |} "alice" _)).
  vm_compute. reflexivity.
Defined.

(** C1 as stated fails: on the small platform two calls of [encrypt] on
    the plaintext [alice] under the key [secret] do not return different
    ciphertexts. *)
Lemma encrypt_twice_differs_counterexample :
  ¬ ((encrypt Toy.platform "alice" Toy.secure_engine).1
     ≠ (encrypt Toy.platform "alice"
          (encrypt Toy.platform "alice" Toy.secure_engine).2).1).
Proof. intros Hdiffer. apply Hdiffer. vm_compute. reflexivity. Qed.

(** C2, where the code departs from it: in insecure mode, [get] after
    [set(key, "")] completes with [null], not with the empty string that
    was set. *)
Theorem get_after_set_empty_insecure (P : Platform) (this : HareDB)
    (posted : list Message) (key : string) :
  secure this = false →
  worker this = Some posted →
  key ≠ "__proto__" →
  (get P key (set P key "" this).2).1 = Normal JNull.
Proof.
  intros Hmode Hworker Hkey.
  rewrite (set_run P this posted) by eauto using insecure_ready. cbn [snd].
  rewrite !at_rest_insecure by done.
  rewrite get_run by by apply insecure_ready. cbn [fst kv secure].
  rewrite at_rest_insecure by done. rewrite Hmode.
  unfold assign_property. rewrite decide_False by done.
  unfold read_property. by rewrite lookup_insert_eq.
Qed.

Lemma get_after_set_empty_insecure_witness :
  (get Toy.platform "user:1" (set Toy.platform "user:1" "" Toy.insecure_engine).2).1
  = Normal JNull.
Proof.
  apply (get_after_set_empty_insecure Toy.platform Toy.insecure_engine
           [STARTUP "hdb_persistence.sqlite"] "user:1").
  - reflexivity.
  - vm_compute. reflexivity.
  - done.
Defined.

(** C3: [decrypt] fails closed. Take what [encrypt] produced for
    [plaintext] under a key [key0], as it is or with one byte of its tag or
    body altered, and decrypt it on an engine whose secret key is in
    [buffer]. Whenever the primitive does not authenticate it under that
    key (its contract for an altered ciphertext, and for [key0] other than
    that key), [decrypt] throws the DecryptionError: no plaintext comes
    back, and the object is as before with all access revoked. *)
Theorem decrypt_fails_closed (P : Platform) (this : HareDB) (buffer : SecureBuffer)
    (key0 : list byte) (plaintext : string) (altered : list byte) :
  secretbox_opens P →
  length key0 = crypto_secretbox_KEYBYTES P →
  sk this = Some buffer →
  let produced :=
    crypto_secretbox_easy P (Buffer_from plaintext)
      (Buffer_alloc (crypto_secretbox_NONCEBYTES P)) key0 in
  altered = produced ∨ one_byte_altered produced altered →
  refuses P altered (sb_bytes buffer) →
  decrypt P (Json.stringify altered) this = (Throw DecryptionError, revoke this).
Proof.
  intros Hopens Hkey0 Hsk produced Haltered Hrefuses.
  rewrite (decrypt_eq P this buffer) by done.
  unfold decrypt_outcome. rewrite Buffer_from_JSON_parse_stringify.
  assert (length altered = length produced) as Hlen.
  { destruct Haltered as [->|Hone]; [done|by apply one_byte_altered_length]. }
  destruct (Hopens (Buffer_from plaintext)
              (Buffer_alloc (crypto_secretbox_NONCEBYTES P)) key0) as [Hplen _];
    [apply length_Buffer_alloc|done|].
  fold produced in Hplen. unfold refuses in Hrefuses.
  rewrite !decide_False by lia. by rewrite Hrefuses.
Qed.

Lemma decrypt_fails_closed_witness :
  decrypt Toy.platform
    (Json.stringify
       (<[16 := "b"%byte]>
          (Toy.easy (Buffer_from "alice") [] (key_bytes Toy.platform "secret"))))
    Toy.secure_engine
  = (Throw DecryptionError, Toy.secure_engine).
Proof.
  apply (decrypt_fails_closed Toy.platform Toy.secure_engine
           {| sb_bytes := key_bytes Toy.platform "secret"; sb_state := NoAccess |}
           (key_bytes Toy.platform "secret") "alice" _ toy_opens).
  - vm_compute. reflexivity.
  - vm_compute. reflexivity.
  - right. exists 16, "a"%byte, "b"%byte. vm_compute. done.
  - vm_compute. reflexivity.
Defined.

(** C4, with the conditions the code puts on the other key: a store
    created in secure mode with the key [secretKey] on a path that names a
    file, whatever the worker wrote to it since, is refused with a key
    [otherKey] that is not empty, fits the key buffer, and under which the
    primitive does not authenticate the test string of [secretKey] (its
    contract for another key): the constructor throws the WrongKeyError,
    with no row loaded and no worker started. *)
Theorem wrong_key_refused (P : Platform) (files : Disk) (path : string)
    (secretKey otherKey : string) (w1 : World) (messages : list Message) :
  names_file path →
  files !! path = None →
  requested (Some secretKey) = true →
  new_HareDB P files path (Some secretKey) = (Normal tt, w1) →
  requested (Some otherKey) = true →
  fits P (Some otherKey) →
  refuses P
    (crypto_secretbox_easy P (Buffer_from "ENCRYPTED TEXT")
       (Buffer_alloc (crypto_secretbox_NONCEBYTES P)) (key_bytes P secretKey))
    (key_bytes P otherKey) →
  ∃ w2,
    new_HareDB P (run_worker messages (disk w1)) path (Some otherKey)
    = (Throw WrongKeyError, w2)
    ∧ kv (this w2) = ∅
    ∧ worker (this w2) = None.
Proof.
  intros _ Hfresh Hmode Hnew Hmode' Hfit Hrefuses.
  destruct (new_HareDB_secure_inv P _ _ _ _ Hmode Hnew) as [_ Hsecure].
  destruct (new_HareDB_secure_ok P _ _ _ _ Hmode Hnew) as (-> & _ & _).
  assert (open_database files path = {| meta := ∅; key_value := ∅ |}) as Hd.
  { unfold open_database. by rewrite Hfresh. }
  rewrite Hd. cbn [disk meta key_value].
  destruct otherKey as [|c s]; [done|].
  rewrite new_HareDB_secure by done. cbv zeta.
  rewrite run_worker_meta, open_database_insert. cbn [meta].
  rewrite !lookup_insert_or_ignore.
  rewrite (decide_False (P := "secure_test_string" = "secure")) by done.
  rewrite decide_True by done.
  rewrite startup_meta_secure, startup_meta_test, !lookup_empty.
  cbn [from_option id bool_text].
  change (String.eqb "true" "true") with true. cbv iota.
  assert (∃ e, decrypt_outcome P (key_bytes P (String c s))
                 (ciphertext P (key_bytes P secretKey) "ENCRYPTED TEXT")
               = Throw e) as [e ->]; [|eauto].
  unfold decrypt_outcome, ciphertext. rewrite Buffer_from_JSON_parse_stringify.
  case_decide; [eauto|]. rewrite Hrefuses. eauto.
Qed.

Lemma wrong_key_refused_witness :
  ∃ w2,
    new_HareDB Toy.platform
      (run_worker [STARTUP "hdb_persistence.sqlite"; SET "a" "1"; SHUTDOWN]
         (disk (new_HareDB Toy.platform ∅ "hdb_persistence.sqlite" (Some "secret")).2))
      "hdb_persistence.sqlite" (Some "other")
    = (Throw WrongKeyError, w2)
    ∧ kv (this w2) = ∅
    ∧ worker (this w2) = None.
Proof.
  apply (wrong_key_refused Toy.platform ∅ "hdb_persistence.sqlite"
           "secret" "other").
  - apply toy_names_file.
  - reflexivity.
  - reflexivity.
  - vm_compute. reflexivity.
  - reflexivity.
  - vm_compute. lia.
  - vm_compute. reflexivity.
Defined.

(** C4 as stated fails for two keys other than the one that created the
    store. Against the store that the key [secret] created on the small
    platform, whose keys have 32 bytes, the constructor with a key of 33
    bytes throws the RangeError of [this.sk.set], and with the empty key,
    which asks for no encryption, the ConfigurationError: in neither case
    the WrongKeyError. *)
Lemma wrong_key_refused_counterexample :
  "0123456789abcdef0123456789abcdef0" ≠ "secret"
  ∧ (new_HareDB Toy.platform
       (disk (new_HareDB Toy.platform ∅ "hdb_persistence.sqlite" (Some "secret")).2)
       "hdb_persistence.sqlite" (Some "0123456789abcdef0123456789abcdef0")).1
    = Throw RuntimeError
  ∧ "" ≠ "secret"
  ∧ (new_HareDB Toy.platform
       (disk (new_HareDB Toy.platform ∅ "hdb_persistence.sqlite" (Some "secret")).2)
       "hdb_persistence.sqlite" (Some "")).1
    = Throw ConfigurationError.
Proof. vm_compute. by repeat split. Qed.

(** C5, with the checks that come before the recorded mode is read: a
    store on a path that names a file, which a constructor completed on in
    one mode, whatever the worker wrote to it since, is refused in the
    other mode: with key material that fits the key buffer, on memory that
    can be secured, the constructor throws the ConfigurationError, with no
    row loaded and no worker started. *)
Theorem mode_mismatch_refused (P : Platform) (files : Disk) (path : string)
    (secretKey1 secretKey2 : option string) (w1 : World) (messages : list Message) :
  names_file path →
  new_HareDB P files path secretKey1 = (Normal tt, w1) →
  requested secretKey2 = negb (requested secretKey1) →
  fits P secretKey2 →
  sodium_malloc_secure P = true →
  ∃ w2,
    new_HareDB P (run_worker messages (disk w1)) path secretKey2
    = (Throw ConfigurationError, w2)
    ∧ kv (this w2) = ∅
    ∧ worker (this w2) = None.
Proof.
  intros _ Hnew Hother Hfit Hsecure.
  destruct (new_HareDB_records_mode P _ _ _ _ Hnew) as (recorded & Hrec & Hflag).
  rewrite <- (run_worker_meta messages) in Hrec.
  destruct (requested secretKey2) eqn:Hmode2.
  - destruct secretKey2 as [[|c s]|]; try done.
    rewrite new_HareDB_secure by done. cbv zeta. rewrite Hrec.
    cbn [from_option id]. rewrite Hflag. destruct (requested secretKey1); [done|]. eauto.
  - rewrite new_HareDB_insecure by done. cbv zeta. rewrite Hrec.
    cbn [from_option id].
    rewrite Hflag. destruct (requested secretKey1); [|done]. eauto.
Qed.

Lemma mode_mismatch_refused_witness :
  ∃ w2,
    new_HareDB Toy.platform
      (run_worker [STARTUP "hdb_persistence.sqlite"; SET "a" "1"; SHUTDOWN]
         (disk (new_HareDB Toy.platform ∅ "hdb_persistence.sqlite" None).2))
      "hdb_persistence.sqlite" (Some "secret")
    = (Throw ConfigurationError, w2)
    ∧ kv (this w2) = ∅
    ∧ worker (this w2) = None.
Proof.
  apply (mode_mismatch_refused Toy.platform ∅ "hdb_persistence.sqlite"
           None (Some "secret")).
  - apply toy_names_file.
  - vm_compute. reflexivity.
  - reflexivity.
  - vm_compute. lia.
  - reflexivity.
Defined.

(** C5 as stated fails where an earlier check of the constructor throws.
    The store that a start without a secret key created is reopened with a
    secret key, so the recorded mode disagrees with the one asked for: with
    a key of 33 bytes on the small platform, whose keys have 32, the
    constructor throws the RangeError of [this.sk.set], and with the key
    [secret] on memory that cannot be secured the FatalSecurityError: in
    neither case the ConfigurationError. *)
Lemma mode_mismatch_refused_counterexample :
  (new_HareDB Toy.platform ∅ "hdb_persistence.sqlite" None).1 = Normal tt
  ∧ (new_HareDB Toy.platform
       (disk (new_HareDB Toy.platform ∅ "hdb_persistence.sqlite" None).2)
       "hdb_persistence.sqlite" (Some "0123456789abcdef0123456789abcdef0")).1
    = Throw RuntimeError
  ∧ (new_HareDB Toy.unsecured ∅ "hdb_persistence.sqlite" None).1 = Normal tt
  ∧ (new_HareDB Toy.unsecured
       (disk (new_HareDB Toy.unsecured ∅ "hdb_persistence.sqlite" None).2)
       "hdb_persistence.sqlite" (Some "secret")).1
    = Throw FatalSecurityError.
Proof. vm_compute. by repeat split. Qed.



(** C7: from a constructor that completed in secure mode on, after every
    sequence of [set], [get] and [del] calls (whichever of them returned
    or threw), all access to the secret key is revoked; and from there
    every [encrypt] and every [decrypt], on every input and however it
    completes (also a [decrypt] that throws because the authentication
    failed), ends with all access revoked again, and neither dies on an
    access to the protected memory. *)
Theorem protection_invariant (P : Platform) (files : Disk) (path : string)
    (secretKey : option string) (w : World) (cs : list Call) (value : string) :
  requested secretKey = true →
  new_HareDB P files path secretKey = (Normal tt, w) →
  let this := calls P cs (this w) in
  protection this = Some NoAccess
  ∧ protection (encrypt P value this).2 = Some NoAccess
  ∧ protection (decrypt P value this).2 = Some NoAccess
  ∧ (encrypt P value this).1 ≠ Crash
  ∧ (decrypt P value this).1 ≠ Crash.
Proof.
  intros Hmode Hnew this.
  assert (revoked this) as Hrevoked.
  { apply revoked_calls. destruct secretKey as [secretKey|]; [|done].
    by destruct (new_HareDB_secure_ok P _ _ _ _ Hmode Hnew) as (-> & _). }
  split; [done|].
  split; [by apply revoked_encrypt|].
  split; [by apply revoked_decrypt|].
  destruct (proj1 (protection_NoAccess this) Hrevoked) as [key Hsk].
  rewrite (encrypt_secured P key), (decrypt_secured P key) by done.
  split; [done|]. cbn [fst]. unfold decrypt_outcome.
  repeat (case_match; try done).
Qed.

Lemma protection_invariant_witness :
  let this :=
    calls Toy.platform [CallSet "user:1" "alice"; CallGet "user:1"; CallDel "user:1"]
      Toy.secure_engine in
  protection this = Some NoAccess
  ∧ protection (encrypt Toy.platform "bob" this).2 = Some NoAccess
  ∧ protection (decrypt Toy.platform "[1,2,3]" this).2 = Some NoAccess
  ∧ (encrypt Toy.platform "bob" this).1 ≠ Crash
  ∧ (decrypt Toy.platform "[1,2,3]" this).1 ≠ Crash.
Proof.
  refine (protection_invariant Toy.platform ∅ "hdb_persistence.sqlite"
            (Some "secret")
            (new_HareDB Toy.platform ∅ "hdb_persistence.sqlite" (Some "secret")).2
            _ _ _ _).
  - reflexivity.
  - vm_compute. reflexivity.
Defined.

(** C8, where the code departs from it: in insecure mode, on an index
    that has no key [toString], [del("toString")] returns [true] and posts
    a [DEL] message to the worker; the index is as before. *)
Theorem del_inherited_insecure (P : Platform) (this : HareDB)
    (posted : list Message) :
  secure this = false →
  worker this = Some posted →
  kv this !! "toString" = None →
  del P "toString" this
  = (Normal true,
     {| kv := kv this; worker := Some (posted ++ [DEL "toString"]);
        sk := sk this; secure := secure this |}).
Proof.
  intros Hmode Hworker Habsent.
  rewrite (del_run P this posted) by eauto using insecure_ready.
  rewrite at_rest_insecure by done.
  unfold has_property. change (inherited "toString") with true.
  rewrite orb_true_r. by rewrite delete_id.
Qed.

Lemma del_inherited_insecure_witness :
  (del Toy.platform "toString" Toy.insecure_engine).1 = Normal true
  ∧ worker (del Toy.platform "toString" Toy.insecure_engine).2
    = Some [STARTUP "hdb_persistence.sqlite"; DEL "toString"].
Proof.
  rewrite (del_inherited_insecure Toy.platform Toy.insecure_engine
             [STARTUP "hdb_persistence.sqlite"]).
  - split; reflexivity.
  - reflexivity.
  - vm_compute. reflexivity.
  - vm_compute. reflexivity.
Defined.

(** C9, for the strings that UTF-8 can write: on an engine whose secret
    key has the primitive's key length, [decrypt] of what [encrypt]
    returned for [value] returns the string that [toString] reads from the
    bytes [Buffer.from] wrote for [value]; this is [value] for every
    string [value] without an unpaired surrogate. The object is as before
    with all access revoked. *)
Theorem decrypt_encrypt (P : Platform) (this : HareDB) (buffer : SecureBuffer)
    (value : string) :
  secretbox_opens P →
  sk this = Some buffer →
  length (sb_bytes buffer) = crypto_secretbox_KEYBYTES P →
  ∃ encrypted,
    encrypt P value this = (Normal encrypted, revoke this)
    ∧ decrypt P encrypted (revoke this)
      = (Normal (Buffer_toString (Buffer_from value)), revoke this)
    ∧ (well_formed value →
       decrypt P encrypted (revoke this) = (Normal value, revoke this)).
Proof.
  intros Hopens Hsk Hkey. exists (ciphertext P (sb_bytes buffer) value).
  rewrite (encrypt_eq P this buffer) by done. split; [done|].
  rewrite (decrypt_secured P (sb_bytes buffer)) by by apply sk_revoke.
  rewrite decrypt_outcome_ciphertext by done. split; [done|].
  intros Hvalue. by rewrite Buffer_toString_from.
Qed.

Lemma decrypt_encrypt_witness :
  ∃ encrypted,
    encrypt Toy.platform "Zoë, 20 €" Toy.secure_engine
    = (Normal encrypted, revoke Toy.secure_engine)
    ∧ decrypt Toy.platform encrypted (revoke Toy.secure_engine)
      = (Normal "Zoë, 20 €", revoke Toy.secure_engine).
Proof.
  destruct (decrypt_encrypt Toy.platform Toy.secure_engine
              {| sb_bytes := key_bytes Toy.platform "secret"; sb_state := NoAccess |}
              "Zoë, 20 €" toy_opens toy_secure_engine_sk toy_key_length)
    as (encrypted & Hencrypt & _ & Hdecrypt).
  exists encrypted. split; [exact Hencrypt|]. apply Hdecrypt. reflexivity.
Defined.

(** C9 as stated fails for a string with an unpaired surrogate: on the
    small platform, [decrypt] of what [encrypt] returned for the string of
    the one code unit D800 returns the string of the one character U+FFFD,
    which is another string. *)
Lemma decrypt_encrypt_counterexample :
  ∃ encrypted,
    (encrypt Toy.platform lone_surrogate Toy.secure_engine).1 = Normal encrypted
    ∧ (decrypt Toy.platform encrypted Toy.secure_engine).1
      = Normal replacement_character
    ∧ (decrypt Toy.platform encrypted Toy.secure_engine).1 ≠ Normal lone_surrogate.
Proof. eexists. vm_compute. by repeat split. Qed.

(** C10: [get] is read-only. For every key and every object, however
    [get] completes, the index [this.kv] and the messages posted to the
    worker are afterwards what they were; the method has no handle on the
    files at all. *)
Theorem get_read_only (P : Platform) (key : string) (this : HareDB) :
  kv (get P key this).2 = kv this
  ∧ worker (get P key this).2 = worker this.
Proof. by apply (same_index_get P (kv this) (worker this) key this). Qed.
